(** * AfriSuno-Vibe: the offline mastering pipeline and the analysis pre-processor

    A shallow embedding of [services/audioEngine.ts] (the mastering chain,
    the waveshaping curve, the modulation units, the WAV and MP3 encoders) and
    of [optimizeAudioForAnalysis] and [bufferToWavBlob] from
    [components/VibeCloner.tsx], followed by the properties the design
    document states about them.

    Conventions.
    - JavaScript numbers are [number]: a rational, [NaN] or an infinity.
      Samples are read from [Float32Array]s.  A sample the clamp leaves alone
      has 24 significant bits, so its products with [0x8000] and [0x7FFF] have
      at most 39 and are exact in binary64; a clamped one is [0.95] or
      [-0.95], whose scaled value is far from any integer.  The integers the
      rational model of the conversion yields are therefore those of the
      binary64 computation.  Durations and times are rationals and their
      products are taken exactly.  The waveshaping curve, which needs [tanh],
      is taken over the reals.
    - An [ArrayBuffer] is a [list Z] of bytes, written through [DataView]
      setters that fail with [RangeError] outside the buffer.
    - The Web Audio platform (decoder, offline renderer, [FileReader]) and the
      MP3 codec are the records [Platform] and [Mp3Codec], arguments of the
      functions that call them. *)

From Stdlib Require Import ZArith QArith Qround Qminmax Reals Lia Psatz String Ascii.
From stdpp Require Import base option list strings.

Open Scope Z_scope.

(** ** JavaScript values *)

Inductive jsError : Type :=
| DOMException (name : string)
| RangeError
| Error (message : string)
| ProgressEvent (type : string).

(** A computation that returns or throws (a rejected promise is a throw). *)
Inductive result (A : Type) : Type :=
| Ok (a : A)
| Throw (e : jsError).
Arguments Ok {A} a.
Arguments Throw {A} e.

#[global] Instance result_ret : MRet result := fun _ a => Ok a.
#[global] Instance result_bind : MBind result := fun _ _ f m =>
  match m with
  | Ok a => f a
  | Throw e => Throw e
  end.

Inductive number : Type :=
| NaN
| Inf (negative : bool)
| Fin (q : Q).

Definition Qlt_bool (a b : Q) : bool := negb (Qle_bool b a).

(** The [<] of JavaScript: false as soon as one side is [NaN]. *)
Definition num_lt (x y : number) : bool :=
  match x, y with
  | NaN, _ | _, NaN => false
  | Fin a, Fin b => Qlt_bool a b
  | Inf n, Fin _ => n
  | Fin _, Inf n => negb n
  | Inf n, Inf m => n && negb m
  end.

Definition Math_min (x y : number) : number :=
  match x, y with
  | NaN, _ | _, NaN => NaN
  | _, _ => if num_lt y x then y else x
  end.

Definition Math_max (x y : number) : number :=
  match x, y with
  | NaN, _ | _, NaN => NaN
  | _, _ => if num_lt x y then y else x
  end.

Definition num_mul (x y : number) : number :=
  match x, y with
  | NaN, _ | _, NaN => NaN
  | Fin a, Fin b => Fin (a * b)
  | Inf n, Fin b | Fin b, Inf n =>
      if Qeq_bool b 0 then NaN else Inf (xorb n (Qlt_bool b 0))
  | Inf n, Inf m => Inf (xorb n m)
  end.

(** Rounding toward zero, the integer part taken by [ToInt16] and friends. *)
Definition truncate (q : Q) : Z := Z.quot (Qnum q) (Z.pos (Qden q)).

Definition wrapSigned (bits : Z) (z : Z) : Z :=
  let m := z mod 2 ^ bits in
  if 2 ^ (bits - 1) <=? m then m - 2 ^ bits else m.

Definition ToInt16 (x : number) : Z :=
  match x with
  | Fin q => wrapSigned 16 (truncate q)
  | _ => 0
  end.

(** ** Typed arrays and [DataView] *)

Definition u16le (v : Z) : list Z :=
  let u := v mod 2 ^ 16 in [u mod 256; u / 256].

Definition u32le (v : Z) : list Z :=
  let u := v mod 2 ^ 32 in
  [u mod 256; (u / 2 ^ 8) mod 256; (u / 2 ^ 16) mod 256; u / 2 ^ 24].

Definition i16le (v : Z) : list Z := u16le v.

(** Writing [bs] at [byteOffset]: all of it or a [RangeError]. *)
Definition setBytes (byteOffset : nat) (bs : list Z) (view : list Z)
  : result (list Z) :=
  if decide (byteOffset + length bs ≤ length view)%nat
  then Ok (list_inserts byteOffset bs view)
  else Throw RangeError.

Definition setUint8 (byteOffset : nat) (v : Z) := setBytes byteOffset [v mod 256].
Definition setUint16 (byteOffset : nat) (v : Z) := setBytes byteOffset (u16le v).
Definition setUint32 (byteOffset : nat) (v : Z) := setBytes byteOffset (u32le v).
Definition setInt16 (byteOffset : nat) (x : number) :=
  setBytes byteOffset (i16le (ToInt16 x)).

Definition getUint16 (byteOffset : nat) (view : list Z) : option Z :=
  match take 2 (drop byteOffset view) with
  | [b0; b1] => Some (b0 + 256 * b1)
  | _ => None
  end.

Definition getUint32 (byteOffset : nat) (view : list Z) : option Z :=
  match take 4 (drop byteOffset view) with
  | [b0; b1; b2; b3] => Some (b0 + 256 * (b1 + 256 * (b2 + 256 * b3)))
  | _ => None
  end.

Definition getInt16 (byteOffset : nat) (view : list Z) : option Z :=
  wrapSigned 16 <$> getUint16 byteOffset view.

Fixpoint charCodes (s : string) : list Z :=
  match s with
  | EmptyString => []
  | String c s' => Z.of_N (N_of_ascii c) :: charCodes s'
  end.

(** [for (let i = 0; i < n; i++) body], the loop state threaded through. *)
Fixpoint forEach {S : Type} (body : nat → S → result S) (idxs : list nat) (s : S)
  : result S :=
  match idxs with
  | [] => Ok s
  | i :: rest => s' ← body i s; forEach body rest s'
  end.

Definition for_lt {S : Type} (n : nat) (body : nat → S → result S) (s : S)
  : result S :=
  forEach body (seq 0 n) s.

(** The local helper of both WAV encoders. *)
Definition writeString (offset : nat) (s : string) (view : list Z)
  : result (list Z) :=
  for_lt (String.length s)
    (fun i view =>
       match charCodes s !! i with
       | Some c => setUint8 (offset + i) c view
       | None => Ok view
       end)
    view.

(** ** Audio buffers *)

Module AudioBuffer.

Record t : Type := mk {
  sampleRate : Z;
  numberOfChannels : nat;
  frames : nat;                       (* [buffer.length] *)
  samples : nat → nat → number        (* channel, frame *)
}.

(** [buffer.duration], in seconds. *)
Definition duration (b : t) : Q :=
  inject_Z (Z.of_nat (frames b)) / inject_Z (sampleRate b).

(** [buffer.getChannelData(channel)]. *)
Definition getChannelData (b : t) (channel : nat) : result (list number) :=
  if decide (channel < numberOfChannels b)%nat
  then Ok (samples b channel <$> seq 0 (frames b))
  else Throw (DOMException "IndexSizeError").


End AudioBuffer.

Record Blob : Type := mkBlob { blobBytes : list Z; blobType : string }.

(** Reading [array[i]]: [undefined] outside, which arithmetic turns to [NaN]. *)
Definition at_index (data : list number) (i : nat) : number :=
  default NaN (data !! i).

(** ** The PCM container encoder *)

Definition audioBufferToWav (buffer : AudioBuffer.t) : result Blob :=
  let numChannels := AudioBuffer.numberOfChannels buffer in
  let sampleRate := AudioBuffer.sampleRate buffer in
  let format := 1 in
  let bitDepth := 16 in
  let bytesPerSample := (Z.to_nat (bitDepth / 8)) in
  let blockAlign := (numChannels * bytesPerSample)%nat in
  data0 ← AudioBuffer.getChannelData buffer 0;
  let dataLength := length data0 in
  let bufferLength := (44 + dataLength * numChannels * bytesPerSample)%nat in
  let view := replicate bufferLength 0 in
  view ← writeString 0 "RIFF" view;
  view ← setUint32 4 (Z.of_nat (36 + dataLength * numChannels * bytesPerSample)) view;
  view ← writeString 8 "WAVE" view;
  view ← writeString 12 "fmt " view;
  view ← setUint32 16 16 view;
  view ← setUint16 20 format view;
  view ← setUint16 22 (Z.of_nat numChannels) view;
  view ← setUint32 24 sampleRate view;
  view ← setUint32 28 (sampleRate * Z.of_nat blockAlign) view;
  view ← setUint16 32 (Z.of_nat blockAlign) view;
  view ← setUint16 34 bitDepth view;
  view ← writeString 36 "data" view;
  view ← setUint32 40 (Z.of_nat (dataLength * numChannels * bytesPerSample)) view;
  '(view, _) ←
    for_lt dataLength (fun i st =>
      for_lt numChannels (fun channel '(view, offset) =>
        channelData ← AudioBuffer.getChannelData buffer channel;
        let sample := at_index channelData i in
        let s := Math_max (Fin (-0.95)) (Math_min (Fin 0.95) sample) in
        let s := if num_lt s (Fin 0) then num_mul s (Fin 32768) else num_mul s (Fin 32767) in
        view ← setInt16 offset s view;
        Ok (view, (offset + 2)%nat)) st)
      (view, 44%nat);
  Ok (mkBlob view "audio/wav").

(** ** The minimal mono encoder of the analysis pre-processor *)

Definition bufferToWavBlob (buffer : AudioBuffer.t) : result Blob :=
  let numChannels := 1%nat in
  let sampleRate := AudioBuffer.sampleRate buffer in
  let format := 1 in
  let bitDepth := 16 in
  data ← AudioBuffer.getChannelData buffer 0;
  let bytesPerSample := (Z.to_nat (bitDepth / 8)) in
  let blockAlign := (numChannels * bytesPerSample)%nat in
  let wavDataLength := (length data * bytesPerSample)%nat in
  let bufferLength := (44 + wavDataLength)%nat in
  let view := replicate bufferLength 0 in
  view ← writeString 0 "RIFF" view;
  view ← setUint32 4 (Z.of_nat (36 + wavDataLength)) view;
  view ← writeString 8 "WAVE" view;
  view ← writeString 12 "fmt " view;
  view ← setUint32 16 16 view;
  view ← setUint16 20 format view;
  view ← setUint16 22 (Z.of_nat numChannels) view;
  view ← setUint32 24 sampleRate view;
  view ← setUint32 28 (sampleRate * Z.of_nat blockAlign) view;
  view ← setUint16 32 (Z.of_nat blockAlign) view;
  view ← setUint16 34 bitDepth view;
  view ← writeString 36 "data" view;
  view ← setUint32 40 (Z.of_nat wavDataLength) view;
  '(view, _) ←
    for_lt (length data) (fun i '(view, offset) =>
      let s := Math_max (Fin (-1)) (Math_min (Fin 1) (at_index data i)) in
      let val := if num_lt s (Fin 0) then num_mul s (Fin 32768) else num_mul s (Fin 32767) in
      view ← setInt16 offset val view;
      Ok (view, (offset + 2)%nat))
      (view, 44%nat);
  Ok (mkBlob view "audio/wav").

(** ** The Web Audio graph under construction

    Nodes are numbered in creation order; node [0] is the context's
    destination.  Assignments to attributes and parameters are recorded on
    the node, connections and [start()] calls on the graph. *)

Inductive NodeType : Type :=
| AudioDestinationNode
| AudioBufferSourceNode
| GainNode
| BiquadFilterNode
| DelayNode
| OscillatorNode
| DynamicsCompressorNode
| WaveShaperNode
| ChannelSplitterNode (numberOfOutputs : nat)
| ChannelMergerNode (numberOfInputs : nat).

Inductive Value : Type :=
| VNum (q : Q)
| VPow10 (exponent : Q)               (* [Math.pow(10, exponent)] *)
| VStr (s : string)
| VCurve (curve : list R)
| VBuffer (b : AudioBuffer.t).

Inductive AutomationEvent : Type :=
| SetValueAtTime (value startTime : Q)
| LinearRampToValueAtTime (value endTime : Q).

Record Node : Type := mkNode {
  nodeType : NodeType;
  assigned : list (string * Value);
  automation : list (string * AutomationEvent)
}.

Inductive Target : Type :=
| NodeInput (node input : nat)
| Param (node : nat) (param : string).

#[global] Instance Target_eq_dec : EqDecision Target.
Proof. solve_decision. Defined.

Record Connection : Type := mkConnection {
  source : nat;
  output : nat;
  target : Target
}.

Record Graph : Type := mkGraph {
  nodes : list Node;
  connections : list Connection;
  started : list nat
}.

Record G (A : Type) : Type := mkG { runG : Graph → A * Graph }.
Arguments mkG {A} _.
Arguments runG {A} _ _.

#[global] Instance G_ret : MRet G := fun _ a => mkG (fun g => (a, g)).
#[global] Instance G_bind : MBind G := fun _ _ f m =>
  mkG (fun g => let '(a, g') := runG m g in runG (f a) g').

Definition createNode (ty : NodeType) : G nat :=
  mkG (fun g =>
    (length (nodes g),
     mkGraph (nodes g ++ [mkNode ty [] []]) (connections g) (started g))).

Definition createGain := createNode GainNode.
Definition createDelay := createNode DelayNode.
Definition createOscillator := createNode OscillatorNode.
Definition createBiquadFilter := createNode BiquadFilterNode.
Definition createBufferSource := createNode AudioBufferSourceNode.
Definition createDynamicsCompressor := createNode DynamicsCompressorNode.
Definition createWaveShaper := createNode WaveShaperNode.
Definition createChannelSplitter (n : nat) := createNode (ChannelSplitterNode n).
Definition createChannelMerger (n : nat) := createNode (ChannelMergerNode n).

(** [node.name = v] and [node.name.value = v]. *)
Definition assign (node : nat) (name : string) (v : Value) : G unit :=
  mkG (fun g =>
    (tt,
     mkGraph
       (alter (fun n => mkNode (nodeType n) (assigned n ++ [(name, v)]) (automation n))
              node (nodes g))
       (connections g) (started g))).

Definition schedule (node : nat) (param : string) (e : AutomationEvent) : G unit :=
  mkG (fun g =>
    (tt,
     mkGraph
       (alter (fun n => mkNode (nodeType n) (assigned n) (automation n ++ [(param, e)]))
              node (nodes g))
       (connections g) (started g))).

(** [src.connect(dst, output, input)]; it returns [dst], so calls chain. *)
Definition connectAt (src dst out input : nat) : G nat :=
  mkG (fun g =>
    (dst,
     mkGraph (nodes g) (connections g ++ [mkConnection src out (NodeInput dst input)])
             (started g))).

Definition connect (src dst : nat) : G nat := connectAt src dst 0 0.

Definition connectParam (src node : nat) (param : string) : G unit :=
  mkG (fun g =>
    (tt,
     mkGraph (nodes g) (connections g ++ [mkConnection src 0 (Param node param)])
             (started g))).

Definition start (node : nat) : G unit :=
  mkG (fun g => (tt, mkGraph (nodes g) (connections g) (started g ++ [node]))).

(** A loop over [xs] inside the graph builder. *)
Fixpoint foldG {S X : Type} (body : X → S → G S) (xs : list X) (s : S) : G S :=
  match xs with
  | [] => mret s
  | x :: rest => s' ← body x s; foldG body rest s'
  end.

(** ** Ultra-smooth asymptotic gain reduction: the waveshaping curve

    The table is taken over the reals; its entries are then stored in a
    [Float32Array]. *)

Definition makeSilkCurve : list R :=
  let n_samples := Z.to_nat 48000 in
  (fun i : nat =>
     let x := (IZR (Z.of_nat i) * 2 / IZR (Z.of_nat n_samples) - 1)%R in
     if Rlt_dec (Rabs x) 0.7 then x
     else
       let sign := if Rlt_dec x 0 then (-1)%R else 1%R in
       let xabs := Rabs x in
       (sign * (0.7 + tanh (xabs - 0.7) * 0.25))%R)
  <$> seq 0 n_samples.

(** ** Creative FX helpers *)

Definition createChorus (input : nat) (intensity : Q) : G nat :=
  if Qle_bool intensity 0 then mret input
  else
    splitter ← createChannelSplitter 2;
    merger ← createChannelMerger 2;
    connect input splitter;;
    delayL ← createDelay;
    delayR ← createDelay;
    assign delayL "delayTime" (VNum 0.02);;
    assign delayR "delayTime" (VNum 0.025);;
    osc ← createOscillator;
    assign osc "type" (VStr "sine");;
    assign osc "frequency" (VNum 1.5);;
    gainL ← createGain;
    gainR ← createGain;
    assign gainL "gain" (VNum (0.002 * intensity));;
    assign gainR "gain" (VNum (-0.002 * intensity));;
    n ← connect osc gainL; connectParam n delayL "delayTime";;
    n ← connect osc gainR; connectParam n delayR "delayTime";;
    start osc;;
    connectAt splitter delayL 0 0;;
    connectAt splitter delayR 1 0;;
    connectAt delayL merger 0 0;;
    connectAt delayR merger 0 1;;
    wetGain ← createGain;
    assign wetGain "gain" (VNum (0.5 * intensity));;
    connect merger wetGain;;
    connect input wetGain;;
    mret wetGain.

Definition createPhaser (input : nat) (intensity : Q) : G nat :=
  if Qle_bool intensity 0 then mret input
  else
    let stages := 4%nat in
    '(node, filters) ←
      foldG (fun (i : nat) '(node, filters) =>
               filter ← createBiquadFilter;
               assign filter "type" (VStr "allpass");;
               assign filter "frequency" (VNum 1000);;
               connect node filter;;
               mret (filter, filters ++ [filter]))
            (seq 0 stages) (input, []);
    lfo ← createOscillator;
    assign lfo "type" (VStr "triangle");;
    assign lfo "frequency" (VNum 0.5);;
    lfoGain ← createGain;
    assign lfoGain "gain" (VNum (800 * intensity));;
    connect lfo lfoGain;;
    foldG (fun f _ => connectParam lfoGain f "frequency") filters tt;;
    start lfo;;
    mix ← createGain;
    connect node mix;;
    connect input mix;;
    feedback ← createGain;
    assign feedback "gain" (VNum (0.4 * intensity));;
    connect node feedback;;
    match filters !! 0%nat with
    | Some first => connect feedback first;; mret mix
    | None => mret mix                  (* not reached: there are four filters *)
    end.

Definition createFlanger (input : nat) (intensity : Q) : G nat :=
  if Qle_bool intensity 0 then mret input
  else
    delay ← createDelay;
    assign delay "delayTime" (VNum 0.003);;
    feedback ← createGain;
    assign feedback "gain" (VNum (0.5 * intensity));;
    lfo ← createOscillator;
    assign lfo "frequency" (VNum 0.3);;
    lfoGain ← createGain;
    assign lfoGain "gain" (VNum (0.002 * intensity));;
    n ← connect lfo lfoGain; connectParam n delay "delayTime";;
    start lfo;;
    connect input delay;;
    connect delay feedback;;
    connect feedback delay;;
    wet ← createGain;
    assign wet "gain" (VNum 0.5);;
    connect delay wet;;
    connect input wet;;
    mret wet.

(** ** The MP3 adapter

    [Mp3Encoder] comes from a third-party codec; its three entry points are
    the fields below. *)

Record Mp3Codec : Type := {
  Mp3Encoder : Type;
  newMp3Encoder : nat → Z → Z → Mp3Encoder;      (* channels, sampleRate, kbps *)
  encodeBuffer : Mp3Encoder → list Z → option (list Z) → Mp3Encoder * list Z;
  flush : Mp3Encoder → list Z
}.

(** The start indices of [for (let i = 0; i < length; i += step)]. *)
Definition strideIndices (len step : nat) : list nat :=
  (fun k => k * step)%nat <$> seq 0 ((len + step - 1) / step).

(** [array.subarray(begin, end)]: [end] is clamped to the array. *)
Definition subarray {A : Type} (a : list A) (b e : nat) : list A :=
  take (e - b) (drop b a).

Definition audioBufferToMp3 (codec : Mp3Codec) (buffer : AudioBuffer.t) : result Blob :=
  let channels := AudioBuffer.numberOfChannels buffer in
  let sampleRate := AudioBuffer.sampleRate buffer in
  let kbps := 320 in
  let mp3encoder := newMp3Encoder codec channels sampleRate kbps in
  samplesLeft ← AudioBuffer.getChannelData buffer 0;
  samplesRight ← (if decide (1 < channels)%nat
                  then AudioBuffer.getChannelData buffer 1
                  else Ok samplesLeft);
  let len := length samplesLeft in
  let leftInt16 := replicate len 0 in
  let rightInt16 := replicate len 0 in
  '(leftInt16, rightInt16) ←
    for_lt len (fun i '(leftInt16, rightInt16) =>
      let l := Math_max (Fin (-0.95)) (Math_min (Fin 0.95) (at_index samplesLeft i)) in
      let leftInt16 :=
        <[i := ToInt16 (if num_lt l (Fin 0) then num_mul l (Fin 32768)
                        else num_mul l (Fin 32767))]> leftInt16 in
      if decide (1 < channels)%nat then
        let r := Math_max (Fin (-0.95)) (Math_min (Fin 0.95) (at_index samplesRight i)) in
        Ok (leftInt16,
            <[i := ToInt16 (if num_lt r (Fin 0) then num_mul r (Fin 32768)
                            else num_mul r (Fin 32767))]> rightInt16)
      else Ok (leftInt16, rightInt16))
    (leftInt16, rightInt16);
  let sampleBlockSize := 1152%nat in
  '(mp3encoder, mp3Data) ←
    forEach (fun i '(mp3encoder, mp3Data) =>
      let leftChunk := subarray leftInt16 i (i + sampleBlockSize) in
      let rightChunk := if decide (1 < channels)%nat
                        then Some (subarray rightInt16 i (i + sampleBlockSize))
                        else None in
      let '(mp3encoder, mp3buf) := encodeBuffer codec mp3encoder leftChunk rightChunk in
      Ok (mp3encoder, if decide (0 < length mp3buf)%nat then mp3Data ++ [mp3buf] else mp3Data))
    (strideIndices len sampleBlockSize) (mp3encoder, []);
  let mp3buf := flush codec mp3encoder in
  let mp3Data := if decide (0 < length mp3buf)%nat then mp3Data ++ [mp3buf] else mp3Data in
  Ok (mkBlob (concat mp3Data) "audio/mp3").

(** ** The platform *)

Record File : Type := mkFile {
  fileName : string;
  fileType : string;
  arrayBuffer : result (list Z)         (* what [file.arrayBuffer()] settles to *)
}.

Inductive ReaderOutcome : Type :=
| ReaderLoad (readerResult : option string)   (* [onload]; [None]: not a string *)
| ReaderError (event : jsError).              (* [onerror] *)

Record Platform : Type := {
  decodeAudioData : list Z → result AudioBuffer.t;
  (* the samples an offline context of that shape renders from a graph *)
  offlineRender : nat → nat → Z → Graph → result (nat → nat → number);
  codec : Mp3Codec;
  readAsDataURL : Blob → ReaderOutcome
}.

Record OfflineAudioContext : Type := mkCtx {
  ctxChannels : nat;
  ctxLength : nat;
  ctxSampleRate : Z
}.

(** [new OfflineAudioContext(channels, length, sampleRate)]: an argument that
    is zero or negative is a [NotSupportedError]. *)
Definition newOfflineAudioContext (numberOfChannels : nat) (len : Z) (sampleRate : Z)
  : result OfflineAudioContext :=
  if decide (numberOfChannels = 0%nat ∨ len ≤ 0 ∨ sampleRate ≤ 0)
  then Throw (DOMException "NotSupportedError")
  else Ok (mkCtx numberOfChannels (Z.to_nat len) sampleRate).

Definition destination : nat := 0%nat.

Definition emptyGraph : Graph := mkGraph [mkNode AudioDestinationNode [] []] [] [].

(** [offlineCtx.startRendering()]: the buffer has the shape the context was
    created with. *)
Definition startRendering (pf : Platform) (ctx : OfflineAudioContext) (g : Graph)
  : result AudioBuffer.t :=
  data ← offlineRender pf (ctxChannels ctx) (ctxLength ctx) (ctxSampleRate ctx) g;
  Ok (AudioBuffer.mk (ctxSampleRate ctx) (ctxChannels ctx) (ctxLength ctx) data).

(** ** The mastering chain *)

Inductive Intensity : Type := low | medium | high.
Inductive StereoWidth : Type := normal | wide.
Inductive ExportFormat : Type := mp3 | wav.
Inductive MasteringPreset : Type := balanced | pop | electronic | rock | lofi.

Record CreativeFx : Type := mkCreativeFx { chorus : Q; phaser : Q; flanger : Q }.

Record AudioProcessOptions : Type := mkOptions {
  intensity : Intensity;
  stereoWidth : StereoWidth;
  enableWarmth : bool;
  enableFades : bool;
  enableNaturalizer : bool;
  exportFormat : ExportFormat;
  preset : option MasteringPreset;
  creativeFx : CreativeFx
}.

Record Config : Type := mkConfig {
  safetyHeadroom : Q;
  compThreshold : Q;
  compRatio : Q;
  finalGain : Q
}.

Definition isHigh (i : Intensity) : bool :=
  match i with high => true | _ => false end.

Definition config (options : AudioProcessOptions) : Config :=
  {| safetyHeadroom := -20.0;
     compThreshold := if isHigh (intensity options) then -28 else -24;
     compRatio := if isHigh (intensity options) then 2.5 else 1.5;
     finalGain := if isHigh (intensity options) then 15.0 else 13.0 |}.

Definition isPreset (p : MasteringPreset) (o : option MasteringPreset) : bool :=
  match p, o with
  | pop, Some pop | electronic, Some electronic | balanced, Some balanced
  | rock, Some rock | lofi, Some lofi => true
  | _, _ => false
  end.

(** Chain start: source, input trim and high-pass. *)
Definition chainStart (audioBuffer : AudioBuffer.t) (options : AudioProcessOptions)
  : G (nat * nat) :=
  source ← createBufferSource;
  assign source "buffer" (VBuffer audioBuffer);;
  inputNode ← createGain;
  assign inputNode "gain" (VPow10 (safetyHeadroom (config options) / 20));;
  connect source inputNode;;
  let chain := inputNode in
  hpf ← createBiquadFilter;
  assign hpf "type" (VStr "highpass");;
  assign hpf "frequency" (VNum 85);;
  assign hpf "Q" (VNum 0.707);;
  connect chain hpf;;
  mret (source, hpf).

(** 1. Creative FX layer (pre-dynamics). *)
Definition creativeFxLayer (options : AudioProcessOptions) (chain : nat) : G nat :=
  chain ← (if Qlt_bool 0 (chorus (creativeFx options))
           then createChorus chain (chorus (creativeFx options)) else mret chain);
  chain ← (if Qlt_bool 0 (phaser (creativeFx options))
           then createPhaser chain (phaser (creativeFx options)) else mret chain);
  if Qlt_bool 0 (flanger (creativeFx options))
  then createFlanger chain (flanger (creativeFx options)) else mret chain.

(** 2. Surgical naturalizer. *)
Definition surgicalNaturalizer (options : AudioProcessOptions) (chain : nat) : G nat :=
  if enableNaturalizer options then
    notch1 ← createBiquadFilter;
    assign notch1 "type" (VStr "peaking");;
    assign notch1 "frequency" (VNum 2800);;
    assign notch1 "Q" (VNum 4.0);;
    assign notch1 "gain" (VNum (-5.0));;
    notch2 ← createBiquadFilter;
    assign notch2 "type" (VStr "peaking");;
    assign notch2 "frequency" (VNum 4500);;
    assign notch2 "Q" (VNum 5.0);;
    assign notch2 "gain" (VNum (-5.5));;
    notch3 ← createBiquadFilter;
    assign notch3 "type" (VStr "peaking");;
    assign notch3 "frequency" (VNum 6200);;
    assign notch3 "Q" (VNum 6.0);;
    assign notch3 "gain" (VNum (-4.0));;
    silkTilt ← createBiquadFilter;
    assign silkTilt "type" (VStr "highshelf");;
    assign silkTilt "frequency" (VNum 8500);;
    assign silkTilt "gain" (VNum (-5.0));;
    connect chain notch1;;
    connect notch1 notch2;;
    connect notch2 notch3;;
    connect notch3 silkTilt;;
    mret silkTilt
  else mret chain.

(** 3. Tonal shaping. *)
Definition tonalShaping (options : AudioProcessOptions) (chain : nat) : G nat :=
  lowShelf ← createBiquadFilter;
  assign lowShelf "type" (VStr "lowshelf");;
  assign lowShelf "frequency" (VNum 180);;
  assign lowShelf "gain" (VNum (if isPreset electronic (preset options) then 1.5 else 0.5));;
  highShelf ← createBiquadFilter;
  assign highShelf "type" (VStr "highshelf");;
  assign highShelf "frequency" (VNum 11000);;
  assign highShelf "gain" (VNum (if isPreset pop (preset options) then 1.5 else 0.5));;
  connect chain lowShelf;;
  connect lowShelf highShelf;;
  mret highShelf.

(** 4. Soft envelope (compressor). *)
Definition softEnvelope (options : AudioProcessOptions) (chain : nat) : G nat :=
  comp ← createDynamicsCompressor;
  assign comp "threshold" (VNum (compThreshold (config options)));;
  assign comp "knee" (VNum 35);;
  assign comp "ratio" (VNum (compRatio (config options)));;
  assign comp "attack" (VNum 0.040);;
  assign comp "release" (VNum 0.250);;
  connect chain comp;;
  mret comp.

(** 5. Gain smoothing. *)
Definition gainSmoothing (options : AudioProcessOptions) (chain : nat) : G nat :=
  if enableWarmth options then
    clipper ← createWaveShaper;
    assign clipper "curve" (VCurve makeSilkCurve);;
    connect chain clipper;;
    mret clipper
  else mret chain.

(** 6. Final leveling. *)
Definition finalLeveling (options : AudioProcessOptions) (chain : nat) : G nat :=
  makeup ← createGain;
  assign makeup "gain" (VPow10 (finalGain (config options) / 20));;
  connect chain makeup;;
  limiter ← createDynamicsCompressor;
  assign limiter "threshold" (VNum (-2.0));;
  assign limiter "knee" (VNum 0);;
  assign limiter "ratio" (VNum 20);;
  assign limiter "attack" (VNum 0.001);;
  assign limiter "release" (VNum 0.15);;
  connect makeup limiter;;
  mret limiter.

(** 7. Fades. *)
Definition fades (audioBuffer : AudioBuffer.t) (options : AudioProcessOptions)
    (chain : nat) : G nat :=
  if enableFades options then
    fader ← createGain;
    schedule fader "gain" (SetValueAtTime 0 0);;
    schedule fader "gain" (LinearRampToValueAtTime 1 0.8);;
    let fadeOutStart := Qmax 0 (AudioBuffer.duration audioBuffer - 3.0) in
    schedule fader "gain" (SetValueAtTime 1 fadeOutStart);;
    schedule fader "gain" (LinearRampToValueAtTime 0 (AudioBuffer.duration audioBuffer));;
    connect chain fader;;
    mret fader
  else mret chain.

(** The graph [processAudio] builds between the context's creation and
    [startRendering()]. *)
Definition masteringGraph (audioBuffer : AudioBuffer.t) (options : AudioProcessOptions)
  : G unit :=
  '(source, chain) ← chainStart audioBuffer options;
  chain ← creativeFxLayer options chain;
  chain ← surgicalNaturalizer options chain;
  chain ← tonalShaping options chain;
  chain ← softEnvelope options chain;
  chain ← gainSmoothing options chain;
  chain ← finalLeveling options chain;
  chain ← fades audioBuffer options chain;
  connect chain destination;;
  start source.

(** [processAudio] up to [const renderedBuffer = await offlineCtx.startRendering()]. *)
Definition renderMaster (pf : Platform) (file : File) (options : AudioProcessOptions)
  : result AudioBuffer.t :=
  arrayBuffer ← arrayBuffer file;
  audioBuffer ← decodeAudioData pf arrayBuffer;
  let TARGET_SAMPLE_RATE := 48000 in
  let lengthInFrames := Qceiling (AudioBuffer.duration audioBuffer * inject_Z TARGET_SAMPLE_RATE) in
  offlineCtx ← newOfflineAudioContext 2 lengthInFrames TARGET_SAMPLE_RATE;
  let '(_, graph) := runG (masteringGraph audioBuffer options) emptyGraph in
  startRendering pf offlineCtx graph.

Definition processAudio (pf : Platform) (file : File) (options : AudioProcessOptions)
  : result Blob :=
  renderedBuffer ← renderMaster pf file options;
  match exportFormat options with
  | wav => audioBufferToWav renderedBuffer
  | mp3 => audioBufferToMp3 (codec pf) renderedBuffer
  end.

(** ** The analysis pre-processor *)

(** The low-resolution render: the source wired straight to the destination. *)
Definition analysisGraph (audioBuffer : AudioBuffer.t) : G unit :=
  source ← createBufferSource;
  assign source "buffer" (VBuffer audioBuffer);;
  connect source destination;;
  start source.

(** [optimizeAudioForAnalysis] up to its [startRendering()]. *)
Definition renderForAnalysis (pf : Platform) (originalFile : File) : result AudioBuffer.t :=
  arrayBuffer ← arrayBuffer originalFile;
  audioBuffer ← decodeAudioData pf arrayBuffer;
  let TARGET_SAMPLE_RATE := 16000 in
  let MAX_DURATION := 180%Q in
  let duration := Qmin (AudioBuffer.duration audioBuffer) MAX_DURATION in
  let lengthInFrames := Qfloor (duration * inject_Z TARGET_SAMPLE_RATE) in
  offlineCtx ← newOfflineAudioContext 1 lengthInFrames TARGET_SAMPLE_RATE;
  let '(_, graph) := runG (analysisGraph audioBuffer) emptyGraph in
  startRendering pf offlineCtx graph.

(** [s.split(sep)] for a one-character separator. *)
Fixpoint split (sep : ascii) (s : string) : list string :=
  match s with
  | EmptyString => [EmptyString]
  | String c s' =>
      if Ascii.eqb c sep then EmptyString :: split sep s'
      else match split sep s' with
           | [] => [String c EmptyString]
           | w :: ws => String c w :: ws
           end
  end.

(** The promise resolves with a string, or with [undefined] ([None]) when the
    reader's string has no comma. *)
Definition optimizeAudioForAnalysis (pf : Platform) (originalFile : File)
  : result (option string) :=
  renderedBuffer ← renderForAnalysis pf originalFile;
  wavBlob ← bufferToWavBlob renderedBuffer;
  match readAsDataURL pf wavBlob with
  | ReaderLoad (Some readerResult) => Ok (split "," readerResult !! 1%nat)
  | ReaderLoad None => Throw (Error "Failed to encode optimized audio")
  | ReaderError event => Throw event
  end.

(** ** Parameter automation

    The timeline of an [AudioParam] as the Web Audio API defines it: events
    are kept ordered by time, a new event going after those already at its
    time; a [setValueAtTime] holds its value until the next event, and a
    linear ramp interpolates from the previous event to its own end point. *)

Definition eventTime (e : AutomationEvent) : Q :=
  match e with SetValueAtTime _ t | LinearRampToValueAtTime _ t => t end.

Definition eventValue (e : AutomationEvent) : Q :=
  match e with SetValueAtTime v _ | LinearRampToValueAtTime v _ => v end.

Fixpoint insertEvent (e : AutomationEvent) (timeline : list AutomationEvent)
  : list AutomationEvent :=
  match timeline with
  | [] => [e]
  | x :: rest =>
      if Qle_bool (eventTime x) (eventTime e) then x :: insertEvent e rest
      else e :: timeline
  end.

Definition timelineOf (events : list AutomationEvent) : list AutomationEvent :=
  foldl (fun timeline e => insertEvent e timeline) [] events.

(** The value at [t], coming from value [v0] set at time [t0]. *)
Fixpoint valueFrom (v0 t0 : Q) (timeline : list AutomationEvent) (t : Q) : Q :=
  match timeline with
  | [] => v0
  | e :: rest =>
      if Qle_bool (eventTime e) t then valueFrom (eventValue e) (eventTime e) rest t
      else match e with
           | LinearRampToValueAtTime v1 t1 => v0 + (v1 - v0) * ((t - t0) / (t1 - t0))
           | SetValueAtTime _ _ => v0
           end
  end.

Definition paramEvents (n : Node) (param : string) : list AutomationEvent :=
  omap (fun '(p, e) => if String.eqb p param then Some e else None) (automation n).

Definition paramValueAtTime (defaultValue : Q) (n : Node) (param : string) (t : Q) : Q :=
  valueFrom defaultValue 0 (timelineOf (paramEvents n param)) t.

(** The node whose output reaches the destination last connected. *)
Definition finalStage (g : Graph) : option Node :=
  c ← last (filter (fun c => target c = NodeInput destination 0) (connections g));
  nodes g !! source c.

(** ** Data URLs

    What a conforming [FileReader.readAsDataURL] loads for a blob. *)

Definition base64Alphabet : string :=
  "ABCDEFGHIJKLMNOPQRSTUVWXYZabcdefghijklmnopqrstuvwxyz0123456789+/".

Definition base64Char (n : Z) : ascii :=
  default "A"%char (list_ascii_of_string base64Alphabet !! Z.to_nat n).

Fixpoint base64 (bytes : list Z) : string :=
  match bytes with
  | [] => EmptyString
  | [a] =>
      String (base64Char (a / 4)) (String (base64Char (a mod 4 * 16)) "==")
  | [a; b] =>
      String (base64Char (a / 4))
        (String (base64Char (a mod 4 * 16 + b / 16))
           (String (base64Char (b mod 16 * 4)) "="))
  | a :: b :: c :: rest =>
      String (base64Char (a / 4))
        (String (base64Char (a mod 4 * 16 + b / 16))
           (String (base64Char (b mod 16 * 4 + c / 64))
              (String (base64Char (c mod 64)) (base64 rest))))
  end.

Definition dataURL (b : Blob) : string :=
  "data:" +:+ blobType b +:+ ";base64," +:+ base64 (blobBytes b).

(** ** Closed forms

    What the encoders write, as functions of the buffer; the properties
    below show that the loops of the encoders compute them. *)

(** The sample conversion: clamp, scale, convert to a 16-bit integer. *)
Definition clamp (lo hi : Q) (sample : number) : number :=
  Math_max (Fin lo) (Math_min (Fin hi) sample).

Definition scale16 (s : number) : number :=
  if num_lt s (Fin 0) then num_mul s (Fin 32768) else num_mul s (Fin 32767).

Definition pcm16 (lo hi : Q) (sample : number) : Z :=
  ToInt16 (scale16 (clamp lo hi sample)).

(** One frame: a 16-bit little-endian sample per channel, in channel order. *)
Definition pcmFrame (lo hi : Q) (b : AudioBuffer.t) (nch : nat) (i : nat) : list Z :=
  flat_map (fun c => i16le (pcm16 lo hi (AudioBuffer.samples b c i))) (seq 0 nch).

Definition pcmData (lo hi : Q) (b : AudioBuffer.t) (nch : nat) : list Z :=
  flat_map (pcmFrame lo hi b nch) (seq 0 (AudioBuffer.frames b)).

(** The 44-byte header: RIFF/WAVE tags, format chunk, data chunk size. *)
Definition wavHeader (numChannels : nat) (sampleRate : Z) (dataBytes : nat) : list Z :=
  charCodes "RIFF" ++ u32le (Z.of_nat (36 + dataBytes)) ++ charCodes "WAVE" ++
  charCodes "fmt " ++ u32le 16 ++ u16le 1 ++ u16le (Z.of_nat numChannels) ++
  u32le sampleRate ++ u32le (sampleRate * Z.of_nat (numChannels * 2)) ++
  u16le (Z.of_nat (numChannels * 2)) ++ u16le 16 ++ charCodes "data" ++
  u32le (Z.of_nat dataBytes).

(** The file the pre-processor makes of a rendered buffer. *)
Definition analysisWav (rendered : AudioBuffer.t) : Blob :=
  mkBlob (wavHeader 1 (AudioBuffer.sampleRate rendered) (AudioBuffer.frames rendered * 2)
          ++ pcmData (-1) 1 rendered 1) "audio/wav".

(** A channel as the 16-bit integers of the MP3 adapter. *)
Definition int16Channel (b : AudioBuffer.t) (c : nat) : list Z :=
  (fun i => pcm16 (-0.95) 0.95 (AudioBuffer.samples b c i)) <$> seq 0 (AudioBuffer.frames b).

(** Two arrays cut in blocks of 1152 samples, the right one passed or not. *)
Definition blocks (l r : list Z) (rightGiven : bool) : list (list Z * option (list Z)) :=
  (fun i => (subarray l i (i + 1152),
             if rightGiven then Some (subarray r i (i + 1152)) else None))
  <$> strideIndices (length l) 1152.

(** What the adapter hands to the codec. *)
Definition mp3Blocks (b : AudioBuffer.t) : list (list Z * option (list Z)) :=
  blocks (int16Channel b 0) (int16Channel b 1)
         (bool_decide (1 < AudioBuffer.numberOfChannels b)%nat).

(** Feeding blocks through the codec, the emitted chunks concatenated. *)
Fixpoint feed (codec : Mp3Codec) (enc : Mp3Encoder codec)
    (bs : list (list Z * option (list Z))) : Mp3Encoder codec * list Z :=
  match bs with
  | [] => (enc, [])
  | (l, r) :: rest =>
      let '(enc, chunk) := encodeBuffer codec enc l r in
      let '(enc, out) := feed codec enc rest in
      (enc, chunk ++ out)
  end.

Definition encodeBlocks (codec : Mp3Codec) (b : AudioBuffer.t)
    (bs : list (list Z * option (list Z))) : Blob :=
  let '(enc, out) :=
    feed codec (newMp3Encoder codec (AudioBuffer.numberOfChannels b)
                  (AudioBuffer.sampleRate b) 320) bs in
  mkBlob (out ++ flush codec enc) "audio/mp3".

(** ** The design document, in its own words *)

(** Section 4.4 on a finite sample: clamp to [-0.95, 0.95], scale negative
    values by 32768 and the others by 32767, truncate. *)
Definition spec_pcm16 (q : Q) : Z :=
  let c := Qmax (-0.95) (Qmin 0.95 q) in
  truncate (if Qlt_bool c 0 then c * 32768 else c * 32767).

(** Section 4.4 restricted to one channel. *)
Definition spec_monoWav (b : AudioBuffer.t) : list Z :=
  wavHeader 1 (AudioBuffer.sampleRate b) (AudioBuffer.frames b * 2)
  ++ pcmData (-0.95) 0.95 b 1.

(** Section 4.1: the waveshaping transfer function. *)
Definition sign (x : R) : R :=
  if Rlt_dec x 0 then (-1)%R else if Rlt_dec 0 x then 1%R else 0%R.





(** Section 4.6: every failure of the pre-processor surfaces as one
    "optimization failed" error. *)
Definition optimizationFailed : jsError := Error "optimization failed".

Definition spec_optimizeAudioForAnalysis (pf : Platform) (originalFile : File)
  : result (option string) :=
  match optimizeAudioForAnalysis pf originalFile with
  | Ok s => Ok s
  | Throw _ => Throw optimizationFailed
  end.

(** ** Side conditions *)

(** A sample that both clamps, to [-1, 1] and to [-0.95, 0.95], leave alone. *)
Definition withinHeadroom (s : number) : Prop :=
  s = NaN ∨ ∃ q, s = Fin q ∧ (-0.95 <= q <= 0.95)%Q.


(** A string in which the character [sep] does not occur. *)
Fixpoint free (sep : ascii) (s : string) : bool :=
  match s with
  | EmptyString => true
  | String c s' => negb (Ascii.eqb c sep) && free sep s'
  end.

(** ** Concrete inputs *)

(** One frame at full scale on each of [nch] channels. *)
Definition fullScale (rate : Z) (nch : nat) : AudioBuffer.t :=
  AudioBuffer.mk rate nch 1 (fun c _ => if Nat.even c then Fin 1 else Fin (-1)).

Definition silence (rate : Z) (nch n : nat) : AudioBuffer.t :=
  AudioBuffer.mk rate nch n (fun _ _ => Fin 0).

(** The options the enhancer starts with. *)
Definition defaultOptions : AudioProcessOptions :=
  {| intensity := medium; stereoWidth := normal; enableWarmth := true;
     enableFades := true; enableNaturalizer := true; exportFormat := mp3;
     preset := Some balanced; creativeFx := mkCreativeFx 0 0 0 |}.

Definition withFormat (f : ExportFormat) (o : AudioProcessOptions) : AudioProcessOptions :=
  {| intensity := intensity o; stereoWidth := stereoWidth o;
     enableWarmth := enableWarmth o; enableFades := enableFades o;
     enableNaturalizer := enableNaturalizer o; exportFormat := f;
     preset := preset o; creativeFx := creativeFx o |}.

(** Silent mono sources at 8 kHz lasting 2 s and 10 s. *)
Definition twoSeconds : AudioBuffer.t := silence 8000 1 (Z.to_nat 16000).
Definition tenSeconds : AudioBuffer.t := silence 8000 1 (Z.to_nat 80000).

(** A platform on which every file decodes to [src], every render is silent,
    the codec emits nothing and the reader loads the data URL. *)
Definition silentCodec : Mp3Codec :=
  {| Mp3Encoder := unit;
     newMp3Encoder := fun _ _ _ => tt;
     encodeBuffer := fun _ _ _ => (tt, []);
     flush := fun _ => [] |}.

Definition platformDecoding (src : AudioBuffer.t) : Platform :=
  {| decodeAudioData := fun _ => Ok src;
     offlineRender := fun _ _ _ _ => Ok (fun _ _ => Fin 0);
     codec := silentCodec;
     readAsDataURL := fun blob => ReaderLoad (Some (dataURL blob)) |}.

(** A platform whose decoder rejects every file. *)
Definition platformUndecodable : Platform :=
  {| decodeAudioData := fun _ => Throw (DOMException "EncodingError");
     offlineRender := fun _ _ _ _ => Ok (fun _ _ => Fin 0);
     codec := silentCodec;
     readAsDataURL := fun blob => ReaderLoad (Some (dataURL blob)) |}.

Definition someFile : File :=
  {| fileName := "take.wav"; fileType := "audio/wav"; arrayBuffer := Ok [] |}.

(** Sources at 44.1 kHz: five seconds of mono, a second and one frame of
    stereo, four minutes of stereo. *)
Definition fiveSeconds : AudioBuffer.t := silence 44100 1 (Z.to_nat 220500).
Definition secondAndAFrame : AudioBuffer.t := silence 44100 2 (Z.to_nat 44101).
Definition fourMinutes : AudioBuffer.t := silence 44100 2 (Z.to_nat 10584000).

(** ** Reading a graph *)

(** A connection from an output of [a] to an input of [b]. *)
Definition edge (g : Graph) (a b : nat) : Prop :=
  ∃ out input, mkConnection a out (NodeInput b input) ∈ connections g.

(** A signal path: a chain of node-to-node connections. *)
Inductive reaches (g : Graph) : nat → nat → Prop :=
| reaches_here a : reaches g a a
| reaches_next a b c : edge g a b → reaches g b c → reaches g a c.

(** The node a connection ends in, be it an input or a parameter. *)
Definition targetNode (c : Connection) : nat :=
  match target c with
  | NodeInput node _ => node
  | Param node _ => node
  end.

(** [g'] is [g] with more nodes, connections and started sources: what was
    there is untouched, the new connections end in new nodes, and the signal
    entering at [chain] comes out at [chain']. *)
Definition extends (g g' : Graph) (chain chain' : nat) : Prop :=
  nodes g `prefix_of` nodes g' ∧
  (∃ cs, connections g' = connections g ++ cs ∧
         Forall (fun c => (length (nodes g) ≤ targetNode c < length (nodes g'))%nat) cs) ∧
  started g `prefix_of` started g' ∧
  ((chain < length (nodes g))%nat → (chain' < length (nodes g'))%nat) ∧
  reaches g' chain chain'.

(** The graph after the chain start: destination, source, input trim,
    high-pass. *)
Definition chainStartGraph (audioBuffer : AudioBuffer.t) (options : AudioProcessOptions) : Graph :=
  mkGraph
    [mkNode AudioDestinationNode [] [];
     mkNode AudioBufferSourceNode [("buffer", VBuffer audioBuffer)] [];
     mkNode GainNode [("gain", VPow10 (safetyHeadroom (config options) / 20))] [];
     mkNode BiquadFilterNode
       [("type", VStr "highpass"); ("frequency", VNum 85); ("Q", VNum 0.707)] []]
    [mkConnection 1 0 (NodeInput 2 0); mkConnection 2 0 (NodeInput 3 0)]
    [].

(** ** The enhancer's option panel ([components/AudioEnhancer.tsx]) *)

(** [{...options, field: v}] for the fields the panel writes. *)
Definition withPreset (p : option MasteringPreset) (o : AudioProcessOptions) : AudioProcessOptions :=
  {| intensity := intensity o; stereoWidth := stereoWidth o;
     enableWarmth := enableWarmth o; enableFades := enableFades o;
     enableNaturalizer := enableNaturalizer o; exportFormat := exportFormat o;
     preset := p; creativeFx := creativeFx o |}.

Definition withIntensity (i : Intensity) (o : AudioProcessOptions) : AudioProcessOptions :=
  {| intensity := i; stereoWidth := stereoWidth o;
     enableWarmth := enableWarmth o; enableFades := enableFades o;
     enableNaturalizer := enableNaturalizer o; exportFormat := exportFormat o;
     preset := preset o; creativeFx := creativeFx o |}.

Definition withStereoWidth (w : StereoWidth) (o : AudioProcessOptions) : AudioProcessOptions :=
  {| intensity := intensity o; stereoWidth := w;
     enableWarmth := enableWarmth o; enableFades := enableFades o;
     enableNaturalizer := enableNaturalizer o; exportFormat := exportFormat o;
     preset := preset o; creativeFx := creativeFx o |}.

Definition withWarmth (b : bool) (o : AudioProcessOptions) : AudioProcessOptions :=
  {| intensity := intensity o; stereoWidth := stereoWidth o;
     enableWarmth := b; enableFades := enableFades o;
     enableNaturalizer := enableNaturalizer o; exportFormat := exportFormat o;
     preset := preset o; creativeFx := creativeFx o |}.

Definition withNaturalizer (b : bool) (o : AudioProcessOptions) : AudioProcessOptions :=
  {| intensity := intensity o; stereoWidth := stereoWidth o;
     enableWarmth := enableWarmth o; enableFades := enableFades o;
     enableNaturalizer := b; exportFormat := exportFormat o;
     preset := preset o; creativeFx := creativeFx o |}.

Definition withCreativeFx (fx : CreativeFx) (o : AudioProcessOptions) : AudioProcessOptions :=
  {| intensity := intensity o; stereoWidth := stereoWidth o;
     enableWarmth := enableWarmth o; enableFades := enableFades o;
     enableNaturalizer := enableNaturalizer o; exportFormat := exportFormat o;
     preset := preset o; creativeFx := fx |}.

Definition applyPreset (options : AudioProcessOptions) (preset : MasteringPreset)
  : AudioProcessOptions :=
  let newOptions := withPreset (Some preset) options in
  let resetCreative := mkCreativeFx 0 0 0 in
  match preset with
  | pop =>
      withCreativeFx resetCreative
        (withWarmth true (withStereoWidth wide (withIntensity high newOptions)))
  | electronic =>
      withCreativeFx (mkCreativeFx 0.2 (phaser resetCreative) (flanger resetCreative))
        (withWarmth true (withStereoWidth wide (withIntensity high newOptions)))
  | rock =>
      withCreativeFx resetCreative
        (withWarmth true (withStereoWidth normal (withIntensity medium newOptions)))
  | lofi =>
      withCreativeFx (mkCreativeFx (chorus resetCreative) (phaser resetCreative) 0.3)
        (withWarmth true (withStereoWidth normal (withIntensity low newOptions)))
  | balanced =>
      withCreativeFx resetCreative
        (withWarmth true (withStereoWidth normal (withIntensity medium newOptions)))
  end.

Inductive FxType : Type := fxChorus | fxPhaser | fxFlanger.

Definition updateCreativeFx (options : AudioProcessOptions) (type : FxType) (val : Q)
  : AudioProcessOptions :=
  withCreativeFx
    (match type with
     | fxChorus => mkCreativeFx val (phaser (creativeFx options)) (flanger (creativeFx options))
     | fxPhaser => mkCreativeFx (chorus (creativeFx options)) val (flanger (creativeFx options))
     | fxFlanger => mkCreativeFx (chorus (creativeFx options)) (phaser (creativeFx options)) val
     end)
    options.

(** What the panel lets the user do to the options: the five preset
    buttons, the three sliders, the naturalizer switch, the two format
    buttons. *)
Inductive OptionEvent : Type :=
| ClickPreset (p : MasteringPreset)
| MoveSlider (type : FxType) (val : Q)
| ClickNaturalizer
| ClickFormat (f : ExportFormat).

Definition onOptionEvent (options : AudioProcessOptions) (e : OptionEvent)
  : AudioProcessOptions :=
  match e with
  | ClickPreset p => applyPreset options p
  | MoveSlider type val => updateCreativeFx options type val
  | ClickNaturalizer => withNaturalizer (negb (enableNaturalizer options)) options
  | ClickFormat f => withFormat f options
  end.

(** The sliders are [<input type="range" min="0" max="1">]. *)
Definition inRange (e : OptionEvent) : Prop :=
  match e with
  | MoveSlider _ val => (0 <= val <= 1)%Q
  | _ => True
  end.

(** ** Strings

    Texts the code inspects character by character are lists of UTF-16 code
    units; [charCodes] turns an ASCII literal into one. *)

(** [\s] of a regular expression and the characters [trim] removes: the
    white space and line terminator code points of ECMAScript. *)
Definition isWhiteSpace (c : Z) : bool :=
  bool_decide (c ∈ [9; 10; 11; 12; 13; 32; 160; 5760; 8232; 8233; 8239; 8287; 12288; 65279])
  || ((8192 <=? c) && (c <=? 8202)).

(** The length of the longest run of white space [s] starts with. *)
Fixpoint whiteSpaceRun (s : list Z) : nat :=
  match s with
  | c :: rest => if isWhiteSpace c then S (whiteSpaceRun rest) else 0%nat
  | [] => 0%nat
  end.

Fixpoint startsWithCodes (searchString s : list Z) : bool :=
  match searchString, s with
  | [], _ => true
  | a :: searchString', b :: s' => (a =? b) && startsWithCodes searchString' s'
  | _ :: _, [] => false
  end.

Definition trimStart (s : list Z) : list Z := drop (whiteSpaceRun s) s.
Definition trimEnd (s : list Z) : list Z := reverse (trimStart (reverse s)).
Definition trim (s : list Z) : list Z := trimEnd (trimStart s).

(** [s.startsWith(searchString)] and [s.includes(searchString)] on ASCII
    strings. *)
Fixpoint startsWith (searchString s : string) : bool :=
  match searchString, s with
  | EmptyString, _ => true
  | String a searchString', String b s' => Ascii.eqb a b && startsWith searchString' s'
  | String _ _, EmptyString => false
  end.

Fixpoint includes (searchString s : string) : bool :=
  startsWith searchString s ||
  match s with
  | EmptyString => false
  | String _ s' => includes searchString s'
  end.

(** ** JSON values and the runtime

    What [JSON.parse] returns and [JSON.stringify] takes. *)

#[local] Unset Elimination Schemes.
Inductive Json : Type :=
| JNull
| JBool (b : bool)
| JNumber (n : Q)
| JString (s : string)
| JArray (items : list Json)
| JObject (properties : list (string * Json)).
#[local] Set Elimination Schemes.

(** What the functions of the service send to the model. *)
Inductive Request : Type :=
| ClarificationRequest (idea : string)
| AnalysisRequest (mimeType : string) (data : option string).

(** The SDK and the browser around the application: [generateContent]
    resolves with [response.text] ([None]: [undefined]) or rejects;
    [JSON.parse] returns a value or throws; [hasRoom] tells whether
    [localStorage.setItem] accepts a text or throws for lack of room;
    [describe] is the [message] of the errors the platform makes. *)
Record Runtime : Type := {
  generateContent : Request → result (option (list Z));
  JSON_parse : list Z → result Json;
  JSON_stringify : Json → list Z;
  hasRoom : list Z → bool;
  describe : jsError → string
}.

(** [error.message]: an [Error] carries its own, an event has none. *)
Definition message (rt : Runtime) (error : jsError) : option string :=
  match error with
  | Error m => Some m
  | ProgressEvent _ => None
  | _ => Some (describe rt error)
  end.

(** [try { body } catch (e) { handler }]. *)
Definition try_catch {A} (body : result A) (handler : jsError → result A) : result A :=
  match body with
  | Ok a => Ok a
  | Throw e => handler e
  end.

(** What is left of a [try] body whose error is dropped: its value, or
    nothing when it threw. *)
Definition attempt {A} (r : result A) : option A :=
  match r with Ok a => Some a | Throw _ => None end.

(** [!jsonText]: [undefined] or the empty string. *)
Definition noText (jsonText : option (list Z)) : bool :=
  match jsonText with
  | None | Some [] => true
  | Some (_ :: _) => false
  end.

(** [!v] is [negb (truthy v)]. *)
Definition truthy (v : Json) : bool :=
  match v with
  | JNull => false
  | JBool b => b
  | JNumber n => negb (Qeq_bool n 0)
  | JString s => negb (String.eqb s EmptyString)
  | JArray _ | JObject _ => true
  end.

(** [v.name] for a value that is not [null]: [None] is [undefined]. *)
Definition getProperty (name : string) (v : Json) : option Json :=
  match v with
  | JObject properties =>
      snd <$> head (filter (fun p => String.eqb p.1 name = true) properties)
  | _ => None
  end.

(** [...v] in an array literal: the items of an array, the characters of a
    string, a [TypeError] ([None]) otherwise. *)
Definition spread (v : Json) : option (list Json) :=
  match v with
  | JArray items => Some items
  | JString s => Some ((fun c => JString (String c EmptyString)) <$> list_ascii_of_string s)
  | _ => None
  end.

(** An object literal as [JSON.stringify] sees it: a property that is
    [undefined] is left out. *)
Definition objectLiteral (properties : list (string * option Json)) : Json :=
  JObject (omap (fun p => (fun v => (p.1, v)) <$> p.2) properties).

(** ** The model service ([services/gemini.ts]) *)

(** The length of the match of [/```json\s*|\s*```/] at the start of [s], if
    it matches there: the first alternative is tried first, [\s*] is greedy,
    and giving white space back never helps the second alternative, since a
    back-tick is no white space. *)
Definition fenceAt (s : list Z) : option nat :=
  if startsWithCodes (charCodes "```json") s
  then Some (7 + whiteSpaceRun (drop 7 s))%nat
  else
    let w := whiteSpaceRun s in
    if startsWithCodes (charCodes "```") (drop w s) then Some (w + 3)%nat else None.

(** [text.replace(/```json\s*|\s*```/g, "")]: left to right, every match is
    dropped and the search goes on after it; [skip] counts the code units of
    the current match still to drop. *)
Fixpoint removeFences (skip : nat) (text : list Z) : list Z :=
  match text with
  | [] => []
  | c :: rest =>
      match skip with
      | S k => removeFences k rest
      | O =>
          match fenceAt text with
          | Some (S k) => removeFences k rest
          | _ => c :: removeFences 0 rest
          end
      end
  end.

Definition cleanJson (text : list Z) : list Z := trim (removeFences 0 text).

Record ClarificationResponse : Type := mkClarification {
  question : string;
  options : list string
}.

(** What [getClarificationQuestion] resolves with: the parsed reply of the
    model, or the object literal of its [catch]. *)
Inductive Clarification : Type :=
| Parsed (value : Json)
| Literal (value : ClarificationResponse).

Definition getClarificationQuestion (rt : Runtime) (idea : string) : result Clarification :=
  try_catch
    (jsonText ← generateContent rt (ClarificationRequest idea);
     if noText jsonText then Throw (Error "No response text")
     else value ← JSON_parse rt (cleanJson (default [] jsonText)); Ok (Parsed value))
    (fun error =>
       Ok (Literal
             {| question := "What emotional texture should the lyrics explore?";
                options := ["Melancholic Nostalgia"; "Gritty Urban Realism";
                            "Uplifting Synth-Wave"] |})).

Definition analyzeReferenceAudio (rt : Runtime) (base64Audio : option string)
    (mimeType : string) : result Json :=
  try_catch
    (jsonText ← generateContent rt (AnalysisRequest mimeType base64Audio);
     if noText jsonText then Throw (Error "Analysis returned empty response")
     else
       try_catch (JSON_parse rt (cleanJson (default [] jsonText)))
         (fun parseError =>
            Throw (Error "Failed to parse AI response. Try a clearer audio file.")))
    (fun error =>
       if default false (includes "400" <$> message rt error) then
         Throw (Error "Audio file format not supported or file too large/corrupt.")
       else if default false (includes "429" <$> message rt error) then
         Throw (Error "System is busy (Rate Limit). Please wait a moment.")
       else Throw (Error "Failed to analyze audio. Please try a shorter clip.")).

(** ** The cloner ([components/VibeCloner.tsx]) *)

(** An entry of [e.target.files]: the file and its [size]. *)
Record Selected : Type := mkSelected { selectedFile : File; size : Z }.

Record Cloner : Type := mkCloner {
  clonerFile : option Selected;
  isAnalyzing : bool;
  loadingStage : string;
  analysis : Json;
  clonerError : option string
}.

(** [handleFileChange]: the new state and the text of the alert, if any. *)
Definition clonerFileChange (s : Cloner) (files : option Selected) : Cloner * option string :=
  match files with
  | Some selected =>
      if negb (startsWith "audio/" (fileType (selectedFile selected))) then
        (s, Some "Please upload a valid audio file (MP3/WAV).")
      else if 50 * 1024 * 1024 <? size selected then
        (s, Some "File too large. Please use a clip under 50MB.")
      else
        (mkCloner (Some selected) (isAnalyzing s) (loadingStage s) JNull None, None)
  | None => (s, None)
  end.

(** [e.message || fallback]: the fallback for no message and for an empty one. *)
Definition messageOr (rt : Runtime) (e : jsError) (fallback : string) : string :=
  match message rt e with
  | Some EmptyString | None => fallback
  | Some m => m
  end.

(** [handleAnalyze], run to its end: the state when the promise settles. *)
Definition handleAnalyze (pf : Platform) (rt : Runtime) (s : Cloner) : Cloner :=
  match clonerFile s with
  | None => s
  | Some file =>
      match (base64 ← optimizeAudioForAnalysis pf (selectedFile file);
             analyzeReferenceAudio rt base64 "audio/wav") with
      | Ok result => mkCloner (clonerFile s) false "" result None
      | Throw e =>
          mkCloner (clonerFile s) false "" (analysis s)
            (Some (messageOr rt e "Failed to analyze audio. The model might be busy."))
      end
  end.

(** What the user can do in the cloner. *)
Inductive ClonerEvent : Type :=
| ChooseFiles (files : option Selected)
| ClickAnalyze
| ClickRemove
| ClickAnalyzeAnother.

Definition onClonerEvent (pf : Platform) (rt : Runtime) (s : Cloner) (e : ClonerEvent)
  : Cloner :=
  match e with
  | ChooseFiles files => (clonerFileChange s files).1
  | ClickAnalyze => handleAnalyze pf rt s
  | ClickRemove => mkCloner None (isAnalyzing s) (loadingStage s) (analysis s) (clonerError s)
  | ClickAnalyzeAnother => mkCloner None (isAnalyzing s) (loadingStage s) JNull (clonerError s)
  end.

Definition initialCloner : Cloner := mkCloner None false "" JNull None.

(** ** The enhancer ([components/AudioEnhancer.tsx]) *)

(** Does [/\.[^/.]+$/] match at the start of [s]: a dot, then at least one
    character, none of them a slash or a dot, up to the end. *)
Definition extensionAt (s : string) : bool :=
  match s with
  | String "." rest =>
      negb (String.eqb rest EmptyString) && free "/" rest && free "." rest
  | _ => false
  end.

(** [name.replace(/\.[^/.]+$/, "")]: the leftmost match is dropped. *)
Fixpoint removeExtension (name : string) : string :=
  match name with
  | EmptyString => EmptyString
  | String c rest => if extensionAt name then EmptyString else String c (removeExtension rest)
  end.

Definition formatName (f : ExportFormat) : string :=
  match f with mp3 => "mp3" | wav => "wav" end.

Record Enhancer : Type := mkEnhancer {
  enhancerFile : option File;
  isProcessing : bool;
  processedBlob : option Blob;
  enhancerOptions : AudioProcessOptions
}.

(** [handleFileChange]: the new state and the text of the alert, if any. *)
Definition enhancerFileChange (s : Enhancer) (files : option File) : Enhancer * option string :=
  match files with
  | Some selectedFile =>
      if negb (startsWith "audio/" (fileType selectedFile)) then
        (s, Some "Please upload a valid audio file.")
      else
        (mkEnhancer (Some selectedFile) (isProcessing s) None (enhancerOptions s), None)
  | None => (s, None)
  end.


(** [handleDownload]: the [download] attribute of the link that is clicked,
    [None] when there is nothing to download. *)
Definition handleDownload (s : Enhancer) : option string :=
  match processedBlob s with
  | None => None
  | Some _ =>
      let ext := formatName (exportFormat (enhancerOptions s)) in
      Some ("AfriSuno_Enhanced_" +:+
            match enhancerFile s with
            | Some file => removeExtension (fileName file)
            | None => "undefined"
            end +:+ "." +:+ ext)
  end.

(** ** The generator and the saved vibes ([App.tsx], [components/VibeLibrary.tsx])

    The state of [App] the handlers below read and write; [songIdea] is
    [None] when it is [undefined].  The browser keeps one text under the key
    ['afriSunoVibes']. *)

Inductive AppStep : Type := initial | clarifying | generating | results.
Inductive ViewMode : Type := generator | cloner | enhancer | library.

Record App : Type := mkApp {
  view : ViewMode;
  step : AppStep;
  songIdea : option Json;
  clarificationData : option Clarification;
  generatedContent : Json;
  isLoading : bool;
  appError : option string;
  isSaved : bool
}.

(** [handleInitialSubmit], run to its end.  Where [songIdea] is no string,
    [songIdea.trim()] throws and nothing is set. *)
Definition handleInitialSubmit (rt : Runtime) (s : App) : App :=
  match songIdea s with
  | Some (JString idea) =>
      if bool_decide (trim (charCodes idea) = []) then s
      else
        match getClarificationQuestion rt idea with
        | Ok data =>
            mkApp (view s) clarifying (songIdea s) (Some data) (generatedContent s)
              false None (isSaved s)
        | Throw e =>
            mkApp (view s) (step s) (songIdea s) (clarificationData s) (generatedContent s)
              false (Some "Something went wrong connecting to the AI. Please try again.")
              (isSaved s)
        end
  | _ => s
  end.

(** [handleSaveVibe], with the identifier [crypto.randomUUID()] returns and
    the time [Date.now()] returns: the new state and the stored text. *)
Definition handleSaveVibe (rt : Runtime) (id : string) (timestamp : Z)
    (stored : option (list Z)) (s : App) : App * option (list Z) :=
  if negb (truthy (generatedContent s)) then (s, stored)
  else
    let existingVibes : option Json :=
      match stored with
      | Some (c :: existingVibesStr) => attempt (JSON_parse rt (c :: existingVibesStr))
      | _ => Some (JArray [])
      end in
    let newVibe :=
      objectLiteral
        [("id", Some (JString id));
         ("timestamp", Some (JNumber (inject_Z timestamp)));
         ("idea", songIdea s);
         ("lyrics", getProperty "lyrics" (generatedContent s));
         ("stylePrompt", getProperty "stylePrompt" (generatedContent s));
         ("linguisticAnalysis", getProperty "linguisticAnalysis" (generatedContent s))] in
    let written : option (list Z) :=
      existingVibes ← existingVibes;
      items ← spread existingVibes;
      let updatedVibes := JArray (newVibe :: items) in
      let text := JSON_stringify rt updatedVibes in
      if hasRoom rt text then Some text else None in
    match written with
    | Some text =>
        (mkApp (view s) (step s) (songIdea s) (clarificationData s) (generatedContent s)
           (isLoading s) (appError s) true, Some text)
    | None =>
        (mkApp (view s) (step s) (songIdea s) (clarificationData s) (generatedContent s)
           (isLoading s) (Some "Failed to save to local storage.") (isSaved s), stored)
    end.

(** [handleLoadVibe]: what the handler sets; reading a property off [null]
    throws ([None]). *)
Definition handleLoadVibe (vibe : Json) (s : App) : option App :=
  match vibe with
  | JNull => None
  | _ =>
      Some (mkApp generator results (getProperty "idea" vibe) (clarificationData s)
              (objectLiteral
                 [("lyrics", getProperty "lyrics" vibe);
                  ("stylePrompt", getProperty "stylePrompt" vibe);
                  ("linguisticAnalysis", getProperty "linguisticAnalysis" vibe)])
              (isLoading s) (appError s) true)
  end.

(** The library's [vibes] after its mount effect. *)
Definition libraryMount (rt : Runtime) (stored : option (list Z)) : Json :=
  match stored with
  | Some (c :: saved) =>
      match JSON_parse rt (c :: saved) with
      | Ok vibes => vibes
      | Throw _ => JArray []
      end
  | _ => JArray []
  end.

(** [v.id === id] for a value that is not [null] and a string [id]. *)
Definition hasId (id : string) (v : Json) : bool :=
  match getProperty "id" v with
  | Some (JString s) => String.eqb s id
  | _ => false
  end.

(** [v.id !== id]; reading [id] off [null] throws. *)
Definition otherThan (id : string) (v : Json) : option bool :=
  match v with
  | JNull => None
  | _ => Some (negb (hasId id v))
  end.

(** [vibes.filter(v => v.id !== id)]. *)
Fixpoint filterOthers (id : string) (items : list Json) : option (list Json) :=
  match items with
  | [] => Some []
  | v :: rest =>
      match otherThan id v, filterOthers id rest with
      | Some keep, Some others => Some (if keep then v :: others else others)
      | _, _ => None
      end
  end.

(** [handleDelete] for a string [id]: the library's [vibes] and the stored
    text afterwards, and whether the handler threw. *)
Definition handleDelete (rt : Runtime) (id : string) (stored : option (list Z))
    (vibes : Json) : Json * option (list Z) * bool :=
  match vibes with
  | JArray items =>
      match filterOthers id items with
      | Some updated =>
          let text := JSON_stringify rt (JArray updated) in
          if hasRoom rt text then (JArray updated, Some text, false)
          else (JArray updated, stored, true)
      | None => (vibes, stored, true)
      end
  | _ => (vibes, stored, true)
  end.

(** ** The waveform preview ([WaveformPreview] in [components/AudioEnhancer.tsx]) *)

Definition num_add (x y : number) : number :=
  match x, y with
  | NaN, _ | _, NaN => NaN
  | Fin a, Fin b => Fin (a + b)
  | Inf n, Fin _ | Fin _, Inf n => Inf n
  | Inf n, Inf m => if Bool.eqb n m then Inf n else NaN
  end.

(** The inner loop: the least and the greatest sample of column [i], from 1
    and -1; an index past the end reads [undefined], which compares as
    [NaN]. *)
Definition scanColumn (channelData : list number) (step i : nat) : number * number :=
  foldl (fun '(min, max) j =>
           let datum := at_index channelData (i * step + j) in
           let min := if num_lt datum min then datum else min in
           let max := if num_lt max datum then datum else max in
           (min, max))
        (Fin 1.0, Fin (-1.0)) (seq 0 step).

Inductive PathOp : Type :=
| MoveTo (x : nat) (y : number)
| LineTo (x : nat) (y : number).

(** The path [draw] strokes on a canvas of the given size, once the file is
    decoded. *)
Definition drawWaveform (channelData : list number) (width : nat) (height : Q)
  : list PathOp :=
  let step := ((length channelData + width - 1) / width)%nat in   (* Math.ceil(length / width) *)
  let amp := (height / 2)%Q in
  MoveTo 0 (Fin amp) ::
  flat_map (fun i =>
              let '(min, max) := scanColumn channelData step i in
              [LineTo i (num_mul (num_add (Fin 1) min) (Fin amp));
               LineTo i (num_mul (num_add (Fin 1) max) (Fin amp))])
           (seq 0 width).

(** ** Side conditions and inputs of the properties below *)

(** A text of white space only. *)
Definition blank (s : list Z) : Prop := Forall (fun c => isWhiteSpace c = true) s.

(** A text that holds no back-tick and neither starts nor ends with white
    space, as a JSON document does. *)
Definition compact (s : list Z) : Prop :=
  (96 ∉ s) ∧
  (∃ c rest, s = c :: rest ∧ isWhiteSpace c = false) ∧
  (∃ init c, s = init ++ [c] ∧ isWhiteSpace c = false).

(** Once a sample is below 1 the least one stays below 1; once one is
    above -1 the greatest one stays above -1. *)
Definition marked (extent : number * number) : Prop :=
  (extent.1 = Inf true ∨ ∃ m, extent.1 = Fin m ∧ (m < 1)%Q) ∨
  (extent.2 = Inf false ∨ ∃ m, extent.2 = Fin m ∧ (-1 < m)%Q).

(** The stored text reads as the array [items]; no text, or an empty one,
    reads as the empty array. *)
Definition holds (rt : Runtime) (stored : option (list Z)) (items : list Json) : Prop :=
  match stored with
  | Some (c :: text) => JSON_parse rt (c :: text) = Ok (JArray items)
  | _ => items = []
  end.

(** The entry [handleSaveVibe] makes. *)
Definition savedVibe (id : string) (timestamp : Z) (s : App) : Json :=
  objectLiteral
    [("id", Some (JString id));
     ("timestamp", Some (JNumber (inject_Z timestamp)));
     ("idea", songIdea s);
     ("lyrics", getProperty "lyrics" (generatedContent s));
     ("stylePrompt", getProperty "stylePrompt" (generatedContent s));
     ("linguisticAnalysis", getProperty "linguisticAnalysis" (generatedContent s))].

(** A runtime whose model never answers, which writes one fixed text and
    reads one fixed value. *)
Definition fixedRuntime (text : list Z) (value : Json) : Runtime :=
  {| generateContent := fun _ => Ok None;
     JSON_parse := fun _ => Ok value;
     JSON_stringify := fun _ => text;
     hasRoom := fun _ => true;
     describe := fun _ => EmptyString |}.

(** The generator as it starts, and with an idea and a generated content. *)
Definition initialApp : App :=
  mkApp generator initial (Some (JString EmptyString)) None JNull false None false.

Definition appWith (idea : string) (content : Json) : App :=
  mkApp generator results (Some (JString idea)) None content false None false.

(** * Properties *)

(** ** The result monad and the byte buffer *)

Lemma bind_Ok {A B} (a : A) (f : A → result B) : (Ok a ≫= f) = f a.
Proof. reflexivity. Qed.

Lemma setBytes_ok off bs view :
  (off + length bs ≤ length view)%nat →
  setBytes off bs view = Ok (list_inserts off bs view).
Proof. intros H. unfold setBytes. by rewrite decide_True. Qed.

Lemma setBytes_splice pre old post bs :
  length old = length bs →
  setBytes (length pre) bs (pre ++ old ++ post) = Ok (pre ++ bs ++ post).
Proof.
  intros H. rewrite setBytes_ok by (rewrite !length_app; lia).
  f_equal. rewrite <- (Nat.add_0_r (length pre)).
  rewrite list_inserts_app_r. f_equal. by apply list_inserts_0_r.
Qed.

Lemma u16le_length v : length (u16le v) = 2%nat.
Proof. reflexivity. Qed.
Lemma u32le_length v : length (u32le v) = 4%nat.
Proof. reflexivity. Qed.

Lemma header_written {A} nch rate n (rest : list Z) (k : list Z → result A) :
  (view ← writeString 0 "RIFF" (replicate 44 0 ++ rest);
   view ← setUint32 4 (Z.of_nat (36 + n)) view;
   view ← writeString 8 "WAVE" view;
   view ← writeString 12 "fmt " view;
   view ← setUint32 16 16 view;
   view ← setUint16 20 1 view;
   view ← setUint16 22 (Z.of_nat nch) view;
   view ← setUint32 24 rate view;
   view ← setUint32 28 (rate * Z.of_nat (nch * 2)) view;
   view ← setUint16 32 (Z.of_nat (nch * 2)) view;
   view ← setUint16 34 16 view;
   view ← writeString 36 "data" view;
   view ← setUint32 40 (Z.of_nat n) view;
   k view) = k (wavHeader nch rate n ++ rest).
Proof.
  unfold writeString, for_lt, setUint8, setUint16, setUint32.
  cbn [String.length seq forEach charCodes lookup list_lookup].
  repeat first [ rewrite bind_Ok
    | rewrite setBytes_ok by (rewrite ?length_inserts, length_app, length_replicate; cbn; lia) ].
  reflexivity.
Qed.

Lemma sample_read (b : AudioBuffer.t) c i :
  (c < AudioBuffer.numberOfChannels b)%nat → (i < AudioBuffer.frames b)%nat →
  (channelData ← AudioBuffer.getChannelData b c; Ok (at_index channelData i))
  = Ok (AudioBuffer.samples b c i).
Proof.
  intros Hc Hi. unfold AudioBuffer.getChannelData. rewrite decide_True by done.
  rewrite bind_Ok. unfold at_index.
  rewrite list_lookup_fmap, lookup_seq_lt by done. reflexivity.
Qed.

Lemma getChannelData_ok (b : AudioBuffer.t) c :
  (c < AudioBuffer.numberOfChannels b)%nat →
  AudioBuffer.getChannelData b c = Ok (AudioBuffer.samples b c <$> seq 0 (AudioBuffer.frames b)).
Proof. intros Hc. unfold AudioBuffer.getChannelData. by rewrite decide_True. Qed.

Lemma at_index_channel (b : AudioBuffer.t) c i :
  (i < AudioBuffer.frames b)%nat →
  at_index (AudioBuffer.samples b c <$> seq 0 (AudioBuffer.frames b)) i = AudioBuffer.samples b c i.
Proof.
  intros Hi. unfold at_index. by rewrite list_lookup_fmap, lookup_seq_lt.
Qed.

Lemma i16le_length v : length (i16le v) = 2%nat.
Proof. reflexivity. Qed.

(** A loop whose iterations each overwrite the next [w] bytes. *)
Lemma forEach_splice (w : nat) (enc : nat → list Z)
    (body : nat → list Z * nat → result (list Z * nat)) (P : nat → Prop) :
  (∀ i, P i → length (enc i) = w) →
  (∀ i pre old post, P i → length old = w →
     body i (pre ++ old ++ post, length pre) = Ok (pre ++ enc i ++ post, (length pre + w)%nat)) →
  ∀ idxs pre old post,
    Forall P idxs → length old = (length idxs * w)%nat →
    forEach body idxs (pre ++ old ++ post, length pre)
    = Ok (pre ++ flat_map enc idxs ++ post, (length pre + length idxs * w)%nat).
Proof.
  intros Henc Hbody idxs. induction idxs as [|i idxs IH]; intros pre old post HP Hlen.
  - destruct old; [|simpl in Hlen; lia]. simpl. repeat f_equal. lia.
  - inversion HP as [|? ? Hi HP']; subst.
    cbn [forEach flat_map].
    rewrite <- (take_drop w old), <- app_assoc.
    rewrite Hbody; [|done|rewrite length_take; simpl in Hlen; lia].
    rewrite bind_Ok.
    specialize (IH (pre ++ enc i) (drop w old) post HP').
    rewrite length_app, Henc, <- !app_assoc in IH by done.
    rewrite IH by (rewrite length_drop; simpl in Hlen; lia).
    rewrite <- app_assoc. do 2 f_equal. simpl. lia.
Qed.


Lemma replicate_add {A} (n m : nat) (x : A) : replicate (n + m) x = replicate n x ++ replicate m x.
Proof. induction n; simpl; congruence. Qed.

Lemma Forall_seq_lt n : Forall (fun i => i < n)%nat (seq 0 n).
Proof. apply Forall_forall. intros i Hi. apply elem_of_seq in Hi. lia. Qed.

Lemma pcmFrame_length lo hi b nch i : length (pcmFrame lo hi b nch i) = (nch * 2)%nat.
Proof.
  unfold pcmFrame. rewrite (flat_map_constant_length (c:=2)) by done.
  by rewrite length_seq.
Qed.

Lemma pcmData_length lo hi b nch :
  length (pcmData lo hi b nch) = (AudioBuffer.frames b * nch * 2)%nat.
Proof.
  unfold pcmData. rewrite (flat_map_constant_length (c:=nch * 2)).
  - rewrite length_seq. lia.
  - intros. apply pcmFrame_length.
Qed.

Lemma audioBufferToWav_bytes (b : AudioBuffer.t) :
  (1 ≤ AudioBuffer.numberOfChannels b)%nat →
  audioBufferToWav b =
  Ok (mkBlob (wavHeader (AudioBuffer.numberOfChannels b) (AudioBuffer.sampleRate b)
                (AudioBuffer.frames b * AudioBuffer.numberOfChannels b * 2)
              ++ pcmData (-0.95) 0.95 b (AudioBuffer.numberOfChannels b)) "audio/wav").
Proof.
  intros Hch. unfold audioBufferToWav.
  rewrite getChannelData_ok by lia. rewrite bind_Ok.
  rewrite length_fmap, length_seq.
  change (Z.to_nat (16 / 8)) with 2%nat.
  set (nch := AudioBuffer.numberOfChannels b). set (n := AudioBuffer.frames b).
  rewrite replicate_add, header_written.
  unfold for_lt.
  rewrite <- (app_nil_r (replicate _ _)).
  change 44%nat with (length (wavHeader nch (AudioBuffer.sampleRate b) (n * nch * 2))).
  rewrite (forEach_splice (nch * 2) (pcmFrame (-0.95) 0.95 b nch) _ (fun i => i < n)%nat).
  - rewrite bind_Ok. by rewrite app_nil_r.
  - intros. apply pcmFrame_length.
  - intros i pre old post Hi Hold.
    rewrite (forEach_splice 2 (fun c => i16le (pcm16 (-0.95) 0.95 (AudioBuffer.samples b c i))) _
               (fun c => c < nch)%nat).
    + rewrite length_seq. reflexivity.
    + done.
    + intros c pre' old' post' Hc Hold'.
      rewrite getChannelData_ok by done. rewrite bind_Ok.
      rewrite at_index_channel by done.
      unfold setInt16. rewrite setBytes_splice by done. reflexivity.
    + apply Forall_seq_lt.
    + rewrite length_seq. lia.
  - apply Forall_seq_lt.
  - rewrite length_replicate, length_seq. lia.
Qed.

Lemma bufferToWavBlob_bytes (b : AudioBuffer.t) :
  (1 ≤ AudioBuffer.numberOfChannels b)%nat →
  bufferToWavBlob b =
  Ok (mkBlob (wavHeader 1 (AudioBuffer.sampleRate b) (AudioBuffer.frames b * 2)
              ++ pcmData (-1) 1 b 1) "audio/wav").
Proof.
  intros Hch. unfold bufferToWavBlob.
  rewrite getChannelData_ok by lia. rewrite bind_Ok.
  rewrite length_fmap, length_seq.
  change (Z.to_nat (16 / 8)) with 2%nat.
  set (n := AudioBuffer.frames b).
  rewrite replicate_add, header_written.
  unfold for_lt.
  rewrite <- (app_nil_r (replicate _ _)).
  change 44%nat with (length (wavHeader 1 (AudioBuffer.sampleRate b) (n * 2))).
  rewrite (forEach_splice 2 (pcmFrame (-1) 1 b 1) _ (fun i => i < n)%nat).
  - rewrite bind_Ok. by rewrite app_nil_r.
  - intros. apply pcmFrame_length.
  - intros i pre old post Hi Hold.
    rewrite at_index_channel by done.
    unfold setInt16. rewrite setBytes_splice by done.
    reflexivity.
  - apply Forall_seq_lt.
  - rewrite length_replicate, length_seq. lia.
Qed.

(** ** The sample conversion *)

Lemma Qlt_bool_true a b : Qlt_bool a b = true ↔ (a < b)%Q.
Proof.
  unfold Qlt_bool. rewrite negb_true_iff. split.
  - intros H. apply Qnot_le_lt. intros Hle. apply Qle_bool_iff in Hle. congruence.
  - intros H. destruct (Qle_bool b a) eqn:E; [|done].
    apply Qle_bool_iff in E. exfalso. eapply Qlt_not_le; eauto.
Qed.

Lemma Qlt_bool_false a b : Qlt_bool a b = false ↔ (b <= a)%Q.
Proof.
  unfold Qlt_bool. rewrite negb_false_iff. apply Qle_bool_iff.
Qed.

Lemma truncate_nonneg q : (0 <= q)%Q → truncate q = Qfloor q.
Proof.
  destruct q as [n d]. unfold Qle, truncate, Qfloor. simpl. intros H.
  apply Z.quot_div_nonneg; lia.
Qed.

Lemma truncate_nonpos q : (q <= 0)%Q → truncate q = Qceiling q.
Proof.
  destruct q as [n d]. unfold Qle, truncate, Qceiling, Qfloor. simpl. intros H.
  rewrite <- (Z.opp_involutive n) at 1. rewrite Z.quot_opp_l by lia.
  f_equal. apply Z.quot_div_nonneg; lia.
Qed.

Lemma truncate_comp p q : (p == q)%Q → truncate p = truncate q.
Proof.
  intros H. destruct (Qlt_le_dec p 0) as [Hp|Hp].
  - rewrite !truncate_nonpos; [by rewrite H| rewrite <- H; by apply Qlt_le_weak | by apply Qlt_le_weak].
  - rewrite !truncate_nonneg; [by rewrite H| by rewrite <- H | done].
Qed.

(** Truncation keeps an integer bound on either side of zero. *)
Lemma truncate_bounds (lo hi : Z) q :
  lo ≤ 0 ≤ hi → (inject_Z lo - 1 < q)%Q → (q < inject_Z hi + 1)%Q →
  lo ≤ truncate q ≤ hi.
Proof.
  intros Hz Hlo Hhi. destruct (Qlt_le_dec q 0) as [Hq|Hq].
  - rewrite truncate_nonpos by (by apply Qlt_le_weak).
    split.
    + assert (lo - 1 < Qceiling q); [|lia].
      apply Qlt_not_le in Hlo. apply Z.lt_nge. intros Hc. apply Hlo.
      eapply Qle_trans; [apply Qle_ceiling|].
      rewrite <- inject_Z_opp || idtac.
      change (inject_Z lo - 1)%Q with (inject_Z lo + - inject_Z 1)%Q.
      rewrite <- inject_Z_opp, <- inject_Z_plus. rewrite <- Zle_Qle. lia.
    + assert (Qceiling q ≤ 0); [|lia].
      change 0 with (Qceiling 0). apply Qceiling_resp_le. by apply Qlt_le_weak.
  - rewrite truncate_nonneg by done. split.
    + assert (0 ≤ Qfloor q); [|lia].
      change 0 with (Qfloor 0). by apply Qfloor_resp_le.
    + assert (Qfloor q < hi + 1); [|lia].
      apply Z.lt_nge. intros Hc. apply Qlt_not_le in Hhi. apply Hhi.
      eapply Qle_trans; [|apply Qfloor_le].
      change (inject_Z hi + 1)%Q with (inject_Z hi + inject_Z 1)%Q.
      rewrite <- inject_Z_plus, <- Zle_Qle. lia.
Qed.

Lemma wrapSigned16_id v : -32768 ≤ v < 32768 → wrapSigned 16 v = v.
Proof.
  intros H. unfold wrapSigned. cbv zeta.
  change (2 ^ 16) with 65536. change (2 ^ (16 - 1)) with 32768.
  destruct (Z_lt_le_dec v 0).
  - replace (v mod 65536) with (v + 65536).
    + rewrite (proj2 (Z.leb_le _ _)); lia.
    + apply (Z.mod_unique _ _ (-1)); lia.
  - rewrite Z.mod_small by lia. rewrite (proj2 (Z.leb_gt _ _)); lia.
Qed.

Lemma clamp_Fin lo hi q : clamp lo hi (Fin q) = Fin (Qmax lo (Qmin hi q)).
Proof.
  unfold clamp, Math_min, Math_max, num_lt, Qmax, Qmin, GenericMinMax.gmax, GenericMinMax.gmin.
  destruct (Qcompare_spec hi q) as [He|Hl|Hg].
  - rewrite (proj2 (Qlt_bool_false q hi)) by (rewrite He; apply Qle_refl).
    destruct (Qcompare_spec lo hi) as [He'|Hl'|Hg'].
    + by rewrite (proj2 (Qlt_bool_false lo hi)) by (rewrite He'; apply Qle_refl).
    + by rewrite (proj2 (Qlt_bool_true lo hi)).
    + by rewrite (proj2 (Qlt_bool_false lo hi)) by (by apply Qlt_le_weak).
  - rewrite (proj2 (Qlt_bool_false q hi)) by (by apply Qlt_le_weak).
    destruct (Qcompare_spec lo hi) as [He'|Hl'|Hg'].
    + by rewrite (proj2 (Qlt_bool_false lo hi)) by (rewrite He'; apply Qle_refl).
    + by rewrite (proj2 (Qlt_bool_true lo hi)).
    + by rewrite (proj2 (Qlt_bool_false lo hi)) by (by apply Qlt_le_weak).
  - rewrite (proj2 (Qlt_bool_true q hi)) by done.
    destruct (Qcompare_spec lo q) as [He'|Hl'|Hg'].
    + by rewrite (proj2 (Qlt_bool_false lo q)) by (rewrite He'; apply Qle_refl).
    + by rewrite (proj2 (Qlt_bool_true lo q)).
    + by rewrite (proj2 (Qlt_bool_false lo q)) by (by apply Qlt_le_weak).
Qed.

Lemma Qclamp_bounds lo hi q : (lo <= hi)%Q → (lo <= Qmax lo (Qmin hi q) <= hi)%Q.
Proof.
  intros H. split.
  - apply Q.le_max_l.
  - apply Q.max_lub; [done|apply Q.le_min_l].
Qed.

(** The conversion of a clamped sample stays inside the 16-bit range, so
    [ToInt16] does not wrap. *)
Lemma scaled_bounds c :
  (-0.95 <= c <= 0.95)%Q →
  -31129 ≤ truncate (if Qlt_bool c 0 then c * 32768 else c * 32767) ≤ 31128.
Proof.
  intros [Hlo Hhi]. destruct (Qlt_bool c 0) eqn:E.
  - apply Qlt_bool_true in E.
    assert (-31129 ≤ truncate (c * 32768) ≤ 0); [|lia].
    apply truncate_bounds; [lia| |]; unfold inject_Z; lra.
  - apply Qlt_bool_false in E.
    assert (0 ≤ truncate (c * 32767) ≤ 31128); [|lia].
    apply truncate_bounds; [lia| |]; unfold inject_Z; lra.
Qed.

Lemma pcm16_Fin q : pcm16 (-0.95) 0.95 (Fin q) = spec_pcm16 q.
Proof.
  unfold pcm16, spec_pcm16. rewrite clamp_Fin. cbv zeta.
  pose proof (Qclamp_bounds (-0.95) 0.95 q ltac:(lra)) as Hc.
  pose proof (scaled_bounds _ Hc) as Hs.
  set (c := Qmax (-0.95) (Qmin 0.95 q)) in *.
  unfold scale16, num_lt. destruct (Qlt_bool c 0); cbn [num_mul ToInt16];
    apply wrapSigned16_id; lia.
Qed.

Lemma pcm16_range s : -31129 ≤ pcm16 (-0.95) 0.95 s ≤ 31128.
Proof.
  destruct s as [|[]|q]; [by vm_compute..|].
  rewrite pcm16_Fin. apply scaled_bounds, Qclamp_bounds. lra.
Qed.

(** ** Reading the container back *)

Lemma flat_map_block {A} (f : nat → list A) (w : nat) :
  (∀ i, length (f i) = w) →
  ∀ k n s, (k < n)%nat →
    take w (drop (k * w) (flat_map f (seq s n))) = f (s + k)%nat.
Proof.
  intros Hw. induction k as [|k IH]; intros n s Hk.
  - destruct n; [lia|]. cbn [seq flat_map Nat.mul]. rewrite drop_0.
    rewrite Nat.add_0_r. rewrite take_app_length'; auto.
  - destruct n; [lia|]. cbn [seq flat_map Nat.mul].
    rewrite drop_app_add'; [|auto].
    rewrite IH by lia. f_equal. lia.
Qed.

Lemma take_drop_inside {A} (l : list A) (a m c w : nat) :
  (c + w ≤ m)%nat →
  take w (drop c (take m (drop a l))) = take w (drop (a + c) l).
Proof.
  intros H. rewrite !take_drop_commute, take_take, drop_drop.
  rewrite Nat.min_l by lia. do 2 f_equal. lia.
Qed.

Lemma pcmData_sample lo hi b nch i c :
  (i < AudioBuffer.frames b)%nat → (c < nch)%nat →
  take 2 (drop (2 * (i * nch + c)) (pcmData lo hi b nch))
  = i16le (pcm16 lo hi (AudioBuffer.samples b c i)).
Proof.
  intros Hi Hc.
  replace (2 * (i * nch + c))%nat with (i * (nch * 2) + c * 2)%nat by lia.
  rewrite <- (take_drop_inside _ _ (nch * 2)) by lia.
  unfold pcmData. rewrite (flat_map_block _ (nch * 2)); [|apply pcmFrame_length|done].
  unfold pcmFrame. by rewrite (flat_map_block _ 2).
Qed.

Lemma getUint16_u16le v rest : getUint16 0 (u16le v ++ rest) = Some (v mod 2 ^ 16).
Proof.
  unfold getUint16, u16le. cbn [drop take app]. f_equal.
  pose proof (Z.div_mod (v mod 2 ^ 16) 256 ltac:(lia)). lia.
Qed.

Lemma getInt16_take (off : nat) (l : list Z) v :
  take 2 (drop off l) = i16le v → -32768 ≤ v < 32768 → getInt16 off l = Some v.
Proof.
  intros H Hv. unfold getInt16, getUint16. rewrite H. unfold i16le, u16le. cbn [fmap option_fmap option_map].
  f_equal. rewrite <- (wrapSigned16_id v Hv) at 3.
  unfold wrapSigned. cbv zeta.
  replace ((v mod 2 ^ 16) mod 256 + 256 * (v mod 2 ^ 16 / 256)) with (v mod 2 ^ 16).
  - by rewrite Z.mod_mod by lia.
  - pose proof (Z.div_mod (v mod 2 ^ 16) 256 ltac:(lia)). lia.
Qed.

Lemma wavHeader_length nch rate n : length (wavHeader nch rate n) = 44%nat.
Proof. reflexivity. Qed.

(** ** The PCM container encoder *)

(** C2. For every buffer (with at least one channel, as every [AudioBuffer]
    has), the encoder returns a file in which the 16-bit value at frame [i],
    channel [c] is the sample clamped to [-0.95, 0.95], scaled by 32768 when
    negative and by 32767 otherwise, and truncated; that value lies between
    -0.95 * 32768 and 0.95 * 32767, whatever the sample (full scale, infinite
    or [NaN]), so neither 32767 nor -32768 is ever emitted. *)
Theorem audioBufferToWav_samples_clamped (b : AudioBuffer.t) :
  (1 ≤ AudioBuffer.numberOfChannels b)%nat →
  ∃ blob, audioBufferToWav b = Ok blob ∧
    ∀ i c, (i < AudioBuffer.frames b)%nat → (c < AudioBuffer.numberOfChannels b)%nat →
      ∃ v,
        getInt16 (44 + 2 * (i * AudioBuffer.numberOfChannels b + c)) (blobBytes blob) = Some v ∧
        v = pcm16 (-0.95) 0.95 (AudioBuffer.samples b c i) ∧
        (∀ q, AudioBuffer.samples b c i = Fin q → v = spec_pcm16 q) ∧
        (- (0.95 * 32768) <= inject_Z v <= 0.95 * 32767)%Q ∧
        v ≠ 32767 ∧ v ≠ -32768.
Proof.
  intros Hch. eexists. split; [by apply audioBufferToWav_bytes|].
  intros i c Hi Hc. cbn [blobBytes].
  pose proof (pcm16_range (AudioBuffer.samples b c i)) as Hr.
  exists (pcm16 (-0.95) 0.95 (AudioBuffer.samples b c i)). repeat split.
  - apply getInt16_take; [|lia].
    rewrite <- (wavHeader_length (AudioBuffer.numberOfChannels b) (AudioBuffer.sampleRate b)
                  (AudioBuffer.frames b * AudioBuffer.numberOfChannels b * 2)) at 1.
    rewrite drop_app_add'; [|done]. by apply pcmData_sample.
  - intros q Hq. rewrite Hq. apply pcm16_Fin.
  - unfold Qle, inject_Z. simpl. lia.
  - unfold Qle, inject_Z. simpl. lia.
  - lia.
  - lia.
Qed.

Lemma audioBufferToWav_samples_clamped_witness :
  ∃ blob, audioBufferToWav (fullScale 48000 2) = Ok blob ∧
    ∀ i c, (i < 1)%nat → (c < 2)%nat →
      ∃ v,
        getInt16 (44 + 2 * (i * 2 + c)) (blobBytes blob) = Some v ∧
        v = pcm16 (-0.95) 0.95 (AudioBuffer.samples (fullScale 48000 2) c i) ∧
        (∀ q, AudioBuffer.samples (fullScale 48000 2) c i = Fin q → v = spec_pcm16 q) ∧
        (- (0.95 * 32768) <= inject_Z v <= 0.95 * 32767)%Q ∧
        v ≠ 32767 ∧ v ≠ -32768.
Proof. apply (audioBufferToWav_samples_clamped (fullScale 48000 2)). simpl. lia. Defined.

(** Full scale in, 5 % below full scale out. *)
Example full_scale_encoded :
  blobBytes <$> (match audioBufferToWav (fullScale 48000 2) with Ok b => Some b | _ => None end)
  = Some (wavHeader 2 48000 4 ++ i16le 31128 ++ i16le (-31129)).
Proof. reflexivity. Qed.

(** ** The mono encoder against the PCM container encoder *)

Lemma Qlt_bool_comp a b c : (a == b)%Q → Qlt_bool a c = Qlt_bool b c.
Proof.
  intros H. destruct (Qlt_bool b c) eqn:E.
  - apply Qlt_bool_true. rewrite H. by apply Qlt_bool_true.
  - apply Qlt_bool_false. rewrite H. by apply Qlt_bool_false.
Qed.

Lemma Qclamp_id lo hi q : (lo <= q <= hi)%Q → (Qmax lo (Qmin hi q) == q)%Q.
Proof.
  intros [Hlo Hhi]. rewrite Q.min_r by done. by rewrite Q.max_r.
Qed.

Lemma pcm16_comp lo hi lo' hi' q :
  (lo <= q <= hi)%Q → (lo' <= q <= hi')%Q →
  pcm16 lo hi (Fin q) = pcm16 lo' hi' (Fin q).
Proof.
  intros H H'. unfold pcm16. rewrite !clamp_Fin.
  pose proof (Qclamp_id _ _ _ H) as E. pose proof (Qclamp_id _ _ _ H') as E'.
  set (c := Qmax lo (Qmin hi q)) in *. set (c' := Qmax lo' (Qmin hi' q)) in *.
  assert (c == c')%Q as Hcc by (by rewrite E, E').
  unfold scale16, num_lt. rewrite (Qlt_bool_comp c c' 0 Hcc).
  destruct (Qlt_bool c' 0); cbn [num_mul ToInt16]; f_equal;
    apply truncate_comp; by rewrite Hcc.
Qed.

Lemma pcm16_withinHeadroom s :
  withinHeadroom s → pcm16 (-1) 1 s = pcm16 (-0.95) 0.95 s.
Proof.
  intros [->|(q & -> & Hq)]; [reflexivity|].
  apply pcm16_comp; [|done]. destruct Hq. split; lra.
Qed.

Lemma flat_map_ext_Forall {A B} (f g : A → list B) (l : list A) :
  Forall (fun a => f a = g a) l → flat_map f l = flat_map g l.
Proof. induction 1; simpl; congruence. Qed.

Lemma pcmData_ext lo hi lo' hi' b nch :
  (∀ i c, (i < AudioBuffer.frames b)%nat → (c < nch)%nat →
     pcm16 lo hi (AudioBuffer.samples b c i) = pcm16 lo' hi' (AudioBuffer.samples b c i)) →
  pcmData lo hi b nch = pcmData lo' hi' b nch.
Proof.
  intros H. unfold pcmData, pcmFrame.
  apply flat_map_ext_Forall, Forall_forall. intros i Hi%elem_of_seq.
  apply flat_map_ext_Forall, Forall_forall. intros c Hc%elem_of_seq.
  rewrite H by lia. reflexivity.
Qed.

(** C3, as stated, fails: a mono buffer holding one sample at +1.0 is
    encoded to 32767 by the pre-processor's encoder and to 31128 by the PCM
    container encoder. *)
Lemma bufferToWavBlob_differs_at_full_scale :
  bufferToWavBlob (fullScale 16000 1) ≠ audioBufferToWav (fullScale 16000 1).
Proof. vm_compute. discriminate. Qed.

(** C3, amended. For every mono buffer both encoders succeed and write the
    same 44-byte header; the pre-processor's encoder converts each sample by
    the same scale-and-truncate rule after clamping to [-1, 1] instead of
    [-0.95, 0.95], so the two files are byte-identical exactly when the
    conversions agree on every sample, which they do when every sample lies in
    [-0.95, 0.95]. *)
Theorem bufferToWavBlob_vs_audioBufferToWav (b : AudioBuffer.t) :
  AudioBuffer.numberOfChannels b = 1%nat →
  let header := wavHeader 1 (AudioBuffer.sampleRate b) (AudioBuffer.frames b * 2) in
  bufferToWavBlob b = Ok (mkBlob (header ++ pcmData (-1) 1 b 1) "audio/wav") ∧
  audioBufferToWav b = Ok (mkBlob (spec_monoWav b) "audio/wav") ∧
  spec_monoWav b = header ++ pcmData (-0.95) 0.95 b 1 ∧
  ((∀ i, (i < AudioBuffer.frames b)%nat → withinHeadroom (AudioBuffer.samples b 0 i)) →
   bufferToWavBlob b = audioBufferToWav b).
Proof.
  intros Hmono header. unfold spec_monoWav. fold header.
  assert (bufferToWavBlob b = Ok (mkBlob (header ++ pcmData (-1) 1 b 1) "audio/wav")) as H1
    by (apply bufferToWavBlob_bytes; lia).
  assert (audioBufferToWav b = Ok (mkBlob (header ++ pcmData (-0.95) 0.95 b 1) "audio/wav")) as H2.
  { rewrite audioBufferToWav_bytes by lia. rewrite Hmono.
    by rewrite Nat.mul_1_r. }
  repeat split; [done..|].
  intros Hin. rewrite H1, H2. do 3 f_equal.
  apply pcmData_ext. intros i c Hi Hc. replace c with 0%nat by lia.
  by apply pcm16_withinHeadroom, Hin.
Qed.

Lemma bufferToWavBlob_vs_audioBufferToWav_witness :
  let b := silence 16000 1 3 in
  let header := wavHeader 1 16000 (3 * 2) in
  bufferToWavBlob b = Ok (mkBlob (header ++ pcmData (-1) 1 b 1) "audio/wav") ∧
  audioBufferToWav b = Ok (mkBlob (spec_monoWav b) "audio/wav") ∧
  spec_monoWav b = header ++ pcmData (-0.95) 0.95 b 1 ∧
  ((∀ i, (i < 3)%nat → withinHeadroom (AudioBuffer.samples b 0 i)) →
   bufferToWavBlob b = audioBufferToWav b).
Proof. apply (bufferToWavBlob_vs_audioBufferToWav (silence 16000 1 3)). reflexivity. Defined.

(** ** The modulation units *)

(** C4. With an intensity of zero or less, each of the three constructors is
    the computation that returns its input node and leaves the graph as it
    was: no node is created, no connection made, nothing started. *)
Theorem modulation_units_bypass (g : Graph) (input : nat) (intensity : Q) :
  (intensity <= 0)%Q →
  (createChorus input intensity = mret input ∧
   createPhaser input intensity = mret input ∧
   createFlanger input intensity = mret input) ∧
  runG (createChorus input intensity) g = (input, g) ∧
  runG (createPhaser input intensity) g = (input, g) ∧
  runG (createFlanger input intensity) g = (input, g).
Proof.
  intros H. apply Qle_bool_iff in H.
  unfold createChorus, createPhaser, createFlanger. rewrite H. by repeat split.
Qed.

Lemma modulation_units_bypass_witness :
  (createChorus 1 0 = mret 1%nat ∧
   createPhaser 1 0 = mret 1%nat ∧
   createFlanger 1 0 = mret 1%nat) ∧
  runG (createChorus 1 0) emptyGraph = (1%nat, emptyGraph) ∧
  runG (createPhaser 1 0) emptyGraph = (1%nat, emptyGraph) ∧
  runG (createFlanger 1 0) emptyGraph = (1%nat, emptyGraph).
Proof. apply (modulation_units_bypass emptyGraph 1 0). unfold Qle. simpl. lia. Defined.

(** With a positive intensity the units do allocate: the bypass is not the
    only behaviour. *)
Example chorus_allocates :
  length (nodes (runG (createChorus 0 0.5) emptyGraph).2) = 9%nat ∧
  length (nodes (runG (createPhaser 0 0.5) emptyGraph).2) = 9%nat ∧
  length (nodes (runG (createFlanger 0 0.5) emptyGraph).2) = 6%nat.
Proof. by vm_compute. Qed.

(** The creative layer of the chain with all three intensities at zero or
    below is the chain without that layer. *)
Lemma creativeFxLayer_off options chain g :
  (chorus (creativeFx options) <= 0)%Q → (phaser (creativeFx options) <= 0)%Q →
  (flanger (creativeFx options) <= 0)%Q →
  runG (creativeFxLayer options chain) g = (chain, g).
Proof.
  intros Hc Hp Hf. unfold creativeFxLayer.
  rewrite !(proj2 (Qlt_bool_false _ _)) by done. reflexivity.
Qed.

(** ** The waveshaping curve *)









(** ** The fade envelope *)

Lemma alter_last {A} (f : A → A) (l : list A) (x : A) :
  alter f (length l) (l ++ [x]) = l ++ [f x].
Proof.
  rewrite <- (Nat.add_0_r (length l)). by rewrite alter_app_r.
Qed.

Lemma runG_bind {A B} (m : G A) (f : A → G B) g :
  runG (m ≫= f) g = (let '(a, g') := runG m g in runG (f a) g').
Proof. reflexivity. Qed.

(** The fader is a fresh gain node carrying the four scheduled events. *)
Lemma fades_on audioBuffer options chain g :
  enableFades options = true →
  runG (fades audioBuffer options chain) g =
  (length (nodes g),
   mkGraph
     (nodes g ++
      [mkNode GainNode []
         [("gain", SetValueAtTime 0 0);
          ("gain", LinearRampToValueAtTime 1 0.8);
          ("gain", SetValueAtTime 1 (Qmax 0 (AudioBuffer.duration audioBuffer - 3.0)));
          ("gain", LinearRampToValueAtTime 0 (AudioBuffer.duration audioBuffer))]])
     (connections g ++ [mkConnection chain 0 (NodeInput (length (nodes g)) 0)])
     (started g)).
Proof.
  intros H. unfold fades. rewrite H.
  cbn [runG mbind G_bind mret G_ret createGain createNode schedule connect connectAt
       nodes connections started].
  rewrite !alter_last. reflexivity.
Qed.

Lemma finalStage_last ns cs st src n :
  ns !! src = Some n →
  finalStage (mkGraph ns (cs ++ [mkConnection src 0 (NodeInput destination 0)]) st) = Some n.
Proof.
  intros H. unfold finalStage. cbn [connections nodes].
  rewrite filter_app, filter_cons_True by done. rewrite filter_nil.
  rewrite last_snoc. by cbn.
Qed.

(** The graph of [processAudio] ends with the fade stage wired to the
    destination. *)
Lemma masteringGraph_fader audioBuffer options :
  enableFades options = true →
  finalStage (runG (masteringGraph audioBuffer options) emptyGraph).2 =
  Some (mkNode GainNode []
         [("gain", SetValueAtTime 0 0);
          ("gain", LinearRampToValueAtTime 1 0.8);
          ("gain", SetValueAtTime 1 (Qmax 0 (AudioBuffer.duration audioBuffer - 3.0)));
          ("gain", LinearRampToValueAtTime 0 (AudioBuffer.duration audioBuffer))]).
Proof.
  intros H. unfold masteringGraph.
  rewrite runG_bind.
  destruct (runG (chainStart audioBuffer options) emptyGraph) as [[src chain] g].
  do 6 (rewrite runG_bind;
        match goal with |- context [runG ?m ?g0] =>
          lazymatch m with
          | mbind _ _ => fail
          | _ => destruct (runG m g0) as [? ?]
          end
        end).
  rewrite runG_bind, fades_on by done.
  cbn [connect connectAt start runG nodes connections started snd mbind G_bind].
  apply finalStage_last.
  rewrite lookup_app_r by done. by rewrite Nat.sub_diag.
Qed.

Lemma Qle_bool_true a b : (a <= b)%Q → Qle_bool a b = true.
Proof. apply Qle_bool_iff. Qed.

Lemma Qle_bool_false a b : (b < a)%Q → Qle_bool a b = false.
Proof.
  intros H. destruct (Qle_bool a b) eqn:E; [|done].
  apply Qle_bool_iff in E. exfalso. eapply Qlt_not_le; eauto.
Qed.

(** When the fade-in ends before the fade-out starts, the events stay in the
    order they were scheduled. *)
Lemma fade_timeline (d fos : Q) :
  (0.8 <= fos)%Q → (fos <= d)%Q →
  timelineOf [SetValueAtTime 0 0; LinearRampToValueAtTime 1 0.8;
              SetValueAtTime 1 fos; LinearRampToValueAtTime 0 d]
  = [SetValueAtTime 0 0; LinearRampToValueAtTime 1 0.8;
     SetValueAtTime 1 fos; LinearRampToValueAtTime 0 d].
Proof.
  intros H1 H2. unfold timelineOf.
  do 3 (cbn [foldl insertEvent eventTime]; rewrite ?Qle_bool_true by lra).
  reflexivity.
Qed.


Lemma fader_events d fos :
  paramEvents
    (mkNode GainNode []
       [("gain", SetValueAtTime 0 0); ("gain", LinearRampToValueAtTime 1 0.8);
        ("gain", SetValueAtTime 1 fos); ("gain", LinearRampToValueAtTime 0 d)]) "gain"
  = [SetValueAtTime 0 0; LinearRampToValueAtTime 1 0.8;
     SetValueAtTime 1 fos; LinearRampToValueAtTime 0 d].
Proof. reflexivity. Qed.




(** Ten seconds: silent at the first sample, full at 0.8 s, still full at 7 s,
    half way down at 8.5 s, silent at 10 s. *)
Example ten_second_fade :
  ∃ fader,
    finalStage (runG (masteringGraph tenSeconds defaultOptions) emptyGraph).2 = Some fader ∧
    (paramValueAtTime 1 fader "gain" 0 == 0)%Q ∧
    (paramValueAtTime 1 fader "gain" 0.4 == 0.5)%Q ∧
    (paramValueAtTime 1 fader "gain" 0.8 == 1)%Q ∧
    (paramValueAtTime 1 fader "gain" 7 == 1)%Q ∧
    (paramValueAtTime 1 fader "gain" 8.5 == 0.5)%Q ∧
    (paramValueAtTime 1 fader "gain" 10 == 0)%Q.
Proof.
  eexists. split; [by apply masteringGraph_fader|]. by vm_compute.
Qed.

(** Between 3 s and 3.8 s the fade-in is a step: of a 3.5-second source the
    gain is 0 until 0.5 s and 1 from there to 0.8 s. *)
Example short_source_fade_in_is_a_step :
  ∃ fader,
    finalStage (runG (masteringGraph (silence 8000 1 (Z.to_nat 28000)) defaultOptions)
                  emptyGraph).2 = Some fader ∧
    (paramValueAtTime 1 fader "gain" 0.25 == 0)%Q ∧
    (paramValueAtTime 1 fader "gain" 0.5 == 1)%Q ∧
    (paramValueAtTime 1 fader "gain" 0.6 == 1)%Q.
Proof.
  eexists. split; [by apply masteringGraph_fader|]. by vm_compute.
Qed.

(** ** The derived mastering parameters *)

(** C7. Whatever the options, the input trim is -20 dB; at intensity [high]
    the compressor threshold is -28 dB, its ratio 2.5 and the makeup gain
    +15 dB; at [low] and at [medium] alike they are -24 dB, 1.5 and +13 dB. *)
Theorem derived_mastering_parameters (options : AudioProcessOptions) :
  (safetyHeadroom (config options) == -20)%Q ∧
  match intensity options with
  | high =>
      (compThreshold (config options) == -28)%Q ∧
      (compRatio (config options) == 2.5)%Q ∧
      (finalGain (config options) == 15)%Q
  | low | medium =>
      (compThreshold (config options) == -24)%Q ∧
      (compRatio (config options) == 1.5)%Q ∧
      (finalGain (config options) == 13)%Q
  end.
Proof.
  unfold config. cbn [safetyHeadroom compThreshold compRatio finalGain].
  split; [reflexivity|]. destruct (intensity options); by cbn.
Qed.

(** The four numbers reach the chain: threshold and ratio on the compressor,
    the makeup as a gain of ten to the power dB / 20. *)
Lemma softEnvelope_uses_config options chain g :
  runG (softEnvelope options chain) g =
    (length (nodes g),
     mkGraph
       (nodes g ++
        [mkNode DynamicsCompressorNode
           [("threshold", VNum (compThreshold (config options)));
            ("knee", VNum 35);
            ("ratio", VNum (compRatio (config options)));
            ("attack", VNum 0.040); ("release", VNum 0.250)] []])
       (connections g ++ [mkConnection chain 0 (NodeInput (length (nodes g)) 0)])
       (started g)).
Proof.
  unfold softEnvelope.
  cbn [runG mbind G_bind mret G_ret createDynamicsCompressor
       createNode assign connect connectAt nodes connections started].
  rewrite !alter_last. reflexivity.
Qed.

Lemma finalLeveling_uses_config options chain g :
  nodes (runG (finalLeveling options chain) g).2 =
    nodes g ++
    [mkNode GainNode [("gain", VPow10 (finalGain (config options) / 20))] [];
     mkNode DynamicsCompressorNode
       [("threshold", VNum (-2.0)); ("knee", VNum 0); ("ratio", VNum 20);
        ("attack", VNum 0.001); ("release", VNum 0.15)] []].
Proof.
  unfold finalLeveling.
  cbn [runG mbind G_bind mret G_ret createDynamicsCompressor createGain
       createNode assign connect connectAt nodes connections started snd].
  rewrite !alter_last. rewrite <- !app_assoc. reflexivity.
Qed.

(** ** The mastering render and its WAV file *)

Lemma u16_decode u : 0 ≤ u → u mod 256 + 256 * (u / 256) = u.
Proof. intros H. pose proof (Z.div_mod u 256 ltac:(lia)). lia. Qed.

Lemma u32_decode u :
  0 ≤ u < 2 ^ 32 →
  u mod 256 + 256 * ((u / 2 ^ 8) mod 256 + 256 * ((u / 2 ^ 16) mod 256 + 256 * (u / 2 ^ 24))) = u.
Proof.
  intros H.
  change (2 ^ 16) with (2 ^ 8 * 2 ^ 8). change (2 ^ 24) with (2 ^ 8 * 2 ^ 8 * 2 ^ 8).
  rewrite <- !Z.div_div by lia. change (2 ^ 8) with 256.
  pose proof (Z.div_mod u 256 ltac:(lia)).
  pose proof (Z.div_mod (u / 256) 256 ltac:(lia)).
  pose proof (Z.div_mod (u / 256 / 256) 256 ltac:(lia)).
  lia.
Qed.

(** The fields a reader finds in the header. *)
Lemma wavHeader_fields nch rate n rest :
  getUint16 20 (wavHeader nch rate n ++ rest) = Some 1 ∧
  getUint16 22 (wavHeader nch rate n ++ rest) = Some (Z.of_nat nch mod 2 ^ 16) ∧
  getUint32 24 (wavHeader nch rate n ++ rest) = Some (rate mod 2 ^ 32) ∧
  getUint16 34 (wavHeader nch rate n ++ rest) = Some 16 ∧
  getUint32 40 (wavHeader nch rate n ++ rest) = Some (Z.of_nat n mod 2 ^ 32).
Proof.
  unfold wavHeader, getUint16, getUint32, u16le, u32le. cbv zeta.
  cbn [charCodes app take drop firstn skipn].
  repeat split; f_equal.
  - apply u16_decode; apply Z.mod_pos_bound; lia.
  - apply u32_decode; apply Z.mod_pos_bound; lia.
  - apply u32_decode; apply Z.mod_pos_bound; lia.
Qed.



Lemma newOfflineAudioContext_ok (nch : nat) (len rate : Z) :
  (0 < nch)%nat → 0 < len → 0 < rate →
  newOfflineAudioContext nch len rate = Ok (mkCtx nch (Z.to_nat len) rate).
Proof.
  intros. unfold newOfflineAudioContext. rewrite decide_False; [done|lia].
Qed.




(** The source of the example does last five seconds. *)
Example fiveSeconds_duration : (AudioBuffer.duration fiveSeconds == 5)%Q.
Proof. by vm_compute. Qed.

(** ** The analysis pre-processor: what it renders *)

Lemma renderForAnalysis_ok pf file bytes src data :
  arrayBuffer file = Ok bytes →
  decodeAudioData pf bytes = Ok src →
  0 < Qfloor (Qmin (AudioBuffer.duration src) 180 * 16000) →
  offlineRender pf 1 (Z.to_nat (Qfloor (Qmin (AudioBuffer.duration src) 180 * 16000))) 16000
    (runG (analysisGraph src) emptyGraph).2 = Ok data →
  renderForAnalysis pf file =
  Ok (AudioBuffer.mk 16000 1
        (Z.to_nat (Qfloor (Qmin (AudioBuffer.duration src) 180 * 16000))) data).
Proof.
  intros Hfile Hdec Hlen Hrender. unfold renderForAnalysis.
  rewrite Hfile, bind_Ok, Hdec, bind_Ok. cbv zeta.
  change (inject_Z 16000) with 16000%Q.
  rewrite newOfflineAudioContext_ok by lia. rewrite bind_Ok.
  destruct (runG (analysisGraph src) emptyGraph) as [u graph].
  unfold startRendering. cbn [ctxChannels ctxLength ctxSampleRate snd] in *.
  by rewrite Hrender.
Qed.

(** A source shorter than one frame at 16 kHz leaves nothing to render: the
    context cannot be created. *)
Lemma renderForAnalysis_too_short pf file bytes src :
  arrayBuffer file = Ok bytes →
  decodeAudioData pf bytes = Ok src →
  (0 <= AudioBuffer.duration src < 1 # 16000)%Q →
  renderForAnalysis pf file = Throw (DOMException "NotSupportedError").
Proof.
  intros Hfile Hdec [H0 H1]. unfold renderForAnalysis.
  rewrite Hfile, bind_Ok, Hdec, bind_Ok. cbv zeta.
  change (inject_Z 16000) with 16000%Q.
  unfold newOfflineAudioContext. rewrite decide_True; [done|].
  right. left. rewrite Q.min_l by lra.
  assert (Qfloor (AudioBuffer.duration src * 16000) < 1); [|lia].
  apply Z.lt_nge. intros Hc. 
  pose proof (Qfloor_le (AudioBuffer.duration src * 16000)) as Hf.
  assert (1 <= inject_Z (Qfloor (AudioBuffer.duration src * 16000)))%Q.
  { rewrite (Zle_Qle 1) in Hc. exact Hc. }
  lra.
Qed.

Lemma duration_mk rate nch (len : Z) data :
  0 ≤ len →
  AudioBuffer.duration (AudioBuffer.mk rate nch (Z.to_nat len) data)
  = (inject_Z len / inject_Z rate)%Q.
Proof.
  intros H. unfold AudioBuffer.duration.
  cbn [AudioBuffer.frames AudioBuffer.sampleRate]. by rewrite Z2Nat.id.
Qed.




(** Four minutes of stereo at 44.1 kHz come out as 180 s of mono at 16 kHz. *)
Example four_minutes_cut_to_three :
  ∃ rendered,
    renderForAnalysis (platformDecoding fourMinutes) someFile = Ok rendered ∧
    AudioBuffer.numberOfChannels rendered = 1%nat ∧
    AudioBuffer.sampleRate rendered = 16000 ∧
    Z.of_nat (AudioBuffer.frames rendered) = 2880000 ∧
    (AudioBuffer.duration rendered == 180)%Q.
Proof.
  assert (AudioBuffer.duration fourMinutes == 240)%Q as Hd.
  { unfold fourMinutes, silence. rewrite duration_mk by lia. reflexivity. }
  assert (Qfloor (Qmin (AudioBuffer.duration fourMinutes) 180 * 16000) = 2880000) as Hlen.
  { rewrite (Qfloor_comp _ 2880000%Q); [reflexivity|].
    rewrite Hd, Q.min_r by lra. reflexivity. }
  eexists. split.
  - eapply (renderForAnalysis_ok _ _ [] fourMinutes); [reflexivity..|lia|reflexivity].
  - cbn [AudioBuffer.numberOfChannels AudioBuffer.sampleRate AudioBuffer.frames].
    rewrite Hlen. split; [done|]. split; [done|]. split; [lia|].
    rewrite duration_mk by lia. reflexivity.
Qed.

(** ** The MP3 adapter *)

Lemma forEach_app {S} (body : nat → S → result S) l1 l2 s :
  forEach body (l1 ++ l2) s = (s' ← forEach body l1 s; forEach body l2 s').
Proof.
  revert s. induction l1 as [|i l1 IH]; intros s; [reflexivity|].
  cbn [app forEach]. destruct (body i s); [apply IH|reflexivity].
Qed.

Lemma insert_fill (f : nat → Z) (n k : nat) :
  (k < n)%nat →
  <[k := f k]> ((f <$> seq 0 k) ++ replicate (n - k) 0)
  = (f <$> seq 0 (S k)) ++ replicate (n - S k) 0.
Proof.
  intros H. replace (n - k)%nat with (S (n - S k)) by lia.
  rewrite seq_S, fmap_app, <- app_assoc. cbn [fmap list_fmap app replicate Nat.add].
  rewrite insert_app_r_alt by (by rewrite length_fmap, length_seq).
  rewrite length_fmap, length_seq, Nat.sub_diag. reflexivity.
Qed.

(** The conversion loop fills the left array, and the right one when there
    is a second channel. *)
Lemma conversion_loop (n : nat) (body : nat → list Z * list Z → result (list Z * list Z))
    (f g : nat → Z) (stereo : bool) :
  (∀ i l r, (i < n)%nat →
     body i (l, r) = Ok (<[i := f i]> l, if stereo then <[i := g i]> r else r)) →
  for_lt n body (replicate n 0, replicate n 0)
  = Ok (f <$> seq 0 n, if stereo then g <$> seq 0 n else replicate n 0).
Proof.
  intros Hbody. unfold for_lt.
  assert (∀ k, (k ≤ n)%nat →
            forEach body (seq 0 k) (replicate n 0, replicate n 0)
            = Ok ((f <$> seq 0 k) ++ replicate (n - k) 0,
                  if stereo then (g <$> seq 0 k) ++ replicate (n - k) 0
                  else replicate n 0)) as H.
  { induction k as [|k IH]; intros Hk.
    - cbn [seq forEach fmap list_fmap app]. rewrite Nat.sub_0_r. by destruct stereo.
    - rewrite seq_S, forEach_app, IH by lia. rewrite bind_Ok.
      cbn [forEach Nat.add]. rewrite Hbody by lia. rewrite bind_Ok.
      destruct stereo; rewrite ?insert_fill by lia; by rewrite seq_S. }
  rewrite H by lia. rewrite Nat.sub_diag. cbn [replicate]. rewrite !app_nil_r.
  by destruct stereo.
Qed.

(** The block loop: the chunks it collects concatenate to what [feed] emits. *)
Lemma block_loop (codec : Mp3Codec) (chunk : nat → list Z * option (list Z))
    (body : nat → Mp3Encoder codec * list (list Z) → result (Mp3Encoder codec * list (list Z))) :
  (∀ i enc data,
     body i (enc, data) =
     let '(enc', buf) := encodeBuffer codec enc (chunk i).1 (chunk i).2 in
     Ok (enc', if decide (0 < length buf)%nat then data ++ [buf] else data)) →
  ∀ idxs enc data,
    ∃ data',
      forEach body idxs (enc, data) = Ok ((feed codec enc (chunk <$> idxs)).1, data') ∧
      concat data' = concat data ++ (feed codec enc (chunk <$> idxs)).2.
Proof.
  intros Hbody. induction idxs as [|i idxs IH]; intros enc data.
  - exists data. cbn. by rewrite app_nil_r.
  - cbn [forEach fmap list_fmap feed]. rewrite Hbody.
    destruct (chunk i) as [l r]. cbn [fst snd].
    destruct (encodeBuffer codec enc l r) as [enc' buf]. rewrite bind_Ok.
    destruct (IH enc' (if decide (0 < length buf)%nat then data ++ [buf] else data))
      as (data' & Hrun & Hcat).
    exists data'. change (list_fmap _ _ chunk idxs) with (chunk <$> idxs).
    destruct (feed codec enc' (chunk <$> idxs)) as [encf out]. cbn [fst snd] in *.
    split; [done|]. rewrite Hcat. rewrite app_assoc. f_equal.
    case_decide as Hlen.
    + rewrite concat_app. cbn. by rewrite app_nil_r.
    + destruct buf; [by rewrite app_nil_r|simpl in Hlen; lia].
Qed.

Lemma audioBufferToMp3_blocks (codec : Mp3Codec) (b : AudioBuffer.t) :
  (1 ≤ AudioBuffer.numberOfChannels b)%nat →
  audioBufferToMp3 codec b = Ok (encodeBlocks codec b (mp3Blocks b)).
Proof.
  intros Hch. unfold audioBufferToMp3. cbv zeta.
  rewrite (getChannelData_ok b 0) by lia. rewrite bind_Ok.
  rewrite length_fmap, length_seq.
  set (n := AudioBuffer.frames b). set (nch := AudioBuffer.numberOfChannels b) in *.
  set (f := fun i => pcm16 (-0.95) 0.95 (AudioBuffer.samples b 0 i)).
  set (g := fun i => pcm16 (-0.95) 0.95 (AudioBuffer.samples b 1 i)).
  assert (∃ right, (if decide (1 < nch)%nat then AudioBuffer.getChannelData b 1
                    else Ok (AudioBuffer.samples b 0 <$> seq 0 n)) = Ok right ∧
                   ((1 < nch)%nat → right = AudioBuffer.samples b 1 <$> seq 0 n))
    as (right & -> & Hright).
  { case_decide.
    - eexists. split; [by apply getChannelData_ok|done].
    - eexists. split; [done|lia]. }
  rewrite bind_Ok.
  rewrite (conversion_loop n _ f g (bool_decide (1 < nch)%nat)).
  2:{ intros i l r Hi. rewrite at_index_channel by done. fold (f i).
      unfold pcm16, clamp, scale16 in f. 
      case_decide as Hst.
      - rewrite bool_decide_eq_true_2 by done. rewrite Hright by done.
        rewrite at_index_channel by done. reflexivity.
      - rewrite bool_decide_eq_false_2 by done. reflexivity. }
  rewrite bind_Ok.
  set (L := f <$> seq 0 n).
  set (R := if bool_decide (1 < nch)%nat then g <$> seq 0 n else replicate n 0).
  set (chunk := fun i : nat =>
         (subarray L i (i + 1152),
          if bool_decide (1 < nch)%nat then Some (subarray R i (i + 1152)) else None)).
  edestruct (block_loop codec chunk) as (data' & Hrun & Hcat); cycle 1.
  - rewrite Hrun. rewrite bind_Ok. cbn [fst snd].
    unfold encodeBlocks, mp3Blocks, blocks. fold n nch.
    replace (length (int16Channel b 0)) with n
      by (unfold int16Channel; by rewrite length_fmap, length_seq).
    change (int16Channel b 0) with L.
    assert ((fun i : nat =>
               (subarray L i (i + 1152),
                if bool_decide (1 < nch)%nat
                then Some (subarray (int16Channel b 1) i (i + 1152)) else None)) = chunk) as ->.
    { unfold chunk, R. destruct (bool_decide (1 < nch)%nat); reflexivity. }
    destruct (feed codec (newMp3Encoder codec nch (AudioBuffer.sampleRate b) 320)
                (chunk <$> strideIndices n 1152)) as [encf out].
    cbn [fst snd] in *. do 2 f_equal.
    cbn [concat app] in Hcat. rewrite <- Hcat.
    destruct (decide (0 < length (flush codec encf))%nat) as [Hlen|Hlen].
    + rewrite concat_app. cbn. by rewrite app_nil_r.
    + destruct (flush codec encf); [by rewrite app_nil_r|simpl in Hlen; lia].
  - intros i enc data. unfold chunk. cbn [fst snd].
    case_decide as Hst.
    + rewrite bool_decide_eq_true_2 by done. reflexivity.
    + rewrite bool_decide_eq_false_2 by done. reflexivity.
Qed.










(** Two blocks and a half: 2880 stereo frames go to the codec as blocks of
    1152, 1152 and 576 samples per channel. *)
Example block_sizes :
  (fun blk : list Z * option (list Z) => (length blk.1, length <$> blk.2))
    <$> mp3Blocks (silence 48000 2 2880)
  = [(1152, Some 1152); (1152, Some 1152); (576, Some 576)]%nat.
Proof. by vm_compute. Qed.

(** ** The analysis pre-processor: failures and output *)

Lemma split_free sep s : free sep s = true → split sep s = [s].
Proof.
  induction s as [|c s IH]; [done|]. cbn [free split].
  intros [Hc Hs]%andb_true_iff. apply negb_true_iff in Hc. rewrite Hc.
  by rewrite IH.
Qed.

Lemma split_app sep a b :
  free sep a = true → split sep (a +:+ String sep b) = a :: split sep b.
Proof.
  induction a as [|c a IH].
  - intros _. change ("" +:+ String sep b) with (String sep b).
    cbn [split]. by rewrite Ascii.eqb_refl.
  - cbn [free]. intros [Hc Ha]%andb_true_iff. apply negb_true_iff in Hc.
    change (String c a +:+ String sep b) with (String c (a +:+ String sep b)).
    cbn [split]. rewrite Hc. by rewrite IH.
Qed.

Lemma base64Char_not_comma n : negb (Ascii.eqb (base64Char n) ",") = true.
Proof.
  unfold base64Char.
  assert (forallb (fun c => negb (Ascii.eqb c ","))
            (list_ascii_of_string base64Alphabet) = true) as H by reflexivity.
  destruct (list_ascii_of_string base64Alphabet !! Z.to_nat n) as [c|] eqn:E; [|reflexivity].
  rewrite forallb_forall in H. apply H.
  apply list_elem_of_In. by eapply list_elem_of_lookup_2.
Qed.

Lemma base64_free bytes : free "," (base64 bytes) = true.
Proof.
  assert (∀ n bytes, (length bytes ≤ n)%nat → free "," (base64 bytes) = true) as H.
  { induction n as [|n IH]; intros [|a [|b [|c rest]]] Hn; try reflexivity;
      try (simpl in Hn; lia);
      cbn [base64 free]; rewrite ?base64Char_not_comma; try reflexivity.
    cbn [andb]. apply IH. simpl in Hn. lia. }
  by apply (H (length bytes)).
Qed.

(** The base64 part of a WAV blob's data URL is what [split(',')[1]] takes. *)
Lemma dataURL_payload bytes :
  split "," (dataURL (mkBlob bytes "audio/wav")) !! 1%nat = Some (base64 bytes).
Proof.
  unfold dataURL. cbn [blobType blobBytes].
  change ("data:" +:+ "audio/wav" +:+ ";base64," +:+ base64 bytes)
    with ("data:audio/wav;base64" +:+ String "," (base64 bytes)).
  rewrite split_app by reflexivity. by rewrite split_free by apply base64_free.
Qed.

Lemma renderForAnalysis_inv pf file rendered :
  renderForAnalysis pf file = Ok rendered →
  ∃ bytes src data,
    arrayBuffer file = Ok bytes ∧ decodeAudioData pf bytes = Ok src ∧
    0 < Qfloor (Qmin (AudioBuffer.duration src) 180 * 16000) ∧
    offlineRender pf 1 (Z.to_nat (Qfloor (Qmin (AudioBuffer.duration src) 180 * 16000))) 16000
      (runG (analysisGraph src) emptyGraph).2 = Ok data ∧
    rendered = AudioBuffer.mk 16000 1
                 (Z.to_nat (Qfloor (Qmin (AudioBuffer.duration src) 180 * 16000))) data.
Proof.
  unfold renderForAnalysis.
  destruct (arrayBuffer file) as [bytes|e] eqn:Hfile; [|done]. rewrite bind_Ok.
  destruct (decodeAudioData pf bytes) as [src|e] eqn:Hdec; [|done]. rewrite bind_Ok. cbv zeta.
  change (inject_Z 16000) with 16000%Q.
  unfold newOfflineAudioContext. case_decide as Hlen; [done|]. rewrite bind_Ok.
  destruct (runG (analysisGraph src) emptyGraph) as [u graph] eqn:Eg.
  unfold startRendering. cbn [ctxChannels ctxLength ctxSampleRate].
  destruct (offlineRender pf 1 _ 16000 graph) as [data|e] eqn:E; [|done].
  rewrite bind_Ok. intros Hr. exists bytes, src, data.
  rewrite Eg. cbn [snd]. split; [done|]. split; [done|]. split; [lia|].
  split; [exact E|]. by injection Hr.
Qed.

Lemma renderForAnalysis_mono pf file rendered :
  renderForAnalysis pf file = Ok rendered →
  AudioBuffer.numberOfChannels rendered = 1%nat ∧ AudioBuffer.sampleRate rendered = 16000.
Proof.
  intros (bytes & src & data & _ & _ & _ & _ & ->)%renderForAnalysis_inv. done.
Qed.

Lemma optimize_after_render pf file rendered :
  renderForAnalysis pf file = Ok rendered →
  optimizeAudioForAnalysis pf file =
  match readAsDataURL pf (analysisWav rendered) with
  | ReaderLoad (Some readerResult) => Ok (split "," readerResult !! 1%nat)
  | ReaderLoad None => Throw (Error "Failed to encode optimized audio")
  | ReaderError event => Throw event
  end.
Proof.
  intros Hr. unfold optimizeAudioForAnalysis. rewrite Hr, bind_Ok.
  destruct (renderForAnalysis_mono _ _ _ Hr) as [Hch _].
  rewrite bufferToWavBlob_bytes by lia. by rewrite bind_Ok.
Qed.

(** C10, as stated, fails: when the decoder rejects a file with its
    [EncodingError], that very error is what the pre-processor rejects with;
    nothing turns it into an "optimization failed" error. *)
Lemma decode_error_is_not_wrapped :
  optimizeAudioForAnalysis platformUndecodable someFile
  = Throw (DOMException "EncodingError") ∧
  optimizeAudioForAnalysis platformUndecodable someFile
  ≠ spec_optimizeAudioForAnalysis platformUndecodable someFile.
Proof. by vm_compute. Qed.

(** Whatever error the platform's decoder produces is the pre-processor's
    error: its failures are not a class a caller could tell from others. *)
Lemma analysis_errors_are_the_platform's (e : jsError) :
  ∃ pf, optimizeAudioForAnalysis pf someFile = Throw e.
Proof.
  exists {| decodeAudioData := fun _ => Throw e;
            offlineRender := fun _ _ _ _ => Ok (fun _ _ => Fin 0);
            codec := silentCodec;
            readAsDataURL := fun blob => ReaderLoad (Some (dataURL blob)) |}.
  reflexivity.
Qed.

(** C10, amended. A failure to read the file, to decode it, to render it or
    to read the WAV file back as a data URL rejects the pre-processor's promise
    with that same error, unchanged (no distinguished "optimization failed"
    error exists), and every rejection comes from one of these steps; nothing
    is returned then.  When the reader loads, the result is the text after the
    first comma of what it loaded: for the data URL of the WAV file, the base64
    of the complete file, 44 bytes of header and 2 bytes per rendered frame. *)
Theorem analysis_failures_propagate (pf : Platform) (file : File) :
  (∀ e, arrayBuffer file = Throw e → optimizeAudioForAnalysis pf file = Throw e) ∧
  (∀ bytes e, arrayBuffer file = Ok bytes → decodeAudioData pf bytes = Throw e →
     optimizeAudioForAnalysis pf file = Throw e) ∧
  (∀ bytes src e, arrayBuffer file = Ok bytes → decodeAudioData pf bytes = Ok src →
     0 < Qfloor (Qmin (AudioBuffer.duration src) 180 * 16000) →
     offlineRender pf 1 (Z.to_nat (Qfloor (Qmin (AudioBuffer.duration src) 180 * 16000)))
       16000 (runG (analysisGraph src) emptyGraph).2 = Throw e →
     optimizeAudioForAnalysis pf file = Throw e) ∧
  (∀ rendered, renderForAnalysis pf file = Ok rendered →
     bufferToWavBlob rendered = Ok (analysisWav rendered) ∧
     Z.of_nat (length (blobBytes (analysisWav rendered)))
       = 44 + 2 * Z.of_nat (AudioBuffer.frames rendered) ∧
     match readAsDataURL pf (analysisWav rendered) with
     | ReaderError e => optimizeAudioForAnalysis pf file = Throw e
     | ReaderLoad None =>
         optimizeAudioForAnalysis pf file = Throw (Error "Failed to encode optimized audio")
     | ReaderLoad (Some url) =>
         optimizeAudioForAnalysis pf file = Ok (split "," url !! 1%nat) ∧
         (url = dataURL (analysisWav rendered) →
          optimizeAudioForAnalysis pf file
          = Ok (Some (base64 (blobBytes (analysisWav rendered)))))
     end) ∧
  (∀ e, optimizeAudioForAnalysis pf file = Throw e →
     arrayBuffer file = Throw e ∨
     (∃ bytes, arrayBuffer file = Ok bytes ∧ decodeAudioData pf bytes = Throw e) ∨
     renderForAnalysis pf file = Throw e ∨
     (∃ rendered, renderForAnalysis pf file = Ok rendered ∧
        (readAsDataURL pf (analysisWav rendered) = ReaderError e ∨
         (readAsDataURL pf (analysisWav rendered) = ReaderLoad None ∧
          e = Error "Failed to encode optimized audio")))) ∧
  (∀ v, optimizeAudioForAnalysis pf file = Ok v →
     ∃ rendered url,
       renderForAnalysis pf file = Ok rendered ∧
       readAsDataURL pf (analysisWav rendered) = ReaderLoad (Some url) ∧
       v = split "," url !! 1%nat).
Proof.
  split.
  { intros e H. unfold optimizeAudioForAnalysis, renderForAnalysis. by rewrite H. }
  split.
  { intros bytes e Hf Hd. unfold optimizeAudioForAnalysis, renderForAnalysis.
    by rewrite Hf, bind_Ok, Hd. }
  split.
  { intros bytes src e Hf Hd Hlen Hr. unfold optimizeAudioForAnalysis, renderForAnalysis.
    rewrite Hf, bind_Ok, Hd, bind_Ok. cbv zeta. change (inject_Z 16000) with 16000%Q.
    rewrite newOfflineAudioContext_ok by lia. rewrite bind_Ok.
    destruct (runG (analysisGraph src) emptyGraph) as [u graph].
    unfold startRendering. cbn [ctxChannels ctxLength ctxSampleRate snd] in *.
    by rewrite Hr. }
  split.
  { intros rendered Hr. destruct (renderForAnalysis_mono _ _ _ Hr) as [Hch Hrate].
    split; [apply bufferToWavBlob_bytes; lia|]. split.
    { unfold analysisWav. cbn [blobBytes].
      rewrite length_app, wavHeader_length, pcmData_length. lia. }
    rewrite (optimize_after_render _ _ _ Hr).
    destruct (readAsDataURL pf (analysisWav rendered)) as [[url|]|e]; try done.
    split; [done|]. intros ->. f_equal. apply dataURL_payload. }
  split.
  { intros e H.
    destruct (arrayBuffer file) as [bytes|e'] eqn:Hf.
    2:{ left. unfold optimizeAudioForAnalysis, renderForAnalysis in H.
        rewrite Hf in H. by injection H as ->. }
    destruct (decodeAudioData pf bytes) as [src|e'] eqn:Hd.
    2:{ right. left. exists bytes. split; [done|].
        unfold optimizeAudioForAnalysis, renderForAnalysis in H.
        rewrite Hf, bind_Ok, Hd in H. by injection H as ->. }
    destruct (renderForAnalysis pf file) as [rendered|e'] eqn:Hr.
    2:{ right. right. left. unfold optimizeAudioForAnalysis in H.
        rewrite Hr in H. by injection H as ->. }
    right. right. right. exists rendered. split; [done|].
    rewrite (optimize_after_render _ _ _ Hr) in H.
    destruct (readAsDataURL pf (analysisWav rendered)) as [[url|]|e']; [done| |].
    - right. split; [done|]. by injection H.
    - left. by injection H as ->. }
  intros v H.
  destruct (renderForAnalysis pf file) as [rendered|e'] eqn:Hr.
  2:{ unfold optimizeAudioForAnalysis in H. by rewrite Hr in H. }
  rewrite (optimize_after_render _ _ _ Hr) in H.
  destruct (readAsDataURL pf (analysisWav rendered)) as [[url|]|e'] eqn:E; [|done..].
  exists rendered, url. split; [done|]. split; [done|]. by injection H.
Qed.

(** One second and a frame of silence at 44.1 kHz: the result is the base64
    of a 32044-byte WAV file. *)
Example analysis_output_complete :
  ∃ rendered,
    renderForAnalysis (platformDecoding secondAndAFrame) someFile = Ok rendered ∧
    optimizeAudioForAnalysis (platformDecoding secondAndAFrame) someFile
    = Ok (Some (base64 (blobBytes (analysisWav rendered)))) ∧
    Z.of_nat (length (blobBytes (analysisWav rendered))) = 32044.
Proof.
  assert (Qfloor (Qmin (AudioBuffer.duration secondAndAFrame) 180 * 16000) = 16000) as Hlen
    by (by vm_compute).
  eexists. split; [|split].
  - eapply (renderForAnalysis_ok _ _ [] secondAndAFrame); [reflexivity..|lia|reflexivity].
  - erewrite optimize_after_render
      by (eapply (renderForAnalysis_ok _ _ [] secondAndAFrame); [reflexivity..|lia|reflexivity]).
    cbn [readAsDataURL platformDecoding]. unfold analysisWav. by rewrite dataURL_payload.
  - unfold analysisWav. cbn [blobBytes AudioBuffer.sampleRate AudioBuffer.frames].
    rewrite length_app, wavHeader_length, pcmData_length.
    cbn [AudioBuffer.frames]. rewrite Hlen. lia.
Qed.
(** * Further properties of the encoders *)

(** ** The PCM container as a whole file *)

Lemma wavHeader_chunks nch rate n rest :
  take 4 (wavHeader nch rate n ++ rest) = charCodes "RIFF" ∧
  take 4 (drop 8 (wavHeader nch rate n ++ rest)) = charCodes "WAVE" ∧
  take 4 (drop 12 (wavHeader nch rate n ++ rest)) = charCodes "fmt " ∧
  take 4 (drop 36 (wavHeader nch rate n ++ rest)) = charCodes "data" ∧
  getUint32 4 (wavHeader nch rate n ++ rest) = Some (Z.of_nat (36 + n) mod 2 ^ 32) ∧
  getUint32 16 (wavHeader nch rate n ++ rest) = Some 16 ∧
  getUint32 28 (wavHeader nch rate n ++ rest)
    = Some ((rate * Z.of_nat (nch * 2)) mod 2 ^ 32) ∧
  getUint16 32 (wavHeader nch rate n ++ rest) = Some (Z.of_nat (nch * 2) mod 2 ^ 16).
Proof.
  unfold wavHeader, getUint16, getUint32, u16le, u32le. cbv zeta.
  cbn [charCodes app take drop firstn skipn].
  repeat split; f_equal.
  - apply u32_decode; apply Z.mod_pos_bound; lia.
  - apply u32_decode; apply Z.mod_pos_bound; lia.
  - apply u16_decode; apply Z.mod_pos_bound; lia.
Qed.

Lemma ToInt16_range x : -32768 ≤ ToInt16 x < 32768.
Proof.
  destruct x as [|?|q]; cbn [ToInt16]; [lia..|].
  unfold wrapSigned. cbv zeta.
  pose proof (Z.mod_pos_bound (truncate q) (2 ^ 16) ltac:(lia)).
  change (2 ^ (16 - 1)) with 32768. change (2 ^ 16) with 65536 in *.
  destruct (32768 <=? truncate q mod 65536) eqn:E; lia.
Qed.

(** The 16-bit value at frame [i], channel [c] of an encoded file. *)
Lemma wav_sample lo hi nch rate n (b : AudioBuffer.t) i c :
  (i < AudioBuffer.frames b)%nat → (c < nch)%nat →
  getInt16 (44 + 2 * (i * nch + c)) (wavHeader nch rate n ++ pcmData lo hi b nch)
  = Some (pcm16 lo hi (AudioBuffer.samples b c i)).
Proof.
  intros Hi Hc. apply getInt16_take; [|apply ToInt16_range].
  rewrite <- (wavHeader_length nch rate n) at 1.
  rewrite drop_app_add'; [|done]. by apply pcmData_sample.
Qed.

(** X1. The file [audioBufferToWav] returns has 44 bytes of header and two
    bytes per sample, carries the four chunk tags, and its header agrees
    with itself and with the file: the RIFF size is the file length minus 8,
    the data size the length minus 44, the block align two bytes per
    channel, the byte rate the sample rate times the block align.  The
    sizes are those of a file below 4 GiB, the only ones a 32-bit field can
    tell. *)
Theorem wav_file_layout (b : AudioBuffer.t) :
  let nch := AudioBuffer.numberOfChannels b in
  let rate := AudioBuffer.sampleRate b in
  let dataBytes := (AudioBuffer.frames b * nch * 2)%nat in
  (1 ≤ nch)%nat →
  Z.of_nat (44 + dataBytes) < 2 ^ 32 →
  Z.of_nat nch * 2 < 2 ^ 16 →
  0 ≤ rate → rate * (Z.of_nat nch * 2) < 2 ^ 32 →
  ∃ bytes,
    audioBufferToWav b = Ok (mkBlob bytes "audio/wav") ∧
    length bytes = (44 + dataBytes)%nat ∧
    take 4 bytes = charCodes "RIFF" ∧
    take 4 (drop 8 bytes) = charCodes "WAVE" ∧
    take 4 (drop 12 bytes) = charCodes "fmt " ∧
    take 4 (drop 36 bytes) = charCodes "data" ∧
    getUint32 4 bytes = Some (Z.of_nat (length bytes) - 8) ∧
    getUint32 16 bytes = Some 16 ∧
    getUint16 20 bytes = Some 1 ∧
    getUint16 22 bytes = Some (Z.of_nat nch) ∧
    getUint32 24 bytes = Some rate ∧
    getUint32 28 bytes = Some (rate * (Z.of_nat nch * 2)) ∧
    getUint16 32 bytes = Some (Z.of_nat nch * 2) ∧
    getUint16 34 bytes = Some 16 ∧
    getUint32 40 bytes = Some (Z.of_nat (length bytes) - 44).
Proof.
  intros nch rate dataBytes Hch Hsize Halign Hrate Hbyte.
  eexists. split; [by apply audioBufferToWav_bytes|].
  fold nch rate dataBytes.
  destruct (wavHeader_fields nch rate dataBytes (pcmData (-0.95) 0.95 b nch))
    as (H20 & H22 & H24 & H34 & H40).
  destruct (wavHeader_chunks nch rate dataBytes (pcmData (-0.95) 0.95 b nch))
    as (T0 & T8 & T12 & T36 & H4 & H16 & H28 & H32).
  assert (length (wavHeader nch rate dataBytes ++ pcmData (-0.95) 0.95 b nch)
          = (44 + dataBytes)%nat) as Hlen.
  { rewrite length_app, wavHeader_length, pcmData_length. done. }
  rewrite Hlen.
  repeat split; try done.
  - rewrite H4. f_equal. rewrite Z.mod_small by lia. lia.
  - rewrite H22. f_equal. apply Z.mod_small. lia.
  - rewrite H24. f_equal. apply Z.mod_small. lia.
  - rewrite H28. f_equal. rewrite Z.mod_small by lia. lia.
  - rewrite H32. f_equal. rewrite Z.mod_small by lia. lia.
  - rewrite H40. f_equal. rewrite Z.mod_small by lia. lia.
Qed.

Lemma wav_file_layout_witness :
  ∃ bytes,
    audioBufferToWav (fullScale 44100 2) = Ok (mkBlob bytes "audio/wav") ∧
    length bytes = 48%nat ∧
    getUint32 4 bytes = Some 40 ∧
    getUint32 28 bytes = Some 176400 ∧
    getUint32 40 bytes = Some 4.
Proof.
  destruct (wav_file_layout (fullScale 44100 2)) as (bytes & H & Hl & _ & _ & _ & _ & H4 & _ & _ & _ & _ & H28 & _ & _ & H40);
    [cbn; lia..|].
  exists bytes. rewrite Hl in H4, H40. by repeat split.
Defined.

(** ** Quantisation *)

Lemma spec_pcm16_error q :
  (-0.95 <= q <= 0.95)%Q →
  if Qlt_bool q 0
  then (q * 32768 <= inject_Z (spec_pcm16 q) < q * 32768 + 1)%Q ∧ spec_pcm16 q ≤ 0
  else (q * 32767 - 1 < inject_Z (spec_pcm16 q) <= q * 32767)%Q ∧ 0 ≤ spec_pcm16 q.
Proof.
  intros Hq. unfold spec_pcm16. cbv zeta.
  pose proof (Qclamp_id (-0.95) 0.95 q Hq) as Hc.
  rewrite (Qlt_bool_comp _ q 0 Hc).
  destruct (Qlt_bool q 0) eqn:E.
  - apply Qlt_bool_true in E.
    rewrite (truncate_comp _ (q * 32768)) by (by rewrite Hc).
    rewrite truncate_nonpos by lra.
    pose proof (Qle_ceiling (q * 32768)) as H1.
    pose proof (Qceiling_lt (q * 32768)) as H2.
    unfold Z.sub in H2. rewrite inject_Z_plus, inject_Z_opp in H2.
    change (inject_Z 1) with 1%Q in H2.
    repeat split; [done|lra|].
    assert (Qceiling (q * 32768) ≤ Qceiling 0) as H3 by (apply Qceiling_resp_le; lra).
    exact H3.
  - apply Qlt_bool_false in E.
    rewrite (truncate_comp _ (q * 32767)) by (by rewrite Hc).
    rewrite truncate_nonneg by lra.
    pose proof (Qfloor_le (q * 32767)) as H1.
    pose proof (Qlt_floor (q * 32767)) as H2.
    rewrite inject_Z_plus in H2. change (inject_Z 1) with 1%Q in H2.
    repeat split; [lra|done|].
    assert (Qfloor 0 ≤ Qfloor (q * 32767)) as H3 by (apply Qfloor_resp_le; lra).
    exact H3.
Qed.

(** X2. Writing a sample and reading it back loses less than one
    quantisation step, and only towards zero: a sample [q] of [-0.95, 0.95]
    is stored as the integer next to its scaled value on the side of zero.
    Read back as [v / 32768], a negative sample lies in [q, q + 1/32768);
    read back as [v / 32767], a non-negative one lies in (q - 1/32767, q];
    the sign is never flipped. *)
Theorem wav_quantisation_error (b : AudioBuffer.t) i c q :
  (1 ≤ AudioBuffer.numberOfChannels b)%nat →
  (i < AudioBuffer.frames b)%nat → (c < AudioBuffer.numberOfChannels b)%nat →
  AudioBuffer.samples b c i = Fin q → (-0.95 <= q <= 0.95)%Q →
  ∃ blob v,
    audioBufferToWav b = Ok blob ∧
    getInt16 (44 + 2 * (i * AudioBuffer.numberOfChannels b + c)) (blobBytes blob) = Some v ∧
    if Qlt_bool q 0
    then (q <= inject_Z v / 32768 < q + (1 # 32768))%Q ∧ v ≤ 0
    else (q - (1 # 32767) < inject_Z v / 32767 <= q)%Q ∧ 0 ≤ v.
Proof.
  intros Hch Hi Hc Hs Hq.
  eexists. exists (spec_pcm16 q). split; [by apply audioBufferToWav_bytes|].
  cbn [blobBytes]. split.
  - rewrite wav_sample by done. by rewrite Hs, pcm16_Fin.
  - pose proof (spec_pcm16_error q Hq) as H.
    destruct (Qlt_bool q 0); destruct H as [[H1 H2] H3]; (split; [|done]);
      remember (inject_Z (spec_pcm16 q)) as w eqn:Ew; clear - H1 H2 Hq.
    + split; [apply Qle_shift_div_l|apply Qlt_shift_div_r]; lra.
    + split; [apply Qlt_shift_div_l|apply Qle_shift_div_r]; lra.
Qed.

Lemma wav_quantisation_error_witness :
  ∃ blob v,
    audioBufferToWav (AudioBuffer.mk 44100 1 1 (fun _ _ => Fin (-0.3))) = Ok blob ∧
    getInt16 44 (blobBytes blob) = Some v ∧
    (-0.3 <= inject_Z v / 32768 < -0.3 + (1 # 32768))%Q ∧ v ≤ 0.
Proof.
  apply (wav_quantisation_error (AudioBuffer.mk 44100 1 1 (fun _ _ => Fin (-0.3))) 0 0 (-0.3));
    cbn; [lia|lia|lia|reflexivity|lra].
Defined.

(** ** Order and silence *)

Lemma truncate_mono p q : (p <= q)%Q → truncate p ≤ truncate q.
Proof.
  intros H. destruct (Qlt_le_dec q 0) as [Hq|Hq].
  - rewrite !truncate_nonpos by lra. by apply Qceiling_resp_le.
  - destruct (Qlt_le_dec p 0) as [Hp|Hp].
    + rewrite (truncate_nonpos p), (truncate_nonneg q) by lra.
      assert (Qceiling p ≤ Qceiling 0) by (apply Qceiling_resp_le; lra).
      assert (Qfloor 0 ≤ Qfloor q) by (by apply Qfloor_resp_le).
      change (Qceiling 0) with 0 in *. change (Qfloor 0) with 0 in *. lia.
    + rewrite !truncate_nonneg by lra. by apply Qfloor_resp_le.
Qed.

Lemma pcm16_mono q q' :
  (q <= q')%Q → pcm16 (-0.95) 0.95 (Fin q) ≤ pcm16 (-0.95) 0.95 (Fin q').
Proof.
  intros H. rewrite !pcm16_Fin. unfold spec_pcm16. cbv zeta.
  assert (Qmax (-0.95) (Qmin 0.95 q) <= Qmax (-0.95) (Qmin 0.95 q'))%Q as Hc.
  { apply Q.max_le_compat_l, Q.min_le_compat_l, H. }
  set (c := Qmax (-0.95) (Qmin 0.95 q)) in *. set (c' := Qmax (-0.95) (Qmin 0.95 q')) in *.
  destruct (Qlt_bool c 0) eqn:E; destruct (Qlt_bool c' 0) eqn:E'.
  - apply truncate_mono. lra.
  - apply Qlt_bool_true in E. apply Qlt_bool_false in E'.
    transitivity (truncate 0); apply truncate_mono; lra.
  - apply Qlt_bool_false in E. apply Qlt_bool_true in E'. lra.
  - apply Qlt_bool_false in E. apply truncate_mono. lra.
Qed.

(** X3. The encoder keeps the order of samples: of two finite samples of
    one buffer, whatever their size, the smaller is never stored as the
    larger integer.  The clamp flattens what lies outside [-0.95, 0.95] and
    the two scale factors meet at zero, but nothing wraps around. *)
Theorem wav_order_preserved (b : AudioBuffer.t) i c i' c' q q' :
  let nch := AudioBuffer.numberOfChannels b in
  (i < AudioBuffer.frames b)%nat → (c < nch)%nat →
  (i' < AudioBuffer.frames b)%nat → (c' < nch)%nat →
  AudioBuffer.samples b c i = Fin q → AudioBuffer.samples b c' i' = Fin q' →
  (q <= q')%Q →
  ∃ blob v v',
    audioBufferToWav b = Ok blob ∧
    getInt16 (44 + 2 * (i * nch + c)) (blobBytes blob) = Some v ∧
    getInt16 (44 + 2 * (i' * nch + c')) (blobBytes blob) = Some v' ∧
    v ≤ v'.
Proof.
  intros nch Hi Hc Hi' Hc' Hs Hs' Hq.
  eexists. exists (pcm16 (-0.95) 0.95 (Fin q)), (pcm16 (-0.95) 0.95 (Fin q')).
  split; [apply audioBufferToWav_bytes; fold nch; lia|].
  cbn [blobBytes]. fold nch.
  rewrite !wav_sample by done. rewrite Hs, Hs'.
  split; [done|]. split; [done|]. by apply pcm16_mono.
Qed.

Lemma wav_order_preserved_witness :
  ∃ blob v v',
    audioBufferToWav (fullScale 44100 2) = Ok blob ∧
    getInt16 46 (blobBytes blob) = Some v ∧
    getInt16 44 (blobBytes blob) = Some v' ∧
    v ≤ v'.
Proof.
  apply (wav_order_preserved (fullScale 44100 2) 0 1 0 0 (-1) 1);
    cbn; [lia|lia|lia|lia|reflexivity|reflexivity|lra].
Defined.

Lemma pcm16_below_one_step q :
  (- (1 # 32768) < q < 1 # 32767)%Q → pcm16 (-0.95) 0.95 (Fin q) = 0.
Proof.
  intros Hq. rewrite pcm16_Fin. unfold spec_pcm16. cbv zeta.
  pose proof (Qclamp_id (-0.95) 0.95 q ltac:(lra)) as Hc.
  rewrite (Qlt_bool_comp _ q 0 Hc).
  assert (∀ x, (-1 < x < 1)%Q → truncate x = 0) as Hz.
  { intros x Hx. assert (0 ≤ truncate x ≤ 0); [|lia].
    apply truncate_bounds; [lia| |]; unfold inject_Z; lra. }
  destruct (Qlt_bool q 0) eqn:E.
  - apply Qlt_bool_true in E.
    rewrite (truncate_comp _ (q * 32768)) by (by rewrite Hc). apply Hz. split; lra.
  - apply Qlt_bool_false in E.
    rewrite (truncate_comp _ (q * 32767)) by (by rewrite Hc). apply Hz. split; lra.
Qed.

Lemma flat_map_replicate {A} (x : A) (w n s : nat) :
  flat_map (fun _ => replicate w x) (seq s n) = replicate (n * w) x.
Proof.
  revert s. induction n as [|n IH]; intros s; [done|].
  cbn [seq flat_map]. rewrite IH. by rewrite <- replicate_add.
Qed.

Lemma pcmData_zero lo hi (b : AudioBuffer.t) nch :
  (∀ i c, (i < AudioBuffer.frames b)%nat → (c < nch)%nat →
     pcm16 lo hi (AudioBuffer.samples b c i) = 0) →
  pcmData lo hi b nch = replicate (AudioBuffer.frames b * nch * 2) 0.
Proof.
  intros H. unfold pcmData.
  rewrite (flat_map_ext_Forall _ (fun _ => replicate (nch * 2) 0)).
  - rewrite flat_map_replicate. f_equal. lia.
  - eapply Forall_impl; [apply Forall_seq_lt|]. intros i Hi. cbn beta in *.
    unfold pcmFrame.
    rewrite (flat_map_ext_Forall _ (fun _ => replicate 2 0)).
    + by rewrite flat_map_replicate.
    + eapply Forall_impl; [apply Forall_seq_lt|]. intros c Hc. cbn beta in *.
      by rewrite H.
Qed.

(** X4. What is not a number, and what is smaller than one quantisation
    step, is written as silence: if every sample of a buffer is [NaN] or
    lies strictly between -1/32768 and 1/32767, the data section of the
    file is all zero bytes. *)
Theorem wav_silence_threshold (b : AudioBuffer.t) :
  let nch := AudioBuffer.numberOfChannels b in
  (1 ≤ nch)%nat →
  (∀ i c, (i < AudioBuffer.frames b)%nat → (c < nch)%nat →
     AudioBuffer.samples b c i = NaN ∨
     ∃ q, AudioBuffer.samples b c i = Fin q ∧ (- (1 # 32768) < q < 1 # 32767)%Q) →
  ∃ blob,
    audioBufferToWav b = Ok blob ∧
    drop 44 (blobBytes blob) = replicate (AudioBuffer.frames b * nch * 2) 0.
Proof.
  intros nch Hch H. eexists. split; [by apply audioBufferToWav_bytes|].
  cbn [blobBytes]. fold nch.
  rewrite <- (wavHeader_length nch (AudioBuffer.sampleRate b) (AudioBuffer.frames b * nch * 2)) at 1.
  rewrite drop_app_length. apply pcmData_zero.
  intros i c Hi Hc. destruct (H i c Hi Hc) as [->|(q & -> & Hq)].
  - reflexivity.
  - by apply pcm16_below_one_step.
Qed.

Lemma wav_silence_threshold_witness :
  ∃ blob,
    audioBufferToWav (AudioBuffer.mk 48000 2 3
                        (fun c _ => if Nat.even c then NaN else Fin (1 # 40000))) = Ok blob ∧
    drop 44 (blobBytes blob) = replicate 12 0.
Proof.
  apply (wav_silence_threshold (AudioBuffer.mk 48000 2 3
           (fun c _ => if Nat.even c then NaN else Fin (1 # 40000)))).
  - cbn. lia.
  - intros i c _ _. cbn. destruct (Nat.even c); [by left|].
    right. exists (1 # 40000)%Q. split; [done|]. lra.
Defined.
(** * The signal graph *)

Lemma alter_app_r0 {A} (f : A → A) (l1 l2 : list A) :
  alter f (length l1) (l1 ++ l2) = l1 ++ alter f 0%nat l2.
Proof. rewrite <- (Nat.add_0_r (length l1)) at 1. apply alter_app_r. Qed.

(** Running a builder step by step on a graph [ns ++ news]: node numbers
    come out as [length ns + k], the new nodes as a literal list. *)
Ltac gnorm := repeat first
  [ rewrite <- app_assoc | rewrite length_app | rewrite <- Nat.add_assoc
  | rewrite alter_app_r | rewrite alter_app_r0
  | progress cbn [app length Nat.add alter list_alter nodeType assigned automation] ].

Ltac gstep :=
  rewrite runG_bind;
  cbn [runG createNode createGain createDelay createOscillator createBiquadFilter
       createBufferSource createDynamicsCompressor createWaveShaper createChannelSplitter
       createChannelMerger assign schedule connect connectAt connectParam start foldG
       nodes connections started mret G_ret fst snd lookup list_lookup];
  gnorm.

Ltac grun := repeat gstep;
  cbn [runG connect connectAt start nodes connections started mret G_ret]; gnorm.

Lemma createChorus_graph ns cs st input i :
  Qle_bool i 0 = false →
  runG (createChorus input i) (mkGraph ns cs st) =
  let n := length ns in
  ((n + 7)%nat,
   mkGraph
     (ns ++ [mkNode (ChannelSplitterNode 2) [] [];
             mkNode (ChannelMergerNode 2) [] [];
             mkNode DelayNode [("delayTime", VNum 0.02)] [];
             mkNode DelayNode [("delayTime", VNum 0.025)] [];
             mkNode OscillatorNode [("type", VStr "sine"); ("frequency", VNum 1.5)] [];
             mkNode GainNode [("gain", VNum (0.002 * i))] [];
             mkNode GainNode [("gain", VNum (-0.002 * i))] [];
             mkNode GainNode [("gain", VNum (0.5 * i))] []])
     (cs ++ [mkConnection input 0 (NodeInput n 0);
             mkConnection (n + 4) 0 (NodeInput (n + 5) 0);
             mkConnection (n + 5) 0 (Param (n + 2) "delayTime");
             mkConnection (n + 4) 0 (NodeInput (n + 6) 0);
             mkConnection (n + 6) 0 (Param (n + 3) "delayTime");
             mkConnection n 0 (NodeInput (n + 2) 0);
             mkConnection n 1 (NodeInput (n + 3) 0);
             mkConnection (n + 2) 0 (NodeInput (n + 1) 0);
             mkConnection (n + 3) 0 (NodeInput (n + 1) 1);
             mkConnection (n + 1) 0 (NodeInput (n + 7) 0);
             mkConnection input 0 (NodeInput (n + 7) 0)])
     (st ++ [(n + 4)%nat])).
Proof. intros H. unfold createChorus. rewrite H. by grun. Qed.

Lemma createPhaser_graph ns cs st input i :
  Qle_bool i 0 = false →
  runG (createPhaser input i) (mkGraph ns cs st) =
  let n := length ns in
  ((n + 6)%nat,
   mkGraph
     (ns ++ [mkNode BiquadFilterNode [("type", VStr "allpass"); ("frequency", VNum 1000)] [];
             mkNode BiquadFilterNode [("type", VStr "allpass"); ("frequency", VNum 1000)] [];
             mkNode BiquadFilterNode [("type", VStr "allpass"); ("frequency", VNum 1000)] [];
             mkNode BiquadFilterNode [("type", VStr "allpass"); ("frequency", VNum 1000)] [];
             mkNode OscillatorNode [("type", VStr "triangle"); ("frequency", VNum 0.5)] [];
             mkNode GainNode [("gain", VNum (800 * i))] [];
             mkNode GainNode [] [];
             mkNode GainNode [("gain", VNum (0.4 * i))] []])
     (cs ++ [mkConnection input 0 (NodeInput n 0);
             mkConnection n 0 (NodeInput (n + 1) 0);
             mkConnection (n + 1) 0 (NodeInput (n + 2) 0);
             mkConnection (n + 2) 0 (NodeInput (n + 3) 0);
             mkConnection (n + 4) 0 (NodeInput (n + 5) 0);
             mkConnection (n + 5) 0 (Param n "frequency");
             mkConnection (n + 5) 0 (Param (n + 1) "frequency");
             mkConnection (n + 5) 0 (Param (n + 2) "frequency");
             mkConnection (n + 5) 0 (Param (n + 3) "frequency");
             mkConnection (n + 3) 0 (NodeInput (n + 6) 0);
             mkConnection input 0 (NodeInput (n + 6) 0);
             mkConnection (n + 3) 0 (NodeInput (n + 7) 0);
             mkConnection (n + 7) 0 (NodeInput n 0)])
     (st ++ [(n + 4)%nat])).
Proof. intros H. unfold createPhaser. rewrite H. cbv zeta. cbn [seq foldG]. by grun. Qed.

Lemma createFlanger_graph ns cs st input i :
  Qle_bool i 0 = false →
  runG (createFlanger input i) (mkGraph ns cs st) =
  let n := length ns in
  ((n + 4)%nat,
   mkGraph
     (ns ++ [mkNode DelayNode [("delayTime", VNum 0.003)] [];
             mkNode GainNode [("gain", VNum (0.5 * i))] [];
             mkNode OscillatorNode [("frequency", VNum 0.3)] [];
             mkNode GainNode [("gain", VNum (0.002 * i))] [];
             mkNode GainNode [("gain", VNum 0.5)] []])
     (cs ++ [mkConnection (n + 2) 0 (NodeInput (n + 3) 0);
             mkConnection (n + 3) 0 (Param n "delayTime");
             mkConnection input 0 (NodeInput n 0);
             mkConnection n 0 (NodeInput (n + 1) 0);
             mkConnection (n + 1) 0 (NodeInput n 0);
             mkConnection n 0 (NodeInput (n + 4) 0);
             mkConnection input 0 (NodeInput (n + 4) 0)])
     (st ++ [(n + 2)%nat])).
Proof. intros H. unfold createFlanger. rewrite H. by grun. Qed.
(** ** Signal paths *)

Lemma reaches_trans g a b c : reaches g a b → reaches g b c → reaches g a c.
Proof. induction 1; [done|]. intros. eapply reaches_next; eauto. Qed.

Lemma edge_mono g g' a b :
  connections g `prefix_of` connections g' → edge g a b → edge g' a b.
Proof.
  intros [k Hk] (out & inp & H). exists out, inp. rewrite Hk.
  apply elem_of_app. by left.
Qed.

Lemma reaches_mono g g' a b :
  connections g `prefix_of` connections g' → reaches g a b → reaches g' a b.
Proof.
  intros Hp. induction 1; [apply reaches_here|].
  eapply reaches_next; [by eapply edge_mono|done].
Qed.

Lemma extends_refl g chain : extends g g chain chain.
Proof.
  repeat split; [done| |done|done|apply reaches_here].
  exists []. by rewrite app_nil_r.
Qed.

Lemma extends_nodes g g' a b : extends g g' a b → (length (nodes g) ≤ length (nodes g'))%nat.
Proof. intros (H & _). by apply prefix_length. Qed.

Lemma extends_trans g g' g'' a b c :
  extends g g' a b → extends g' g'' b c → extends g g'' a c.
Proof.
  intros H1 H2.
  pose proof (extends_nodes _ _ _ _ H1) as L1. pose proof (extends_nodes _ _ _ _ H2) as L2.
  destruct H1 as (N1 & (cs1 & C1 & F1) & S1 & V1 & R1).
  destruct H2 as (N2 & (cs2 & C2 & F2) & S2 & V2 & R2).
  split; [by etrans|]. split.
  { exists (cs1 ++ cs2). split; [by rewrite C2, C1, app_assoc|].
    apply Forall_app. split; (eapply Forall_impl; [eassumption|]); cbn beta; intros; lia. }
  split; [by etrans|]. split; [auto|].
  eapply reaches_trans; [|exact R2].
  eapply reaches_mono; [|exact R1]. exists cs2. exact C2.
Qed.

Ltac edge_solve :=
  do 2 eexists; cbn [connections]; apply elem_of_app; right;
  repeat first [apply list_elem_of_here | apply list_elem_of_further].

(** A stage run on [mkGraph ns cs st] and brought to its literal form
    extends the graph; [path] proves the signal path. *)
Ltac extends_solve path :=
  unfold extends; cbn [nodes connections started fst snd];
  split; [by apply prefix_app_r|];
  split; [eexists; split; [reflexivity|];
          repeat constructor; cbn [targetNode target]; rewrite ?length_app; cbn [length]; lia|];
  split; [first [done | by apply prefix_app_r]|];
  split; [rewrite ?length_app; cbn [length]; lia|];
  path.

Lemma createChorus_extends input i g :
  extends g (runG (createChorus input i) g).2 input (runG (createChorus input i) g).1.
Proof.
  destruct (Qle_bool i 0) eqn:E.
  - unfold createChorus. rewrite E. apply extends_refl.
  - destruct g as [ns cs st]. rewrite createChorus_graph by done. cbv zeta.
    extends_solve ltac:(apply (reaches_next _ _ (length ns + 7)%nat);
                        [edge_solve|apply reaches_here]).
Qed.

Lemma createPhaser_extends input i g :
  extends g (runG (createPhaser input i) g).2 input (runG (createPhaser input i) g).1.
Proof.
  destruct (Qle_bool i 0) eqn:E.
  - unfold createPhaser. rewrite E. apply extends_refl.
  - destruct g as [ns cs st]. rewrite createPhaser_graph by done. cbv zeta.
    extends_solve ltac:(apply (reaches_next _ _ (length ns + 6)%nat);
                        [edge_solve|apply reaches_here]).
Qed.

Lemma createFlanger_extends input i g :
  extends g (runG (createFlanger input i) g).2 input (runG (createFlanger input i) g).1.
Proof.
  destruct (Qle_bool i 0) eqn:E.
  - unfold createFlanger. rewrite E. apply extends_refl.
  - destruct g as [ns cs st]. rewrite createFlanger_graph by done. cbv zeta.
    extends_solve ltac:(apply (reaches_next _ _ (length ns + 4)%nat);
                        [edge_solve|apply reaches_here]).
Qed.
(** ** The stages of the chain *)

Lemma bind_extends {A} (m : G nat) (k : nat → G A) g :
  runG (m ≫= k) g = runG (k (runG m g).1) (runG m g).2.
Proof. rewrite runG_bind. by destruct (runG m g). Qed.

Lemma creativeFxLayer_extends options chain g :
  extends g (runG (creativeFxLayer options chain) g).2 chain
            (runG (creativeFxLayer options chain) g).1.
Proof.
  unfold creativeFxLayer. rewrite !bind_extends.
  set (m1 := if Qlt_bool 0 (chorus (creativeFx options)) then _ else _).
  assert (extends g (runG m1 g).2 chain (runG m1 g).1) as H1.
  { unfold m1. destruct (Qlt_bool 0 (chorus (creativeFx options)));
      [apply createChorus_extends|apply extends_refl]. }
  destruct (runG m1 g) as [c1 g1]. cbn [fst snd] in *.
  set (m2 := if Qlt_bool 0 (phaser (creativeFx options)) then _ else _).
  assert (extends g1 (runG m2 g1).2 c1 (runG m2 g1).1) as H2.
  { unfold m2. destruct (Qlt_bool 0 (phaser (creativeFx options)));
      [apply createPhaser_extends|apply extends_refl]. }
  destruct (runG m2 g1) as [c2 g2]. cbn [fst snd] in *.
  eapply extends_trans; [exact H1|]. eapply extends_trans; [exact H2|].
  destruct (Qlt_bool 0 (flanger (creativeFx options)));
    [apply createFlanger_extends|apply extends_refl].
Qed.

Lemma surgicalNaturalizer_extends options chain g :
  extends g (runG (surgicalNaturalizer options chain) g).2 chain
            (runG (surgicalNaturalizer options chain) g).1.
Proof.
  unfold surgicalNaturalizer. destruct (enableNaturalizer options); [|apply extends_refl].
  destruct g as [ns cs st]. grun.
  extends_solve ltac:(
    apply (reaches_next _ _ (length ns)); [edge_solve|];
    apply (reaches_next _ _ (length ns + 1)%nat); [edge_solve|];
    apply (reaches_next _ _ (length ns + 2)%nat); [edge_solve|];
    apply (reaches_next _ _ (length ns + 3)%nat); [edge_solve|apply reaches_here]).
Qed.

Lemma tonalShaping_extends options chain g :
  extends g (runG (tonalShaping options chain) g).2 chain
            (runG (tonalShaping options chain) g).1.
Proof.
  unfold tonalShaping. destruct g as [ns cs st]. grun.
  extends_solve ltac:(
    apply (reaches_next _ _ (length ns)); [edge_solve|];
    apply (reaches_next _ _ (length ns + 1)%nat); [edge_solve|apply reaches_here]).
Qed.

Lemma softEnvelope_extends options chain g :
  extends g (runG (softEnvelope options chain) g).2 chain
            (runG (softEnvelope options chain) g).1.
Proof.
  unfold softEnvelope. destruct g as [ns cs st]. grun.
  extends_solve ltac:(
    apply (reaches_next _ _ (length ns)); [edge_solve|apply reaches_here]).
Qed.

Lemma gainSmoothing_extends options chain g :
  extends g (runG (gainSmoothing options chain) g).2 chain
            (runG (gainSmoothing options chain) g).1.
Proof.
  unfold gainSmoothing. destruct (enableWarmth options); [|apply extends_refl].
  destruct g as [ns cs st]. grun.
  extends_solve ltac:(
    apply (reaches_next _ _ (length ns)); [edge_solve|apply reaches_here]).
Qed.

Lemma finalLeveling_extends options chain g :
  extends g (runG (finalLeveling options chain) g).2 chain
            (runG (finalLeveling options chain) g).1.
Proof.
  unfold finalLeveling. destruct g as [ns cs st]. grun.
  extends_solve ltac:(
    apply (reaches_next _ _ (length ns)); [edge_solve|];
    apply (reaches_next _ _ (length ns + 1)%nat); [edge_solve|apply reaches_here]).
Qed.

Lemma fades_extends audioBuffer options chain g :
  extends g (runG (fades audioBuffer options chain) g).2 chain
            (runG (fades audioBuffer options chain) g).1.
Proof.
  unfold fades. destruct (enableFades options); [|apply extends_refl].
  destruct g as [ns cs st]. cbv zeta. grun.
  extends_solve ltac:(
    apply (reaches_next _ _ (length ns)); [edge_solve|apply reaches_here]).
Qed.

Lemma chainStart_graph audioBuffer options :
  runG (chainStart audioBuffer options) emptyGraph
  = ((1%nat, 3%nat), chainStartGraph audioBuffer options).
Proof.
  unfold chainStart, emptyGraph.
  change [mkNode AudioDestinationNode [] []] with ([] ++ [mkNode AudioDestinationNode [] []]).
  grun. reflexivity.
Qed.
(** The whole chain: what the stages add to the chain start, then the
    connection to the destination and the start of the source. *)
Lemma masteringGraph_stages audioBuffer options :
  ∃ g chain,
    extends (chainStartGraph audioBuffer options) g 3 chain ∧
    (runG (masteringGraph audioBuffer options) emptyGraph).2
    = mkGraph (nodes g)
              (connections g ++ [mkConnection chain 0 (NodeInput destination 0)])
              (started g ++ [1%nat]).
Proof.
  unfold masteringGraph. rewrite runG_bind, chainStart_graph.
  set (g0 := chainStartGraph audioBuffer options).
  rewrite bind_extends.
  pose proof (creativeFxLayer_extends options 3 g0) as E1.
  destruct (runG (creativeFxLayer options 3) g0) as [c1 g1]. cbn [fst snd] in *.
  rewrite bind_extends.
  pose proof (surgicalNaturalizer_extends options c1 g1) as E2.
  destruct (runG (surgicalNaturalizer options c1) g1) as [c2 g2]. cbn [fst snd] in *.
  rewrite bind_extends.
  pose proof (tonalShaping_extends options c2 g2) as E3.
  destruct (runG (tonalShaping options c2) g2) as [c3 g3]. cbn [fst snd] in *.
  rewrite bind_extends.
  pose proof (softEnvelope_extends options c3 g3) as E4.
  destruct (runG (softEnvelope options c3) g3) as [c4 g4]. cbn [fst snd] in *.
  rewrite bind_extends.
  pose proof (gainSmoothing_extends options c4 g4) as E5.
  destruct (runG (gainSmoothing options c4) g4) as [c5 g5]. cbn [fst snd] in *.
  rewrite bind_extends.
  pose proof (finalLeveling_extends options c5 g5) as E6.
  destruct (runG (finalLeveling options c5) g5) as [c6 g6]. cbn [fst snd] in *.
  rewrite bind_extends.
  pose proof (fades_extends audioBuffer options c6 g6) as E7.
  destruct (runG (fades audioBuffer options c6) g6) as [c7 g7]. cbn [fst snd] in *.
  exists g7, c7. split.
  - repeat (eapply extends_trans; [eassumption|]). apply extends_refl.
  - rewrite runG_bind. reflexivity.
Qed.

Lemma filter_none {A} (P : A → Prop) `{∀ x, Decision (P x)} (l : list A) :
  Forall (fun x => ¬ P x) l → filter P l = [].
Proof.
  induction 1 as [|x l Hx _ IH]; [done|].
  rewrite filter_cons. by destruct (decide (P x)).
Qed.

(** X5. Whatever the options, the mastering graph is one chain: the buffer
    source (node 1, holding the decoded audio, started once) reaches the
    destination through node-to-node connections, and the destination has
    exactly one incoming connection, the one made last; no stage and no
    modulation unit connects to it on the side. *)
Theorem mastering_chain_connected audioBuffer options :
  let g := (runG (masteringGraph audioBuffer options) emptyGraph).2 in
  nodes g !! 1%nat
    = Some (mkNode AudioBufferSourceNode [("buffer", VBuffer audioBuffer)] []) ∧
  1%nat ∈ started g ∧
  reaches g 1 destination ∧
  ∃ last, filter (fun c => targetNode c = destination) (connections g)
          = [mkConnection last 0 (NodeInput destination 0)] ∧
          last ≠ destination.
Proof.
  destruct (masteringGraph_stages audioBuffer options)
    as (g7 & c7 & (N & (cs & C & F) & S & V & R) & ->).
  cbv zeta. cbn [nodes connections started].
  split.
  { destruct N as [k ->]. reflexivity. }
  split.
  { apply elem_of_app. right. apply list_elem_of_here. }
  assert (connections g7 `prefix_of`
          connections g7 ++ [mkConnection c7 0 (NodeInput destination 0)]) as P
    by (by apply prefix_app_r).
  split.
  { apply (reaches_next _ _ 2%nat).
    { exists 0%nat, 0%nat. cbn [connections]. rewrite C.
      apply elem_of_app. left. apply elem_of_app. left. apply list_elem_of_here. }
    apply (reaches_next _ _ 3%nat).
    { exists 0%nat, 0%nat. cbn [connections]. rewrite C.
      apply elem_of_app. left. apply elem_of_app. left.
      apply list_elem_of_further, list_elem_of_here. }
    eapply reaches_trans.
    - eapply reaches_mono; [|exact R]. exact P.
    - apply (reaches_next _ _ destination); [|apply reaches_here].
      exists 0%nat, 0%nat. cbn [connections]. apply elem_of_app. right. apply list_elem_of_here. }
  exists c7. split.
  - rewrite C. rewrite !filter_app.
    rewrite (filter_none _ cs).
    + reflexivity.
    + eapply Forall_impl; [exact F|]. cbn. intros c Hc. unfold destination. lia.
  - specialize (V ltac:(cbn; lia)).
    intros ->. unfold destination in *.
    (* the chain never comes back to the destination *)
    clear -R C F. cbn in F.
    assert (∀ a b, reaches g7 a b → a ≠ 0%nat → b ≠ 0%nat) as Hr.
    { induction 1 as [|a b c (out & inp & He) _ IH]; [done|].
      intros Ha. apply IH. rewrite C in He.
      apply elem_of_app in He as [He|He].
      - cbn in He. repeat (apply elem_of_cons in He as [He|He]; [by inversion He|]).
        by apply elem_of_nil in He.
      - rewrite Forall_forall in F. specialize (F _ He). cbn in F. lia. }
    by apply (Hr 3%nat 0%nat R).
Qed.
(** ** The modulation units at work *)

(** X6. With a positive intensity each unit only adds to the graph: the
    nodes, connections and started sources that were there stay as they
    were, every new connection ends in a new node, and one oscillator is
    started.  The chorus adds 8 nodes, the phaser 8, the flanger 5.  The node
    returned is a new gain node that the input feeds directly, next to the
    modulated path: its gain, [0.5 * intensity] in the chorus, [0.5] in the
    flanger and left at its default in the phaser, therefore scales the dry
    signal as well. *)
Theorem modulation_units_active (g : Graph) (input : nat) (intensity : Q) :
  (0 < intensity)%Q →
  let n := length (nodes g) in
  let active (unit : nat → Q → G nat) (added : nat) (gain : list (string * Value)) :=
    let out := (runG (unit input intensity) g).1 in
    let g' := (runG (unit input intensity) g).2 in
    extends g g' input out ∧
    length (nodes g') = (n + added)%nat ∧
    (n ≤ out)%nat ∧
    nodes g' !! out = Some (mkNode GainNode gain []) ∧
    edge g' input out ∧
    ∃ lfo node, started g' = started g ++ [lfo] ∧
                nodes g' !! lfo = Some node ∧ nodeType node = OscillatorNode in
  active createChorus 8%nat [("gain", VNum (0.5 * intensity))] ∧
  active createPhaser 8%nat [] ∧
  active createFlanger 5%nat [("gain", VNum 0.5)].
Proof.
  intros Hi n active. apply Qle_bool_false in Hi. subst active. cbv beta zeta.
  split; [|split].
  - split; [apply createChorus_extends|].
    destruct g as [ns cs st]. rewrite createChorus_graph by done. subst n.
    cbv zeta. cbn [fst snd nodes connections started].
    split; [rewrite length_app; reflexivity|]. split; [lia|].
    split; [by rewrite lookup_app_r, Nat.add_comm, Nat.add_sub by lia|].
    split; [edge_solve|].
    eexists _, _. split; [reflexivity|].
    split; [by rewrite lookup_app_r, Nat.add_comm, Nat.add_sub by lia|]. reflexivity.
  - split; [apply createPhaser_extends|].
    destruct g as [ns cs st]. rewrite createPhaser_graph by done. subst n.
    cbv zeta. cbn [fst snd nodes connections started].
    split; [rewrite length_app; reflexivity|]. split; [lia|].
    split; [by rewrite lookup_app_r, Nat.add_comm, Nat.add_sub by lia|].
    split; [edge_solve|].
    eexists _, _. split; [reflexivity|].
    split; [by rewrite lookup_app_r, Nat.add_comm, Nat.add_sub by lia|]. reflexivity.
  - split; [apply createFlanger_extends|].
    destruct g as [ns cs st]. rewrite createFlanger_graph by done. subst n.
    cbv zeta. cbn [fst snd nodes connections started].
    split; [rewrite length_app; reflexivity|]. split; [lia|].
    split; [by rewrite lookup_app_r, Nat.add_comm, Nat.add_sub by lia|].
    split; [edge_solve|].
    eexists _, _. split; [reflexivity|].
    split; [by rewrite lookup_app_r, Nat.add_comm, Nat.add_sub by lia|]. reflexivity.
Qed.

Lemma modulation_units_active_witness :
  length (nodes (runG (createChorus 0 0.2) emptyGraph).2) = 9%nat ∧
  nodes (runG (createChorus 0 0.2) emptyGraph).2 !! (runG (createChorus 0 0.2) emptyGraph).1
    = Some (mkNode GainNode [("gain", VNum (0.5 * 0.2))] []) ∧
  edge (runG (createChorus 0 0.2) emptyGraph).2 0 (runG (createChorus 0 0.2) emptyGraph).1.
Proof.
  destruct (modulation_units_active emptyGraph 0 0.2) as ((_ & Hn & _ & Hout & He & _) & _);
    [reflexivity|].
  split; [exact Hn|]. split; [exact Hout|exact He].
Defined.

(** X7. The phaser closes a loop that holds no delay: its four all-pass
    filters are chained, the last feeds the feedback gain, and the feedback
    gain feeds the first filter again; none of the nodes the phaser creates
    is a [DelayNode].  The flanger closes a loop as well, between its delay
    line and its feedback gain, and there the loop does pass through a
    [DelayNode]. *)
Theorem feedback_loops (g : Graph) (input : nat) (intensity : Q) :
  (0 < intensity)%Q →
  let n := length (nodes g) in
  (let g' := (runG (createPhaser input intensity) g).2 in
   edge g' n (n + 1) ∧ edge g' (n + 1) (n + 2) ∧ edge g' (n + 2) (n + 3) ∧
   edge g' (n + 3) (n + 7) ∧ edge g' (n + 7) n ∧
   ∀ k node, (n ≤ k)%nat → nodes g' !! k = Some node → nodeType node ≠ DelayNode) ∧
  (let g' := (runG (createFlanger input intensity) g).2 in
   edge g' n (n + 1) ∧ edge g' (n + 1) n ∧
   ∃ node, nodes g' !! n = Some node ∧ nodeType node = DelayNode).
Proof.
  intros Hi n. apply Qle_bool_false in Hi. split.
  - destruct g as [ns cs st]. rewrite createPhaser_graph by done. subst n.
    cbv zeta. cbn [fst snd nodes connections started].
    do 5 (split; [edge_solve|]).
    intros k node Hk. rewrite lookup_app_r by done.
    remember (k - length ns)%nat as j eqn:Ej. clear.
    do 8 (destruct j as [|j]; [intros [= <-]; done|]). done.
  - destruct g as [ns cs st]. rewrite createFlanger_graph by done. subst n.
    cbv zeta. cbn [fst snd nodes connections started].
    do 2 (split; [edge_solve|]).
    eexists. split.
    + rewrite lookup_app_r by done. by rewrite Nat.sub_diag.
    + reflexivity.
Qed.

Lemma feedback_loops_witness :
  edge (runG (createPhaser 0 0.5) emptyGraph).2 1 2 ∧
  edge (runG (createPhaser 0 0.5) emptyGraph).2 4 8 ∧
  edge (runG (createPhaser 0 0.5) emptyGraph).2 8 1 ∧
  edge (runG (createFlanger 0 0.5) emptyGraph).2 1 2 ∧
  edge (runG (createFlanger 0 0.5) emptyGraph).2 2 1.
Proof.
  destruct (feedback_loops emptyGraph 0 0.5) as ((H1 & _ & _ & H4 & H5 & _) & (H6 & H7 & _));
    [reflexivity|].
  repeat split; assumption.
Defined.
(** ** Options the chain does not read *)

Lemma masteringGraph_ext audioBuffer (o o' : AudioProcessOptions) :
  isHigh (intensity o) = isHigh (intensity o') →
  enableWarmth o = enableWarmth o' →
  enableFades o = enableFades o' →
  enableNaturalizer o = enableNaturalizer o' →
  creativeFx o = creativeFx o' →
  isPreset electronic (preset o) = isPreset electronic (preset o') →
  isPreset pop (preset o) = isPreset pop (preset o') →
  masteringGraph audioBuffer o = masteringGraph audioBuffer o'.
Proof.
  intros Hi Hw Hf Hn Hfx He Hp.
  unfold masteringGraph, chainStart, creativeFxLayer, surgicalNaturalizer, tonalShaping,
    softEnvelope, gainSmoothing, finalLeveling, fades, config.
  cbn [safetyHeadroom compThreshold compRatio finalGain].
  by rewrite Hi, Hw, Hf, Hn, Hfx, He, Hp.
Qed.

Lemma bind_Throw {A B} (e : jsError) (k : A → result B) : (Throw e ≫= k) = Throw e.
Proof. reflexivity. Qed.

(** X8. The result of [processAudio] depends on the options only through:
    whether the intensity is [high], the three switches, the export format,
    the three modulation amounts, and whether the preset is [electronic] or
    [pop].  The stereo width is never read, [low] and [medium] intensity are
    the same setting, and the presets [balanced], [rock] and [lofi] (or none)
    are the same preset: two sets of options that agree on the former build
    the same graph and return the same file or the same error. *)
Theorem processAudio_reads_only (pf : Platform) (file : File) (o o' : AudioProcessOptions) :
  isHigh (intensity o) = isHigh (intensity o') →
  enableWarmth o = enableWarmth o' →
  enableFades o = enableFades o' →
  enableNaturalizer o = enableNaturalizer o' →
  exportFormat o = exportFormat o' →
  creativeFx o = creativeFx o' →
  isPreset electronic (preset o) = isPreset electronic (preset o') →
  isPreset pop (preset o) = isPreset pop (preset o') →
  (∀ audioBuffer, masteringGraph audioBuffer o = masteringGraph audioBuffer o') ∧
  processAudio pf file o = processAudio pf file o'.
Proof.
  intros Hi Hw Hf Hn Hx Hfx He Hp.
  assert (∀ audioBuffer, masteringGraph audioBuffer o = masteringGraph audioBuffer o') as Hg
    by (intros; by apply masteringGraph_ext).
  split; [exact Hg|].
  unfold processAudio, renderMaster. rewrite Hx.
  destruct (arrayBuffer file) as [bytes|e]; [|by rewrite !bind_Throw]. rewrite !bind_Ok.
  destruct (decodeAudioData pf bytes) as [src|e]; [|by rewrite !bind_Throw]. rewrite !bind_Ok.
  cbv zeta. rewrite (Hg src). reflexivity.
Qed.

Lemma processAudio_reads_only_witness :
  (∀ audioBuffer,
     masteringGraph audioBuffer defaultOptions
     = masteringGraph audioBuffer
         (mkOptions low wide true true true mp3 (Some lofi) (mkCreativeFx 0 0 0))) ∧
  processAudio (platformDecoding twoSeconds) someFile defaultOptions
  = processAudio (platformDecoding twoSeconds) someFile
      (mkOptions low wide true true true mp3 (Some lofi) (mkCreativeFx 0 0 0)).
Proof.
  apply (processAudio_reads_only (platformDecoding twoSeconds) someFile defaultOptions
           (mkOptions low wide true true true mp3 (Some lofi) (mkCreativeFx 0 0 0)));
    reflexivity.
Defined.
(** ** The fade gain for every duration *)

Lemma ramp_bounds (v0 v1 t0 t1 t : Q) :
  (0 <= v0 <= 1)%Q → (0 <= v1 <= 1)%Q → (t0 <= t)%Q → (t < t1)%Q →
  (0 <= v0 + (v1 - v0) * ((t - t0) / (t1 - t0)) <= 1)%Q.
Proof.
  intros H0 H1 Ht0 Ht1.
  assert (0 <= (t - t0) / (t1 - t0) <= 1)%Q as Hx.
  { split.
    - apply Qle_shift_div_l; lra.
    - apply Qle_shift_div_r; lra. }
  set (x := ((t - t0) / (t1 - t0))%Q) in *. clearbody x. nra.
Qed.

(** An automation whose values all lie in [0, 1] never leaves [0, 1]. *)
Lemma valueFrom_bounds timeline : ∀ v0 t0 t,
  Forall (fun e => (0 <= eventValue e <= 1)%Q) timeline →
  (0 <= v0 <= 1)%Q → (t0 <= t)%Q →
  (0 <= valueFrom v0 t0 timeline t <= 1)%Q.
Proof.
  induction timeline as [|e rest IH]; intros v0 t0 t Hall Hv Ht; [done|].
  apply Forall_cons in Hall as [He Hrest]. cbn [valueFrom].
  destruct (Qle_bool (eventTime e) t) eqn:E.
  - apply IH; [done|done|]. by apply Qle_bool_iff.
  - destruct e as [v1 t1|v1 t1]; [done|].
    apply ramp_bounds; [done|done|done|].
    cbn [eventTime] in E. apply Qnot_le_lt. intros Hle.
    apply Qle_bool_iff in Hle. congruence.
Qed.

Lemma insertEvent_Forall (P : AutomationEvent → Prop) e timeline :
  P e → Forall P timeline → Forall P (insertEvent e timeline).
Proof.
  intros He. induction 1 as [|x rest Hx Hrest IH]; cbn [insertEvent].
  - by constructor.
  - destruct (Qle_bool _ _); [by constructor|]. constructor; [done|]. by constructor.
Qed.

Lemma timelineOf_Forall (P : AutomationEvent → Prop) events :
  Forall P events → Forall P (timelineOf events).
Proof.
  unfold timelineOf. intros H.
  assert (Forall P (@nil AutomationEvent)) as Hacc by constructor.
  revert Hacc. generalize (@nil AutomationEvent) as acc.
  induction H as [|e rest He Hrest IH]; intros acc Hacc; cbn [foldl]; [done|].
  apply IH. by apply insertEvent_Forall.
Qed.

(** The fader's timeline, by the length of the source. *)
Lemma fade_timeline_short (d fos : Q) :
  (0 <= fos < 0.8)%Q → (fos <= d)%Q →
  timelineOf [SetValueAtTime 0 0; LinearRampToValueAtTime 1 0.8;
              SetValueAtTime 1 fos; LinearRampToValueAtTime 0 d]
  = if Qle_bool 0.8 d
    then [SetValueAtTime 0 0; SetValueAtTime 1 fos;
          LinearRampToValueAtTime 1 0.8; LinearRampToValueAtTime 0 d]
    else [SetValueAtTime 0 0; SetValueAtTime 1 fos;
          LinearRampToValueAtTime 0 d; LinearRampToValueAtTime 1 0.8].
Proof.
  intros Hfos Hd. unfold timelineOf. cbn [foldl insertEvent eventTime].
  rewrite (Qle_bool_true 0 0.8) by lra. cbn [insertEvent eventTime].
  rewrite (Qle_bool_true 0 fos) by lra. cbn [insertEvent eventTime].
  rewrite (Qle_bool_false 0.8 fos) by lra.
  rewrite (Qle_bool_true 0 d) by lra. cbn [insertEvent eventTime].
  rewrite (Qle_bool_true fos d) by lra. cbn [insertEvent eventTime].
  by destruct (Qle_bool 0.8 d).
Qed.

(** X9. With [enableFades] set, and whatever the length of the source, the
    last stage before the destination is a gain that stays within [0, 1] at
    every time and is 0 at the end of the source.  At time 0 it is 0 when the
    source is longer than 3 s, and 1 (no fade-in at the first sample) when it
    is 3 s or shorter. *)
Theorem fade_gain_every_duration (audioBuffer : AudioBuffer.t) (options : AudioProcessOptions) :
  enableFades options = true →
  let d := AudioBuffer.duration audioBuffer in
  (0 < d)%Q →
  ∃ fader,
    finalStage (runG (masteringGraph audioBuffer options) emptyGraph).2 = Some fader ∧
    (∀ t, (0 <= t)%Q → (0 <= paramValueAtTime 1 fader "gain" t <= 1)%Q) ∧
    (paramValueAtTime 1 fader "gain" d == 0)%Q ∧
    (paramValueAtTime 1 fader "gain" 0 == if Qle_bool d 3 then 1 else 0)%Q.
Proof.
  intros Hf d Hd. eexists. split; [by apply masteringGraph_fader|].
  change (AudioBuffer.duration audioBuffer) with d. clearbody d.
  unfold paramValueAtTime. rewrite fader_events.
  set (fos := Qmax 0 (d - 3.0)).
  split.
  { intros t Ht. apply valueFrom_bounds; [|lra|done].
    apply timelineOf_Forall. repeat constructor; cbn [eventValue]; lra. }
  destruct (Qlt_le_dec d 3.8) as [Hshort|Hlong].
  - assert (0 <= fos < 0.8)%Q as Hfos.
    { unfold fos. destruct (Q.max_spec 0 (d - 3.0)) as [[H ->]|[H ->]]; split; lra. }
    assert (fos <= d)%Q as Hfd.
    { unfold fos. destruct (Q.max_spec 0 (d - 3.0)) as [[H ->]|[H ->]]; lra. }
    rewrite fade_timeline_short by done.
    split.
    + destruct (Qle_bool 0.8 d) eqn:E.
      * apply Qle_bool_iff in E. cbn [valueFrom eventTime eventValue].
        rewrite (Qle_bool_true 0 d), (Qle_bool_true fos d), (Qle_bool_true 0.8 d),
          (Qle_bool_true d d) by lra. reflexivity.
      * assert (d < 0.8)%Q as E'.
        { apply Qnot_le_lt. intros H. apply Qle_bool_iff in H. congruence. }
        cbn [valueFrom eventTime eventValue].
        rewrite (Qle_bool_true 0 d), (Qle_bool_true fos d), (Qle_bool_true d d),
          (Qle_bool_false 0.8 d) by lra.
        assert (d - d == 0)%Q as -> by lra. field. lra.
    + destruct (Qle_bool d 3) eqn:E3.
      * apply Qle_bool_iff in E3.
        assert (fos == 0)%Q as Hz.
        { unfold fos. rewrite Q.max_l; lra. }
        destruct (Qle_bool 0.8 d) eqn:E; cbn [valueFrom eventTime eventValue];
          rewrite (Qle_bool_true 0 0), (Qle_bool_true fos 0) by lra.
        -- rewrite (Qle_bool_false 0.8 0) by lra.
           assert (0 - fos == 0)%Q as -> by lra. field. lra.
        -- rewrite (Qle_bool_false d 0) by lra.
           assert (0 - fos == 0)%Q as -> by lra. field. lra.
      * assert (3 < d)%Q as E3'.
        { apply Qnot_le_lt. intros H. apply Qle_bool_iff in H. congruence. }
        assert (0 < fos)%Q as Hz.
        { unfold fos. rewrite Q.max_r; lra. }
        rewrite (Qle_bool_true 0.8 d) by lra. cbn [valueFrom eventTime eventValue].
        rewrite (Qle_bool_true 0 0), (Qle_bool_false fos 0) by lra. reflexivity.
  - assert (fos == d - 3)%Q as Hfos.
    { unfold fos. rewrite Q.max_r; lra. }
    rewrite fade_timeline by lra.
    split.
    + cbn [valueFrom eventTime eventValue].
      rewrite (Qle_bool_true 0 d), (Qle_bool_true 0.8 d), (Qle_bool_true fos d),
        (Qle_bool_true d d) by lra. reflexivity.
    + rewrite (Qle_bool_false d 3) by lra. cbn [valueFrom eventTime eventValue].
      rewrite (Qle_bool_true 0 0), (Qle_bool_false 0.8 0) by lra. field.
Qed.

Lemma fade_gain_every_duration_witness :
  ∃ fader,
    finalStage (runG (masteringGraph twoSeconds defaultOptions) emptyGraph).2 = Some fader ∧
    (∀ t, (0 <= t)%Q → (0 <= paramValueAtTime 1 fader "gain" t <= 1)%Q) ∧
    (paramValueAtTime 1 fader "gain" (AudioBuffer.duration twoSeconds) == 0)%Q ∧
    (paramValueAtTime 1 fader "gain" 0 == 1)%Q.
Proof.
  apply (fade_gain_every_duration twoSeconds defaultOptions).
  - reflexivity.
  - by vm_compute.
Defined.
(** ** [processAudio] end to end *)






(** X11. [processAudio] fails exactly when reading the file, decoding it,
    creating the offline context or rendering fails, and then with that
    step's own error: the context is refused, with a [NotSupportedError],
    when the decoded source is empty ([ceil (duration * 48000)] = 0 frames).
    Once the render has succeeded neither encoder can fail. *)
Theorem processAudio_failures (pf : Platform) (file : File) (options : AudioProcessOptions)
    (e : jsError) :
  processAudio pf file options = Throw e ↔
  arrayBuffer file = Throw e ∨
  ∃ bytes, arrayBuffer file = Ok bytes ∧
    (decodeAudioData pf bytes = Throw e ∨
     ∃ src, decodeAudioData pf bytes = Ok src ∧
       let len := Qceiling (AudioBuffer.duration src * 48000) in
       (len ≤ 0 ∧ e = DOMException "NotSupportedError") ∨
       (0 < len ∧
        offlineRender pf 2 (Z.to_nat len) 48000
          (runG (masteringGraph src options) emptyGraph).2 = Throw e)).
Proof.
  unfold processAudio, renderMaster.
  destruct (arrayBuffer file) as [bytes|e0] eqn:Hfile.
  2:{ split.
      - intros [= ->]. by left.
      - intros [[= ->]|(bytes & [=] & _)]. done. }
  rewrite !bind_Ok.
  destruct (decodeAudioData pf bytes) as [src|e0] eqn:Hdec.
  2:{ split.
      - intros [= ->]. right. exists bytes. split; [done|]. left. by rewrite Hdec.
      - intros [[=]|(bytes' & [= <-] & [H|(src & H & _)])]; rewrite Hdec in H.
        + by injection H as ->.
        + discriminate H. }
  rewrite !bind_Ok. cbv zeta. change (inject_Z 48000) with 48000%Q.
  set (len := Qceiling (AudioBuffer.duration src * 48000)).
  unfold newOfflineAudioContext.
  destruct (decide (2%nat = 0%nat ∨ len ≤ 0 ∨ 48000 ≤ 0)) as [Hbad|Hgood].
  { assert (len ≤ 0) as Hlen by (destruct Hbad as [|[|]]; [done|done|lia]).
    split.
    - intros [= <-]. right. exists bytes. split; [done|]. right. exists src.
      rewrite Hdec. split; [done|]. left. done.
    - intros [[=]|(bytes' & [= <-] & [H|(src' & H & H')])]; rewrite Hdec in H; [done|].
      injection H as <-. fold len in H'. destruct H' as [[_ ->]|[H' _]]; [done|lia]. }
  assert (0 < len) as Hlen by lia.
  rewrite !bind_Ok.
  destruct (runG (masteringGraph src options) emptyGraph) as [u graph] eqn:Eg.
  unfold startRendering. cbn [ctxChannels ctxLength ctxSampleRate snd].
  destruct (offlineRender pf 2 (Z.to_nat len) 48000 graph) as [data|e0] eqn:Hr.
  - rewrite !bind_Ok. split.
    + intros H. exfalso. destruct (exportFormat options).
      * rewrite audioBufferToMp3_blocks in H by (cbn; lia). done.
      * rewrite audioBufferToWav_bytes in H by (cbn; lia). done.
    + intros [[=]|(bytes' & [= <-] & [H|(src' & H & H')])]; rewrite Hdec in H; [done|].
      injection H as <-. fold len in H'. rewrite Eg in H'. cbn [snd] in H'.
      destruct H' as [[H' _]|[_ H']]; [lia|]. rewrite Hr in H'. done.
  - split.
    + intros [= <-]. right. exists bytes. split; [done|]. right. exists src.
      rewrite Hdec. split; [done|]. right. fold len. rewrite Eg. cbn [snd]. by rewrite Hr.
    + intros [[=]|(bytes' & [= <-] & [H|(src' & H & H')])]; rewrite Hdec in H; [done|].
      injection H as <-. fold len in H'. rewrite Eg in H'. cbn [snd] in H'.
      destruct H' as [[H' _]|[_ H']]; [lia|]. rewrite Hr in H'. by injection H' as ->.
Qed.
(** ** The size of the analysis payload *)

Lemma base64_length (bytes : list Z) :
  String.length (base64 bytes) = (4 * ((length bytes + 2) / 3))%nat.
Proof.
  assert (∀ n (l : list Z), (length l ≤ n)%nat →
            String.length (base64 l) = (4 * ((length l + 2) / 3))%nat) as H.
  { induction n as [n IH] using (well_founded_induction lt_wf).
    intros l Hl. destruct l as [|a [|b [|c rest]]]; [done|done|done|].
    cbn [base64 String.length length] in *.
    rewrite (IH (n - 3)%nat) by lia.
    replace (S (S (S (length rest))) + 2)%nat with (1 * 3 + (length rest + 2))%nat by lia.
    rewrite Nat.div_add_l by lia. lia. }
  by apply (H (length bytes)).
Qed.

(** X12. The pre-processor keeps the upload small whatever the source: when
    it succeeds on a platform whose reader loads the data URL of the blob, the
    rendered audio has between 1 and 2 880 000 frames (180 s at 16 kHz), the
    WAV file at most 5 760 044 bytes, and the result is the base64 text of
    that file: four characters for every three bytes, at most 7 680 060. *)
Theorem analysis_payload_bounded (pf : Platform) (file : File) (payload : option string) :
  (∀ blob, readAsDataURL pf blob = ReaderLoad (Some (dataURL blob))) →
  optimizeAudioForAnalysis pf file = Ok payload →
  ∃ rendered,
    renderForAnalysis pf file = Ok rendered ∧
    1 ≤ Z.of_nat (AudioBuffer.frames rendered) ≤ 2880000 ∧
    length (blobBytes (analysisWav rendered)) = (44 + 2 * AudioBuffer.frames rendered)%nat ∧
    Z.of_nat (length (blobBytes (analysisWav rendered))) ≤ 5760044 ∧
    payload = Some (base64 (blobBytes (analysisWav rendered))) ∧
    ∃ text, payload = Some text ∧
            String.length text = (4 * ((length (blobBytes (analysisWav rendered)) + 2) / 3))%nat ∧
            Z.of_nat (String.length text) ≤ 7680060.
Proof.
  intros Hreader Hok.
  destruct (renderForAnalysis pf file) as [rendered|e] eqn:Hr.
  2:{ unfold optimizeAudioForAnalysis in Hok. by rewrite Hr in Hok. }
  rewrite (optimize_after_render _ _ _ Hr), Hreader in Hok.
  unfold analysisWav in Hok. rewrite dataURL_payload in Hok.
  injection Hok as <-.
  exists rendered. split; [done|].
  destruct (renderForAnalysis_inv _ _ _ Hr) as (bytes & src & data & _ & _ & Hpos & _ & ->).
  cbn [AudioBuffer.frames].
  set (len := Qfloor (Qmin (AudioBuffer.duration src) 180 * 16000)) in *.
  assert (len ≤ 2880000) as Hmax.
  { change 2880000 with (Qfloor 2880000). apply Qfloor_resp_le.
    pose proof (Q.le_min_r (AudioBuffer.duration src) 180). lra. }
  assert (length (blobBytes (analysisWav
            (AudioBuffer.mk 16000 1 (Z.to_nat len) data))) = (44 + 2 * Z.to_nat len)%nat) as Hlen.
  { unfold analysisWav. cbn [blobBytes AudioBuffer.frames AudioBuffer.sampleRate].
    rewrite length_app, wavHeader_length, pcmData_length. cbn [AudioBuffer.frames]. lia. }
  split; [lia|]. split; [exact Hlen|]. split; [lia|].
  set (wav := blobBytes (analysisWav (AudioBuffer.mk 16000 1 (Z.to_nat len) data))) in *.
  split; [reflexivity|].
  exists (base64 wav). split; [reflexivity|]. rewrite base64_length. split; [reflexivity|].
  rewrite Hlen.
  rewrite Nat2Z.inj_mul, Nat2Z.inj_div, Nat2Z.inj_add, Nat2Z.inj_add, Nat2Z.inj_mul, Z2Nat.id by lia.
  change (Z.of_nat 4) with 4. change (Z.of_nat 44) with 44. change (Z.of_nat 2) with 2.
  change (Z.of_nat 3) with 3.
  assert ((44 + 2 * len + 2) / 3 ≤ (44 + 2 * 2880000 + 2) / 3) as Hd
    by (apply Z.div_le_mono; lia).
  change ((44 + 2 * 2880000 + 2) / 3) with 1920015 in Hd. lia.
Qed.

Lemma analysis_payload_bounded_witness :
  ∃ rendered,
    renderForAnalysis (platformDecoding (silence 8000 1 8)) someFile = Ok rendered ∧
    1 ≤ Z.of_nat (AudioBuffer.frames rendered) ≤ 2880000 ∧
    length (blobBytes (analysisWav rendered)) = (44 + 2 * AudioBuffer.frames rendered)%nat.
Proof.
  destruct (analysis_payload_bounded (platformDecoding (silence 8000 1 8)) someFile
              (Some (base64 (blobBytes (analysisWav
                 (AudioBuffer.mk 16000 1 16 (fun _ _ => Fin 0)))))))
    as (rendered & H1 & H2 & H3 & _).
  - reflexivity.
  - by vm_compute.
  - exists rendered. split; [exact H1|]. split; [exact H2|exact H3].
Defined.
(** * The enhancer's option panel *)

(** X13. A preset overrides every manual setting but three: [applyPreset]
    keeps [enableFades], [enableNaturalizer] and [exportFormat], and fixes
    everything else from the preset alone: the preset itself, intensity,
    stereo width, warmth (always on) and the three modulation amounts.  So
    the last preset clicked wins, and it resets the sliders. *)
Theorem applyPreset_overrides (o o' : AudioProcessOptions) (p : MasteringPreset) :
  enableFades o = enableFades o' →
  enableNaturalizer o = enableNaturalizer o' →
  exportFormat o = exportFormat o' →
  applyPreset o p = applyPreset o' p ∧
  (∀ q, applyPreset (applyPreset o q) p = applyPreset o p) ∧
  (∀ type val, applyPreset (updateCreativeFx o type val) p = applyPreset o p) ∧
  preset (applyPreset o p) = Some p ∧
  enableWarmth (applyPreset o p) = true ∧
  enableFades (applyPreset o p) = enableFades o ∧
  enableNaturalizer (applyPreset o p) = enableNaturalizer o ∧
  exportFormat (applyPreset o p) = exportFormat o.
Proof.
  intros Hf Hn Hx. split; [|split; [|split]].
  - destruct p; unfold applyPreset, withCreativeFx, withWarmth, withStereoWidth,
      withIntensity, withPreset; cbn; by rewrite Hf, Hn, Hx.
  - intros q. by destruct p, q.
  - intros type val. by destruct p, type.
  - by destruct p.
Qed.

Lemma applyPreset_overrides_witness :
  applyPreset defaultOptions pop
  = applyPreset (mkOptions low wide false true true mp3 None (mkCreativeFx 1 1 1)) pop.
Proof.
  apply (applyPreset_overrides defaultOptions
           (mkOptions low wide false true true mp3 None (mkCreativeFx 1 1 1)) pop);
    reflexivity.
Defined.

Lemma onOptionEvent_invariant (P : AudioProcessOptions → Prop) events :
  (∀ o e, P o → inRange e → P (onOptionEvent o e)) →
  ∀ o, P o → Forall inRange events → P (foldl onOptionEvent o events).
Proof.
  intros Hstep. induction events as [|e events IH]; intros o Ho Hall; [done|].
  apply Forall_cons in Hall as [He Hall]. cbn [foldl]. apply IH; [|done]. by apply Hstep.
Qed.

(** X14. Whatever the user does in the option panel, starting from the
    initial options: warmth and fades stay on (no control turns them off), a
    preset is always selected, the intensity and the stereo width are those
    of the selected preset ([high] and [wide] for pop and electronic, [low]
    for lofi, [medium] and [normal] otherwise), and the modulation amounts
    stay within [0, 1]. *)
Theorem panel_invariant (events : list OptionEvent) :
  Forall inRange events →
  let o := foldl onOptionEvent defaultOptions events in
  enableWarmth o = true ∧
  enableFades o = true ∧
  (∃ p, preset o = Some p ∧
        intensity o = match p with pop | electronic => high | lofi => low | _ => medium end ∧
        stereoWidth o = match p with pop | electronic => wide | _ => normal end) ∧
  (0 <= chorus (creativeFx o) <= 1)%Q ∧
  (0 <= phaser (creativeFx o) <= 1)%Q ∧
  (0 <= flanger (creativeFx o) <= 1)%Q.
Proof.
  intros Hall o. subst o. revert Hall.
  apply (onOptionEvent_invariant (fun o =>
    enableWarmth o = true ∧ enableFades o = true ∧
    (∃ p, preset o = Some p ∧
          intensity o = match p with pop | electronic => high | lofi => low | _ => medium end ∧
          stereoWidth o = match p with pop | electronic => wide | _ => normal end) ∧
    (0 <= chorus (creativeFx o) <= 1)%Q ∧
    (0 <= phaser (creativeFx o) <= 1)%Q ∧
    (0 <= flanger (creativeFx o) <= 1)%Q)).
  - intros o e (Hw & Hf & (p & Hp & Hi & Hs) & Hc & Hph & Hfl) He.
    destruct e as [q|type val| |f]; cbn [onOptionEvent inRange] in *.
    + split; [by destruct q|]. split; [by destruct q|].
      split; [exists q; by destruct q|].
      destruct q; cbn; repeat split; lra.
    + split; [done|]. split; [done|]. split; [by exists p|].
      destruct type; cbn; repeat split; lra.
    + split; [done|]. split; [done|]. split; [by exists p|]. done.
    + split; [done|]. split; [done|]. split; [by exists p|]. done.
  - split; [done|]. split; [done|]. split; [by exists balanced|].
    cbn. repeat split; lra.
Qed.

Lemma panel_invariant_witness :
  let o := foldl onOptionEvent defaultOptions
             [ClickPreset lofi; MoveSlider fxChorus 0.5; ClickNaturalizer; ClickFormat wav] in
  enableWarmth o = true ∧ enableFades o = true ∧ intensity o = low ∧
  (0 <= chorus (creativeFx o) <= 1)%Q.
Proof.
  destruct (panel_invariant
              [ClickPreset lofi; MoveSlider fxChorus 0.5; ClickNaturalizer; ClickFormat wav])
    as (Hw & Hf & (p & Hp & Hi & _) & Hc & _).
  - repeat constructor; cbn; lra.
  - cbv zeta. split; [exact Hw|]. split; [exact Hf|]. split; [|exact Hc].
    injection Hp as <-. exact Hi.
Defined.

(** X15. To the mastering chain the presets are fewer than five: [rock]
    gives the same result as [balanced] for every file, and [lofi] the same
    as [balanced] with the flanger slider at 0.3. *)
Theorem presets_heard (pf : Platform) (file : File) (o : AudioProcessOptions) :
  processAudio pf file (applyPreset o rock) = processAudio pf file (applyPreset o balanced) ∧
  processAudio pf file (applyPreset o lofi)
  = processAudio pf file (updateCreativeFx (applyPreset o balanced) fxFlanger 0.3).
Proof.
  assert (∀ a b, isHigh (intensity a) = isHigh (intensity b) →
            enableWarmth a = enableWarmth b → enableFades a = enableFades b →
            enableNaturalizer a = enableNaturalizer b → exportFormat a = exportFormat b →
            creativeFx a = creativeFx b →
            isPreset electronic (preset a) = isPreset electronic (preset b) →
            isPreset pop (preset a) = isPreset pop (preset b) →
            processAudio pf file a = processAudio pf file b) as H.
  { intros a b Hi Hw Hf Hn Hx Hfx He Hp.
    unfold processAudio, renderMaster. rewrite Hx.
    destruct (arrayBuffer file) as [bytes|e]; [|by rewrite !bind_Throw]. rewrite !bind_Ok.
    destruct (decodeAudioData pf bytes) as [src|e]; [|by rewrite !bind_Throw].
    rewrite !bind_Ok. cbv zeta.
    by rewrite (masteringGraph_ext src a b). }
  split; by apply H.
Qed.
(** * The model service and the cloner *)

(** X16. [analyzeReferenceAudio] rejects with one of three errors only.  A
    rejection of the SDK is reported by its message: containing "400", as an
    unsupported or corrupt file; else containing "429", as a rate limit; else
    as the general failure.  An empty reply and a reply that does not parse
    are thrown inside the outer [try], so their own messages ("Analysis
    returned empty response", "Failed to parse AI response...") never reach
    the caller: both come out as the general failure. *)
Theorem analyzeReferenceAudio_errors (rt : Runtime) (base64Audio : option string)
    (mimeType : string) :
  let unsupported := Error "Audio file format not supported or file too large/corrupt." in
  let busy := Error "System is busy (Rate Limit). Please wait a moment." in
  let general := Error "Failed to analyze audio. Please try a shorter clip." in
  analyzeReferenceAudio rt base64Audio mimeType =
    match generateContent rt (AnalysisRequest mimeType base64Audio) with
    | Throw error =>
        if default false (includes "400" <$> message rt error) then Throw unsupported
        else if default false (includes "429" <$> message rt error) then Throw busy
        else Throw general
    | Ok jsonText =>
        if noText jsonText then Throw general
        else match JSON_parse rt (cleanJson (default [] jsonText)) with
             | Ok value => Ok value
             | Throw _ => Throw general
             end
    end ∧
  ∀ e, analyzeReferenceAudio rt base64Audio mimeType = Throw e →
       e = unsupported ∨ e = busy ∨ e = general.
Proof.
  intros unsupported busy general.
  assert (analyzeReferenceAudio rt base64Audio mimeType =
    match generateContent rt (AnalysisRequest mimeType base64Audio) with
    | Throw error =>
        if default false (includes "400" <$> message rt error) then Throw unsupported
        else if default false (includes "429" <$> message rt error) then Throw busy
        else Throw general
    | Ok jsonText =>
        if noText jsonText then Throw general
        else match JSON_parse rt (cleanJson (default [] jsonText)) with
             | Ok value => Ok value
             | Throw _ => Throw general
             end
    end) as H.
  { unfold analyzeReferenceAudio.
    destruct (generateContent rt _) as [jsonText|error]; [|reflexivity].
    rewrite bind_Ok. destruct (noText jsonText); [reflexivity|].
    by destruct (JSON_parse rt _). }
  split; [exact H|]. rewrite H. intros e.
  destruct (generateContent rt _) as [jsonText|error].
  - destruct (noText jsonText); [intros [= <-]; auto|].
    destruct (JSON_parse rt _); [done|intros [= <-]; auto].
  - destruct (default false (includes "400" <$> message rt error)); [intros [= <-]; auto|].
    destruct (default false (includes "429" <$> message rt error)); intros [= <-]; auto.
Qed.

(** X17. [getClarificationQuestion] never rejects: it resolves with the
    parsed reply when the model answers with text that parses, and with its
    built-in question and three options in every other case (the SDK rejects,
    the reply is empty, the reply does not parse). *)
Theorem getClarificationQuestion_never_throws (rt : Runtime) (idea : string) :
  let builtin :=
    Literal {| question := "What emotional texture should the lyrics explore?";
               options := ["Melancholic Nostalgia"; "Gritty Urban Realism";
                           "Uplifting Synth-Wave"] |} in
  getClarificationQuestion rt idea =
  Ok match generateContent rt (ClarificationRequest idea) with
     | Ok jsonText =>
         if noText jsonText then builtin
         else match JSON_parse rt (cleanJson (default [] jsonText)) with
              | Ok value => Parsed value
              | Throw _ => builtin
              end
     | Throw _ => builtin
     end.
Proof.
  cbv zeta. unfold getClarificationQuestion.
  destruct (generateContent rt _) as [jsonText|error]; [|reflexivity].
  rewrite bind_Ok. destruct (noText jsonText); [reflexivity|].
  by destruct (JSON_parse rt _).
Qed.

Lemma getClarificationQuestion_total (rt : Runtime) (idea : string) :
  ∃ data, getClarificationQuestion rt idea = Ok data.
Proof.
  unfold getClarificationQuestion.
  destruct (generateContent rt _) as [jsonText|error]; [|by eexists].
  rewrite bind_Ok. destruct (noText jsonText); [by eexists|].
  destruct (JSON_parse rt _); by eexists.
Qed.

Lemma messageOr_Error (rt : Runtime) m fallback :
  m ≠ EmptyString → messageOr rt (Error m) fallback = m.
Proof. intros H. unfold messageOr. cbn. by destruct m. Qed.

(** X18. When [handleAnalyze] settles, the cloner is idle again
    ([isAnalyzing] off, no loading stage) and holds the same file.  If the
    pre-processor failed, the error shown is that error's message, or
    "Failed to analyze audio. The model might be busy." when it has none, and
    the model is not consulted; if the model call failed, the error shown is
    one of the three messages of [analyzeReferenceAudio]; in both cases the
    analysis is left as it was.  Otherwise the analysis is the parsed reply
    and no error is shown. *)
Theorem handleAnalyze_outcome (pf : Platform) (rt : Runtime) (s : Cloner)
    (file : Selected) :
  clonerFile s = Some file →
  let s' := handleAnalyze pf rt s in
  clonerFile s' = Some file ∧ isAnalyzing s' = false ∧ loadingStage s' = EmptyString ∧
  match optimizeAudioForAnalysis pf (selectedFile file) with
  | Throw e =>
      analysis s' = analysis s ∧
      clonerError s' = Some (messageOr rt e "Failed to analyze audio. The model might be busy.")
  | Ok base64 =>
      match analyzeReferenceAudio rt base64 "audio/wav" with
      | Ok result => analysis s' = result ∧ clonerError s' = None
      | Throw _ =>
          analysis s' = analysis s ∧
          (clonerError s' = Some "Audio file format not supported or file too large/corrupt." ∨
           clonerError s' = Some "System is busy (Rate Limit). Please wait a moment." ∨
           clonerError s' = Some "Failed to analyze audio. Please try a shorter clip.")
      end
  end.
Proof.
  intros Hfile s'. subst s'. unfold handleAnalyze. rewrite Hfile.
  destruct (optimizeAudioForAnalysis pf (selectedFile file)) as [base64|e].
  - rewrite bind_Ok.
    destruct (analyzeReferenceAudio_errors rt base64 "audio/wav") as [_ Herr].
    destruct (analyzeReferenceAudio rt base64 "audio/wav") as [result|e]; [done|].
    cbn [clonerFile isAnalyzing loadingStage analysis clonerError].
    split; [done|]. split; [done|]. split; [done|]. split; [done|].
    destruct (Herr e eq_refl) as [-> | [-> | ->]]; rewrite messageOr_Error by done; auto.
  - rewrite bind_Throw. done.
Qed.

Lemma handleAnalyze_outcome_witness :
  let s := mkCloner (Some (mkSelected someFile 1000)) false EmptyString (JBool true) None in
  let s' := handleAnalyze platformUndecodable (fixedRuntime [] JNull) s in
  isAnalyzing s' = false ∧ analysis s' = JBool true ∧
  clonerError s' = Some "Failed to analyze audio. The model might be busy.".
Proof.
  destruct (handleAnalyze_outcome platformUndecodable (fixedRuntime [] JNull)
              (mkCloner (Some (mkSelected someFile 1000)) false EmptyString (JBool true) None)
              (mkSelected someFile 1000) eq_refl) as (_ & H1 & _ & H2 & H3).
  cbv zeta. split; [exact H1|]. split; [exact H2|exact H3].
Defined.

(** X19. Whatever the user does in the cloner, the file it holds, the one
    [handleAnalyze] hands to the pre-processor, is declared as audio and is at
    most 50 MiB, and between two events the cloner is idle; a selection that
    [handleFileChange] refuses (with an alert) leaves the state as it was,
    the previous file and its analysis included. *)
Theorem cloner_invariant (pf : Platform) (rt : Runtime) (events : list ClonerEvent) :
  let s := foldl (onClonerEvent pf rt) initialCloner events in
  (∀ file, clonerFile s = Some file →
     startsWith "audio/" (fileType (selectedFile file)) = true ∧ size file ≤ 52428800) ∧
  isAnalyzing s = false ∧ loadingStage s = EmptyString ∧
  ∀ files, (clonerFileChange s files).2 ≠ None → (clonerFileChange s files).1 = s.
Proof.
  cbv zeta.
  assert (∀ s : Cloner,
            ((∀ file, clonerFile s = Some file →
                startsWith "audio/" (fileType (selectedFile file)) = true ∧ size file ≤ 52428800) ∧
             isAnalyzing s = false ∧ loadingStage s = EmptyString) →
            (∀ file, clonerFile (foldl (onClonerEvent pf rt) s events) = Some file →
                startsWith "audio/" (fileType (selectedFile file)) = true ∧ size file ≤ 52428800) ∧
            isAnalyzing (foldl (onClonerEvent pf rt) s events) = false ∧
            loadingStage (foldl (onClonerEvent pf rt) s events) = EmptyString) as H.
  { induction events as [|e events IH]; intros s Hs; [done|].
    cbn [foldl]. apply IH. destruct Hs as (Hf & Ha & Hl).
    destruct e as [files| | |]; cbn [onClonerEvent].
    - destruct files as [selected|]; [|done]. unfold clonerFileChange.
      destruct (startsWith "audio/" (fileType (selectedFile selected))) eqn:Et; cbn [negb fst];
        [|done].
      destruct (50 * 1024 * 1024 <? size selected) eqn:Es; cbn [fst]; [done|].
      cbn [clonerFile isAnalyzing loadingStage]. split; [|done].
      intros file [= <-]. split; [done|]. apply Z.ltb_ge in Es. exact Es.
    - unfold handleAnalyze. destruct (clonerFile s) as [file|] eqn:E.
      + destruct (_ ≫= _); cbn [clonerFile isAnalyzing loadingStage];
          (split; [|done]); intros f Hfile; apply Hf; congruence.
      + split; [|done]. intros f Hfile. apply Hf. congruence.
    - cbn. done.
    - cbn. done. }
  destruct (H initialCloner) as (Hf & Ha & Hl); [done|].
  split; [exact Hf|]. split; [exact Ha|]. split; [exact Hl|].
  intros [selected|]; [|done]. unfold clonerFileChange.
  destruct (startsWith "audio/" _); cbn [negb]; [|done].
  by destruct (_ <? _).
Qed.
(** * Cleaning the model's reply *)

Lemma isWhiteSpace_backtick c : isWhiteSpace c = true → c ≠ 96.
Proof. intros H ->. vm_compute in H. done. Qed.

Lemma whiteSpaceRun_blank ws rest :
  blank ws → whiteSpaceRun (ws ++ rest) = (length ws + whiteSpaceRun rest)%nat.
Proof.
  induction 1 as [|c ws Hc _ IH]; [done|]. cbn [app whiteSpaceRun length]. by rewrite Hc, IH.
Qed.

Lemma whiteSpaceRun_inside s tail :
  (∃ init c, s = init ++ [c] ∧ isWhiteSpace c = false) →
  whiteSpaceRun (s ++ tail) = whiteSpaceRun s ∧ (whiteSpaceRun s < length s)%nat.
Proof.
  intros (init & c & -> & Hc). induction init as [|x init IH].
  - cbn. rewrite Hc. split; [done|lia].
  - cbn [app whiteSpaceRun length]. destruct (isWhiteSpace x); [|split; [done|lia]].
    destruct IH as [-> IH]. split; [done|lia].
Qed.

Lemma startsWithCodes_app p rest : startsWithCodes p (p ++ rest) = true.
Proof. induction p as [|a p IH]; [done|]. cbn. by rewrite Z.eqb_refl. Qed.

Lemma startsWithCodes_head a p s :
  head s ≠ Some a → startsWithCodes (a :: p) s = false.
Proof.
  destruct s as [|b s]; [done|]. cbn. intros H.
  destruct (a =? b) eqn:E; [|done]. apply Z.eqb_eq in E. by subst.
Qed.

(** No match where neither the text nor what follows its leading white
    space starts with a back-tick. *)
Lemma fenceAt_none s :
  head s ≠ Some 96 → head (drop (whiteSpaceRun s) s) ≠ Some 96 → fenceAt s = None.
Proof.
  intros H1 H2. unfold fenceAt. cbn [charCodes].
  rewrite (startsWithCodes_head _ _ s) by exact H1. cbv zeta.
  by rewrite (startsWithCodes_head _ _ (drop _ s)) by exact H2.
Qed.

Lemma head_drop_elem {A} (l : list A) n x : head (drop n l) = Some x → x ∈ l.
Proof.
  intros H. destruct (drop n l) as [|y r] eqn:E; [done|]. injection H as ->.
  apply (list_elem_of_lookup_2 _ n). rewrite <- (Nat.add_0_r n), <- lookup_drop, E. done.
Qed.

Lemma removeFences_plain s : 96 ∉ s → removeFences 0 s = s.
Proof.
  induction s as [|c s IH]; [done|]. intros H.
  apply not_elem_of_cons in H as [Hc Hs]. cbn [removeFences].
  rewrite fenceAt_none.
  - by rewrite IH.
  - cbn. congruence.
  - intros Hd. apply head_drop_elem in Hd. apply elem_of_cons in Hd as [Hd|Hd]; [congruence|done].
Qed.

(** Text without a back-tick that ends in something else than white space is
    kept, whatever follows. *)
Lemma removeFences_keep s tail :
  96 ∉ s → (∃ init c, s = init ++ [c] ∧ isWhiteSpace c = false) →
  removeFences 0 (s ++ tail) = s ++ removeFences 0 tail.
Proof.
  intros Hs (init & c & -> & Hc). revert Hs. induction init as [|x init IH]; intros Hs.
  - cbn [app removeFences]. rewrite fenceAt_none; [done| |].
    + cbn. intros [= ->]. apply Hs. apply list_elem_of_here.
    + cbn [whiteSpaceRun]. rewrite Hc. cbn. intros [= ->]. apply Hs. apply list_elem_of_here.
  - cbn [app] in *. apply not_elem_of_cons in Hs as [Hx Hs].
    cbn [removeFences]. rewrite fenceAt_none.
    + by rewrite IH.
    + cbn. congruence.
    + change (x :: (init ++ [c]) ++ tail) with ((x :: init ++ [c]) ++ tail).
      destruct (whiteSpaceRun_inside (x :: init ++ [c]) tail) as [-> Hlt].
      { exists (x :: init), c. done. }
      rewrite drop_app_le by lia.
      intros Hd. destruct (drop _ (x :: init ++ [c])) as [|y r] eqn:E.
      * apply (f_equal length) in E. rewrite length_drop in E. cbn [length] in *. lia.
      * cbn in Hd. injection Hd as ->.
        assert (96 ∈ x :: init ++ [c]) as Hin.
        { apply (head_drop_elem _ (whiteSpaceRun (x :: init ++ [c]))). by rewrite E. }
        apply elem_of_cons in Hin as [Hin|Hin]; [congruence|done].
Qed.

Lemma removeFences_skip m rest : removeFences (length m) (m ++ rest) = removeFences 0 rest.
Proof. induction m as [|c m IH]; [done|]. cbn [length app removeFences]. exact IH. Qed.

(** A match at the start of the text is dropped. *)
Lemma removeFences_match m rest :
  m ≠ [] → fenceAt (m ++ rest) = Some (length m) → removeFences 0 (m ++ rest) = removeFences 0 rest.
Proof.
  destruct m as [|c m]; [done|]. intros _ H.
  cbn [app removeFences]. cbn [app] in H. rewrite H. cbn [length]. apply removeFences_skip.
Qed.

Lemma blank_head ws : blank ws → head ws ≠ Some 96.
Proof.
  destruct 1 as [|c ws Hc _]; [done|]. cbn. intros [= ->]. by vm_compute in Hc.
Qed.

(** The opening fence with its tag, and the white space after it. *)
Lemma fenceAt_open ws1 body tail :
  blank ws1 → (∃ c rest, body = c :: rest ∧ isWhiteSpace c = false) →
  fenceAt ((charCodes "```json" ++ ws1) ++ body ++ tail)
  = Some (length (charCodes "```json" ++ ws1)).
Proof.
  intros Hws (c & rest & -> & Hc). unfold fenceAt.
  rewrite <- app_assoc, startsWithCodes_app.
  rewrite drop_app_length'; [|done].
  rewrite whiteSpaceRun_blank by done. cbn [app whiteSpaceRun]. rewrite Hc.
  rewrite length_app. cbn [charCodes length]. f_equal. lia.
Qed.

(** A fence without tag, and the white space before it. *)
Lemma fenceAt_close ws2 tail :
  blank ws2 → ws2 ≠ [] ∨ head tail ≠ Some 106 →
  fenceAt ((ws2 ++ charCodes "```") ++ tail) = Some (length (ws2 ++ charCodes "```")).
Proof.
  intros Hws Htail. unfold fenceAt.
  assert (startsWithCodes (charCodes "```json") ((ws2 ++ charCodes "```") ++ tail) = false) as ->.
  { destruct Hws as [|c ws2 Hc Hws].
    - destruct Htail as [|Htail]; [done|]. destruct tail as [|t tail]; [done|].
      change (startsWithCodes (charCodes "```json") (([] ++ charCodes "```") ++ t :: tail))
        with ((106 =? t) && startsWithCodes (charCodes "son") tail).
      destruct (106 =? t) eqn:E; [|done]. apply Z.eqb_eq in E. subst. by cbn in Htail.
    - apply startsWithCodes_head. cbn. intros [= ->]. by vm_compute in Hc. }
  cbv zeta. rewrite <- app_assoc, whiteSpaceRun_blank by done.
  cbn [charCodes app whiteSpaceRun]. change (isWhiteSpace (Z.of_N (N_of_ascii "`"))) with false.
  cbv iota. rewrite Nat.add_0_r, drop_app_length.
  change (startsWithCodes _ _) with true. cbv iota.
  rewrite length_app. reflexivity.
Qed.

Lemma trim_compact body post : compact body → blank post → trim (body ++ post) = body.
Proof.
  intros (_ & (c & rest & -> & Hc) & (init & d & Hbody & Hd)) Hpost.
  unfold trim, trimStart. cbn [app whiteSpaceRun]. rewrite Hc, drop_0.
  unfold trimEnd, trimStart. change (c :: rest ++ post) with ((c :: rest) ++ post).
  rewrite Hbody, reverse_app, reverse_app. cbn [reverse rev_append app].
  change (reverse [d]) with [d]. cbn [app].
  rewrite whiteSpaceRun_blank.
  - cbn [whiteSpaceRun]. rewrite Hd, Nat.add_0_r, drop_app_length.
    rewrite reverse_cons, reverse_involutive. done.
  - unfold blank. by apply Forall_reverse.
Qed.

(** X20. [cleanJson] on the two shapes a reply is expected in.  A text
    without back-ticks is only trimmed.  A compact text (no back-tick, no
    white space at either end) wrapped in a fence whose opening
    "```json" starts the reply comes out unwrapped, whatever white space
    surrounds it inside the fence or follows the closing "```". *)
Theorem cleanJson_unwraps (text body ws1 ws2 post : list Z) :
  ((96 ∉ text) → cleanJson text = trim text) ∧
  (compact body → blank ws1 → blank ws2 → blank post →
   cleanJson (charCodes "```json" ++ ws1 ++ body ++ ws2 ++ charCodes "```" ++ post) = body).
Proof.
  split.
  { intros H. unfold cleanJson. by rewrite removeFences_plain. }
  intros Hbody H1 H2 Hpost. unfold cleanJson.
  pose proof Hbody as (Hno & Hfirst & Hlast).
  rewrite (app_assoc _ ws1), removeFences_match;
    [|by destruct ws1|by apply fenceAt_open].
  rewrite removeFences_keep by done.
  rewrite (app_assoc ws2), removeFences_match;
    [|by destruct ws2|apply fenceAt_close; [done|right]].
  - rewrite removeFences_plain; [by apply trim_compact|].
    intros Hin. unfold blank in Hpost. rewrite Forall_forall in Hpost.
    by apply Hpost in Hin.
  - destruct Hpost as [|c post Hc _]; [done|]. cbn. intros [= ->]. by vm_compute in Hc.
Qed.

Lemma cleanJson_unwraps_witness :
  cleanJson (charCodes "```json" ++ [10] ++ charCodes "{}" ++ [10] ++ charCodes "```" ++ [])
  = charCodes "{}".
Proof.
  apply (cleanJson_unwraps [] (charCodes "{}") [10] [10] []).
  - split; [|split].
    + cbn. intros H. repeat (apply elem_of_cons in H as [H|H]; [done|]). by apply elem_of_nil in H.
    + by exists 123, [125].
    + by exists [123], 125.
  - by repeat constructor.
  - by repeat constructor.
  - constructor.
Defined.

(** X21. White space in front of the opening fence defeats the first
    alternative of the pattern: the white space and the three back-ticks are
    matched by the second alternative, and the tag is left in the text.  For a
    compact body, a reply of white space, "```json", the body and "```"
    comes out as "json" followed by the body, white space between them
    included. *)
Theorem cleanJson_after_leading_space (pre ws1 body ws2 post : list Z) :
  pre ≠ [] → blank pre → blank ws1 → compact body → blank ws2 → blank post →
  cleanJson (pre ++ charCodes "```json" ++ ws1 ++ body ++ ws2 ++ charCodes "```" ++ post)
  = charCodes "json" ++ ws1 ++ body.
Proof.
  intros Hne Hpre H1 Hbody H2 Hpost. unfold cleanJson.
  pose proof Hbody as (Hno & (c & rest & Hc & Hcw) & (init & d & Hd & Hdw)).
  change (charCodes "```json") with (charCodes "```" ++ charCodes "json").
  rewrite <- (app_assoc (charCodes "```")), (app_assoc pre).
  rewrite removeFences_match; cycle 1.
  { by destruct pre. }
  { apply fenceAt_close; [done|]. by left. }
  assert (96 ∉ charCodes "json" ++ ws1 ++ body) as Hplain.
  { intros Hin. apply elem_of_app in Hin as [Hin|Hin].
    - cbn in Hin. repeat (apply elem_of_cons in Hin as [Hin|Hin]; [done|]).
      by apply elem_of_nil in Hin.
    - apply elem_of_app in Hin as [Hin|Hin]; [|done].
      unfold blank in H1. rewrite Forall_forall in H1. by apply H1 in Hin. }
  rewrite (app_assoc (charCodes "json")), (app_assoc (charCodes "json" ++ ws1)).
  rewrite <- (app_assoc (charCodes "json")).
  rewrite removeFences_keep; cycle 1.
  { done. }
  { exists (charCodes "json" ++ ws1 ++ init), d. by rewrite Hd, <- !app_assoc. }
  rewrite (app_assoc ws2), removeFences_match;
    [|by destruct ws2|apply fenceAt_close; [done|right]].
  - rewrite removeFences_plain.
    + apply trim_compact; [|done]. split; [done|]. split.
      * by exists 106, (charCodes "son" ++ ws1 ++ body).
      * exists (charCodes "json" ++ ws1 ++ init), d. by rewrite Hd, <- !app_assoc.
    + intros Hin. unfold blank in Hpost. rewrite Forall_forall in Hpost.
      by apply Hpost in Hin.
  - destruct Hpost as [|x post Hx _]; [done|]. cbn. intros [= ->]. by vm_compute in Hx.
Qed.

Lemma cleanJson_after_leading_space_witness :
  cleanJson ([10] ++ charCodes "```json" ++ [10] ++ charCodes "{}" ++ [10] ++ charCodes "```" ++ [])
  = charCodes "json" ++ [10] ++ charCodes "{}".
Proof.
  apply (cleanJson_after_leading_space [10] [10] (charCodes "{}") [10] []).
  - done.
  - by repeat constructor.
  - by repeat constructor.
  - split; [|split].
    + cbn. intros H. repeat (apply elem_of_cons in H as [H|H]; [done|]). by apply elem_of_nil in H.
    + by exists 123, [125].
    + by exists [123], 125.
  - by repeat constructor.
  - constructor.
Defined.
(** * The enhancer *)

Lemma extensionAt_no_dot c s : c ≠ "."%char → extensionAt (String c s) = false.
Proof.
  intros H. unfold extensionAt.
  destruct c as [[] [] [] [] [] [] [] []]; try reflexivity. done.
Qed.

Lemma free_app sep a b : free sep (a +:+ b) = free sep a && free sep b.
Proof.
  induction a as [|c a IH]; [done|].
  change (String c a +:+ b) with (String c (a +:+ b)). cbn [free]. rewrite IH.
  by rewrite andb_assoc.
Qed.

Lemma removeExtension_strips base ext :
  ext ≠ EmptyString → free "/" ext = true → free "." ext = true →
  removeExtension (base +:+ "." +:+ ext) = base.
Proof.
  intros Hne Hslash Hdot. induction base as [|c base IH].
  - change (EmptyString +:+ "." +:+ ext) with (String "." ext).
    cbn [removeExtension extensionAt]. rewrite Hslash, Hdot.
    destruct ext; [done|]. reflexivity.
  - change (String c base +:+ "." +:+ ext) with (String c (base +:+ "." +:+ ext)).
    cbn [removeExtension].
    assert (extensionAt (String c (base +:+ "." +:+ ext)) = false) as ->.
    { destruct (Ascii.eqb_spec c ".") as [->|Hc]; [|by apply extensionAt_no_dot].
      cbn [extensionAt]. rewrite (free_app "." base). cbn [free].
      change (String "." EmptyString +:+ ext) with (String "." ext). cbn [free Ascii.eqb].
      change (Ascii.eqb "." ".") with true. cbn [negb andb].
      by rewrite !andb_false_r. }
    by rewrite IH.
Qed.

Lemma removeExtension_no_dot name : free "." name = true → removeExtension name = name.
Proof.
  induction name as [|c name IH]; [done|]. cbn [free]. intros H.
  apply andb_true_iff in H as [Hc Hn]. cbn [removeExtension].
  rewrite extensionAt_no_dot.
  - by rewrite IH.
  - intros ->. done.
Qed.

(** X22. The name under which the result is downloaded.  It always is
    "AfriSuno_Enhanced_", a stem, a dot and the export format.  For a file
    called [base.ext], where [ext] is not empty and holds neither a dot nor a
    slash, the stem is [base] (only the last extension goes, dots and slashes
    in [base] stay); for a name without a dot it is the whole name; and when
    no file is held any more it is the text "undefined". *)
Theorem download_name (s : Enhancer) (blob : Blob) :
  processedBlob s = Some blob →
  let fmt := formatName (exportFormat (enhancerOptions s)) in
  (∃ stem, handleDownload s = Some ("AfriSuno_Enhanced_" +:+ stem +:+ "." +:+ fmt)) ∧
  (∀ file base ext,
     enhancerFile s = Some file → fileName file = base +:+ "." +:+ ext →
     ext ≠ EmptyString → free "/" ext = true → free "." ext = true →
     handleDownload s = Some ("AfriSuno_Enhanced_" +:+ base +:+ "." +:+ fmt)) ∧
  (∀ file,
     enhancerFile s = Some file → free "." (fileName file) = true →
     handleDownload s = Some ("AfriSuno_Enhanced_" +:+ fileName file +:+ "." +:+ fmt)) ∧
  (enhancerFile s = None →
   handleDownload s = Some ("AfriSuno_Enhanced_" +:+ "undefined" +:+ "." +:+ fmt)).
Proof.
  intros Hblob fmt. unfold handleDownload. rewrite Hblob. cbv zeta. fold fmt.
  split; [by eexists|]. split; [|split].
  - intros file base ext -> Hname Hne Hslash Hdot.
    by rewrite Hname, removeExtension_strips.
  - intros file -> Hdot. by rewrite removeExtension_no_dot.
  - by intros ->.
Qed.

Lemma download_name_witness :
  handleDownload
    (mkEnhancer (Some (mkFile "my.song/take 1.final.wav" "audio/wav" (Ok []))) false
       (Some (mkBlob [] "audio/mp3")) defaultOptions)
  = Some "AfriSuno_Enhanced_my.song/take 1.final.mp3".
Proof.
  destruct (download_name
              (mkEnhancer (Some (mkFile "my.song/take 1.final.wav" "audio/wav" (Ok []))) false
                 (Some (mkBlob [] "audio/mp3")) defaultOptions)
              (mkBlob [] "audio/mp3") eq_refl) as (_ & H & _).
  apply (H (mkFile "my.song/take 1.final.wav" "audio/wav" (Ok [])) "my.song/take 1.final" "wav");
    reflexivity || done.
Defined.



(** * The saved vibes *)

Lemma filterOthers_filter id items :
  Forall (fun v => v ≠ JNull) items →
  filterOthers id items = Some (filter (fun v => hasId id v = false) items).
Proof.
  induction 1 as [|v items Hv _ IH]; [done|].
  cbn [filterOthers]. rewrite IH, filter_cons.
  assert (otherThan id v = Some (negb (hasId id v))) as -> by (by destruct v).
  destruct (hasId id v); cbn [negb].
  - by rewrite decide_False.
  - by rewrite decide_True.
Qed.

Lemma savedVibe_hasId id timestamp s : hasId id (savedVibe id timestamp s) = true.
Proof.
  unfold hasId, savedVibe, objectLiteral, getProperty.
  cbn [omap list_omap fmap option_fmap option_map fst snd].
  rewrite filter_cons. cbn [fst]. rewrite decide_True by done. cbn.
  apply String.eqb_refl.
Qed.

Lemma savedVibe_not_null id timestamp s : savedVibe id timestamp s ≠ JNull.
Proof. done. Qed.

(** X24. Saving puts the new entry first.  When the stored text reads as an
    array (or nothing is stored yet) and the new text fits,
    [handleSaveVibe] stores the array with the new entry in front, marks the
    content as saved and reports no error; the entry carries the identifier,
    the time, the idea and the three fields of the content.  If the rt
    reads back what it wrote, the library then shows the new entry first,
    followed by the former ones in their order. *)
Theorem saved_vibe_comes_first (rt : Runtime) (id : string) (timestamp : Z)
    (stored : option (list Z)) (s : App) (items : list Json) :
  truthy (generatedContent s) = true →
  holds rt stored items →
  let updated := JArray (savedVibe id timestamp s :: items) in
  let text := JSON_stringify rt updated in
  hasRoom rt text = true →
  handleSaveVibe rt id timestamp stored s
  = (mkApp (view s) (step s) (songIdea s) (clarificationData s) (generatedContent s)
       (isLoading s) (appError s) true, Some text) ∧
  (holds rt (Some text) (savedVibe id timestamp s :: items) →
   libraryMount rt (Some text) = updated) ∧
  hasId id (savedVibe id timestamp s) = true.
Proof.
  intros Hcontent Hholds updated text Hroom.
  split; [|split].
  - unfold handleSaveVibe. rewrite Hcontent. cbn [negb]. cbv zeta.
    fold (savedVibe id timestamp s).
    assert (match stored with
            | Some (c :: existingVibesStr) =>
                attempt (JSON_parse rt (c :: existingVibesStr))
            | _ => Some (JArray [])
            end = Some (JArray items)) as ->.
    { unfold holds in Hholds. destruct stored as [[|c t]|].
      - by rewrite Hholds.
      - by rewrite Hholds.
      - by rewrite Hholds. }
    cbn [mbind option_bind spread]. fold updated. fold text. by rewrite Hroom.
  - unfold holds, libraryMount. destruct text as [|c t]; [done|]. by intros ->.
  - apply savedVibe_hasId.
Qed.

Lemma saved_vibe_comes_first_witness :
  let s := appWith "reen" (JObject [("lyrics", JString "la")]) in
  handleSaveVibe (fixedRuntime [91; 93] (JArray [])) "a1" 7 None s
  = (mkApp generator results (Some (JString "reen")) None (JObject [("lyrics", JString "la")])
       false None true, Some [91; 93]).
Proof.
  apply (saved_vibe_comes_first (fixedRuntime [91; 93] (JArray [])) "a1" 7 None
           (appWith "reen" (JObject [("lyrics", JString "la")])) []);
    reflexivity.
Defined.

(** X25. Deleting takes out exactly the entries with the given identifier.
    For a library whose entries are objects (none is [null]) and a text that
    fits, [handleDelete] keeps, in their order, the entries whose [id] is not
    the given string, stores them, and does not throw.  Deleting the entry
    [handleSaveVibe] has just made, when its identifier is new, gives back
    the former entries. *)
Theorem delete_removes_the_entry (rt : Runtime) (id : string)
    (stored : option (list Z)) (items : list Json) :
  Forall (fun v => v ≠ JNull) items →
  let kept := filter (fun v => hasId id v = false) items in
  hasRoom rt (JSON_stringify rt (JArray kept)) = true →
  handleDelete rt id stored (JArray items)
  = (JArray kept, Some (JSON_stringify rt (JArray kept)), false) ∧
  Forall (fun v => hasId id v = false) kept ∧
  (∀ timestamp s,
     Forall (fun v => hasId id v = false) items →
     handleDelete rt id stored (JArray (savedVibe id timestamp s :: items))
     = (JArray items, Some (JSON_stringify rt (JArray items)), false)).
Proof.
  intros Hobjects kept Hroom.
  split; [|split].
  - unfold handleDelete. rewrite filterOthers_filter by done. fold kept. cbv zeta.
    by rewrite Hroom.
  - unfold kept. apply Forall_forall. intros v Hv. by apply list_elem_of_filter in Hv as [Hv _].
  - intros timestamp s Hfresh.
    assert (kept = items) as Hkept.
    { unfold kept. clear -Hfresh. induction Hfresh as [|v items Hv _ IH]; [done|].
      rewrite filter_cons, decide_True by done. by rewrite IH. }
    unfold handleDelete. rewrite filterOthers_filter.
    + rewrite filter_cons, decide_False by (rewrite savedVibe_hasId; done).
      fold kept. rewrite Hkept in *. cbv zeta. by rewrite Hroom.
    + constructor; [apply savedVibe_not_null|done].
Qed.

Lemma delete_removes_the_entry_witness :
  handleDelete (fixedRuntime [91; 93] (JArray [])) "a1" (Some [120])
    (JArray [JObject [("id", JString "a1")]; JObject [("id", JString "b2")]])
  = (JArray [JObject [("id", JString "b2")]], Some [91; 93], false).
Proof.
  apply (delete_removes_the_entry (fixedRuntime [91; 93] (JArray [])) "a1" (Some [120])
           [JObject [("id", JString "a1")]; JObject [("id", JString "b2")]]).
  - by repeat constructor.
  - reflexivity.
Defined.

(** X26. A stored text that does not read as a list blocks saving for good.
    If the text under the key is not empty and [JSON.parse] throws on it, or
    returns something that cannot be spread (an object, a number, a boolean,
    [null]), every [handleSaveVibe] reports "Failed to save to local
    storage.", leaves the content unsaved and leaves the stored text as it
    is, so that the next attempt fails in the same way; and when the text does
    not parse the library shows no entry. *)
Theorem unreadable_store_blocks_saving (rt : Runtime) (c : Z) (text : list Z)
    (id : string) (timestamp : Z) (s : App) :
  truthy (generatedContent s) = true →
  match JSON_parse rt (c :: text) with
  | Ok (JArray _) | Ok (JString _) => False
  | _ => True
  end →
  handleSaveVibe rt id timestamp (Some (c :: text)) s
  = (mkApp (view s) (step s) (songIdea s) (clarificationData s) (generatedContent s)
       (isLoading s) (Some "Failed to save to local storage.") (isSaved s),
     Some (c :: text)) ∧
  (∀ e, JSON_parse rt (c :: text) = Throw e →
        libraryMount rt (Some (c :: text)) = JArray []).
Proof.
  intros Hcontent Hbad. split.
  - unfold handleSaveVibe. rewrite Hcontent. cbn [negb]. cbv zeta.
    destruct (JSON_parse rt (c :: text)) as [[]|e]; done.
  - intros e He. unfold libraryMount. by rewrite He.
Qed.

Lemma unreadable_store_blocks_saving_witness :
  let s := appWith "reen" (JObject [("lyrics", JString "la")]) in
  handleSaveVibe (fixedRuntime [91; 93] (JObject [])) "a1" 7 (Some [123; 125]) s
  = (mkApp generator results (Some (JString "reen")) None (JObject [("lyrics", JString "la")])
       false (Some "Failed to save to local storage.") false, Some [123; 125]).
Proof.
  apply (unreadable_store_blocks_saving (fixedRuntime [91; 93] (JObject [])) 123 [125] "a1" 7
           (appWith "reen" (JObject [("lyrics", JString "la")]))).
  - reflexivity.
  - exact I.
Defined.
(** * The waveform preview *)

Lemma foldl_fixed {A B} (f : A → B → A) (a : A) (l : list B) :
  Forall (fun b => f a b = a) l → foldl f a l = a.
Proof. induction 1 as [|b l Hb _ IH]; [done|]. cbn [foldl]. by rewrite Hb. Qed.

Lemma foldl_invariant {A B} (P : A → Prop) (f : A → B → A) (l : list B) :
  (∀ a b, P a → P (f a b)) → ∀ a, P a → P (foldl f a l).
Proof. intros Hf. induction l as [|b l IH]; intros a Ha; [done|]. cbn [foldl]. auto. Qed.

Lemma scanColumn_empty channelData step i :
  (length channelData ≤ i * step)%nat → scanColumn channelData step i = (Fin 1.0, Fin (-1.0)).
Proof.
  intros H. unfold scanColumn. apply foldl_fixed.
  apply Forall_forall. intros j _. unfold at_index.
  rewrite lookup_ge_None_2 by lia. reflexivity.
Qed.

Lemma below_one d lo :
  num_lt d lo = true → lo = Inf true ∨ (∃ m, lo = Fin m ∧ (m < 1)%Q) →
  d = Inf true ∨ ∃ m, d = Fin m ∧ (m < 1)%Q.
Proof.
  intros Hlt [->|(m & -> & Hm)].
  - destruct d as [|[]|d]; cbn in Hlt; done.
  - destruct d as [|[]|d]; cbn in Hlt; try done; [by left|].
    apply Qlt_bool_true in Hlt. right. exists d. split; [done|lra].
Qed.

Lemma above_minus_one d hi :
  num_lt hi d = true → hi = Inf false ∨ (∃ m, hi = Fin m ∧ (-1 < m)%Q) →
  d = Inf false ∨ ∃ m, d = Fin m ∧ (-1 < m)%Q.
Proof.
  intros Hlt [->|(m & -> & Hm)].
  - destruct d as [|[]|d]; cbn in Hlt; done.
  - destruct d as [|[]|d]; cbn in Hlt; try done; [by left|].
    apply Qlt_bool_true in Hlt. right. exists d. split; [done|lra].
Qed.

Lemma scanColumn_marked channelData step i q :
  channelData !! (i * step)%nat = Some (Fin q) → (0 < step)%nat →
  marked (scanColumn channelData step i).
Proof.
  intros Hq Hstep. unfold scanColumn.
  destruct step as [|step]; [lia|]. cbn [seq foldl].
  apply foldl_invariant.
  - intros [lo hi] j [Hlo|Hhi]; cbn [fst snd] in *.
    + left. cbn [fst]. destruct (num_lt _ lo) eqn:E; [|done]. by eapply below_one.
    + right. cbn [snd]. destruct (num_lt hi _) eqn:E; [|done]. by eapply above_minus_one.
  - unfold at_index. rewrite Nat.add_0_r, Hq.
    change (default NaN (Some (Fin q))) with (Fin q). cbn [num_lt].
    destruct (Qlt_bool q 1.0) eqn:E.
    + left. cbn [fst]. right. exists q. split; [done|]. apply Qlt_bool_true in E. lra.
    + right. apply Qlt_bool_false in E.
      rewrite (proj2 (Qlt_bool_true (-1.0) q)) by lra.
      cbn [snd]. right. exists q. split; [done|lra].
Qed.

Lemma ceil_div_bounds (len width : nat) :
  (0 < width)%nat →
  let step := ((len + width - 1) / width)%nat in
  (len ≤ step * width)%nat ∧ (step * width < len + width)%nat.
Proof.
  intros Hw step.
  pose proof (Nat.div_mod (len + width - 1) width ltac:(lia)) as Hd.
  pose proof (Nat.mod_upper_bound (len + width - 1) width ltac:(lia)) as Hm.
  fold step in Hd. nia.
Qed.

Lemma flat_map_lookup {A} (f : nat → list A) (w : nat) :
  (∀ i, length (f i) = w) →
  ∀ i n k, (i < n)%nat → (k < w)%nat →
    flat_map f (seq 0 n) !! (i * w + k)%nat = f i !! k.
Proof.
  intros Hw i n k Hi Hk.
  pose proof (flat_map_block f w Hw i n 0 Hi) as H. cbn [Nat.add] in H.
  rewrite <- H. rewrite lookup_take, decide_True by done. by rewrite lookup_drop.
Qed.

(** X27. The waveform is drawn as one vertical stroke per canvas column,
    over [ceil (length / width)] samples each: a move and two lines per
    column.  A column that starts at or past the end of the samples finds
    nothing to compare, keeps the initial extent (least 1, greatest -1) and is
    drawn over the full height of the canvas, from the bottom edge to the
    top; a column whose first sample is a finite number is never left with
    that extent.  No column starts past the end once the clip has
    [width * (width - 1)] samples or more. *)
Theorem waveform_columns (channelData : list number) (width : nat) (height : Q) :
  (0 < width)%nat →
  let len := length channelData in
  let step := ((len + width - 1) / width)%nat in
  let ops := drawWaveform channelData width height in
  length ops = (1 + 2 * width)%nat ∧
  (∀ i, (i < width)%nat → (len ≤ i * step)%nat →
     ∃ bottom top,
       ops !! (1 + 2 * i)%nat = Some (LineTo i (Fin bottom)) ∧
       ops !! (2 + 2 * i)%nat = Some (LineTo i (Fin top)) ∧
       (bottom == height)%Q ∧ (top == 0)%Q) ∧
  (∀ i q, channelData !! (i * step)%nat = Some (Fin q) →
     scanColumn channelData step i ≠ (Fin 1.0, Fin (-1.0))) ∧
  ((0 < len)%nat → (width * (width - 1) ≤ len)%nat →
   ∀ i, (i < width)%nat → (i * step < len)%nat).
Proof.
  intros Hw len step ops.
  set (column := fun i : nat =>
         let '(min, max) := scanColumn channelData step i in
         [LineTo i (num_mul (num_add (Fin 1) min) (Fin (height / 2)));
          LineTo i (num_mul (num_add (Fin 1) max) (Fin (height / 2)))]).
  assert (∀ i, length (column i) = 2%nat) as Hcol.
  { intros i. unfold column. by destruct (scanColumn channelData step i). }
  assert (ops = MoveTo 0 (Fin (height / 2)) :: flat_map column (seq 0 width)) as Hops
    by reflexivity.
  split.
  { rewrite Hops. cbn [length]. rewrite (flat_map_constant_length (c:=2)).
    - rewrite length_seq. lia.
    - intros. apply Hcol. }
  split.
  { intros i Hi Hempty.
    assert (column i = [LineTo i (Fin ((1 + 1.0) * (height / 2)));
                        LineTo i (Fin ((1 + -1.0) * (height / 2)))]) as Hblock.
    { unfold column. by rewrite scanColumn_empty. }
    exists ((1 + 1.0) * (height / 2))%Q, ((1 + -1.0) * (height / 2))%Q.
    rewrite Hops.
    split; [|split].
    - change (1 + 2 * i)%nat with (S (2 * i)). cbn [lookup list_lookup].
      change (list_lookup (2 * i)%nat ?l) with (l !! (2 * i)%nat).
      replace (2 * i)%nat with (i * 2 + 0)%nat by lia.
      rewrite (flat_map_lookup column 2 Hcol) by lia. by rewrite Hblock.
    - change (2 + 2 * i)%nat with (S (S (2 * i))). cbn [lookup list_lookup].
      change (list_lookup (S (2 * i))%nat ?l) with (l !! (S (2 * i))%nat).
      replace (S (2 * i))%nat with (i * 2 + 1)%nat by lia.
      rewrite (flat_map_lookup column 2 Hcol) by lia. by rewrite Hblock.
    - split; field. }
  split.
  { intros i q Hq.
    assert (i * step < len)%nat as Hlt by (by eapply lookup_lt_Some).
    assert (0 < step)%nat as Hstep.
    { destruct (ceil_div_bounds len width Hw) as [H1 _]. fold step in H1. nia. }
    pose proof (scanColumn_marked channelData step i q Hq Hstep) as Hm.
    intros Heq. rewrite Heq in Hm. unfold marked in Hm. cbn [fst snd] in Hm.
    destruct Hm as [[|(m & [= <-] & Hm)]|[|(m & [= <-] & Hm)]]; try done; lra. }
  intros Hlen Hbig i Hi.
  destruct (ceil_div_bounds len width Hw) as [H1 H2]. fold step in H1, H2.
  nia.
Qed.

Lemma waveform_columns_witness :
  ∃ bottom top,
    drawWaveform (replicate 10 (Fin 0)) 8 100 !! 15%nat = Some (LineTo 7 (Fin bottom)) ∧
    drawWaveform (replicate 10 (Fin 0)) 8 100 !! 16%nat = Some (LineTo 7 (Fin top)) ∧
    (bottom == 100)%Q ∧ (top == 0)%Q.
Proof.
  destruct (waveform_columns (replicate 10 (Fin 0)) 8 100) as (_ & H & _); [lia|].
  apply (H 7%nat); cbn; lia.
Defined.
(** * The generator *)

(** X28. With an idea that is not blank, [handleInitialSubmit] always ends
    at the clarifying step, idle and without error, holding what
    [getClarificationQuestion] resolved with: since that function never
    rejects, the handler's own error message is never shown, whatever the
    model or the network does.  A blank idea leaves the state as it is. *)
Theorem handleInitialSubmit_outcome (rt : Runtime) (s : App) (idea : string) :
  songIdea s = Some (JString idea) →
  let s' := handleInitialSubmit rt s in
  (trim (charCodes idea) = [] → s' = s) ∧
  (trim (charCodes idea) ≠ [] →
   step s' = clarifying ∧ isLoading s' = false ∧ appError s' = None ∧
   ∃ data, clarificationData s' = Some data ∧ getClarificationQuestion rt idea = Ok data) ∧
  (appError s' = None ∨ appError s' = appError s) ∧
  view s' = view s ∧ songIdea s' = songIdea s ∧
  generatedContent s' = generatedContent s ∧ isSaved s' = isSaved s.
Proof.
  intros Hidea s'. subst s'. unfold handleInitialSubmit. rewrite Hidea.
  destruct (getClarificationQuestion_total rt idea) as [data Hdata].
  rewrite Hdata.
  destruct (decide (trim (charCodes idea) = [])) as [Hblank|Hblank].
  - rewrite bool_decide_eq_true_2 by done.
    split; [done|]. split; [done|]. split; [by right|]. by rewrite Hidea.
  - rewrite bool_decide_eq_false_2 by done.
    cbn [step isLoading appError clarificationData view songIdea generatedContent isSaved].
    split; [done|]. split; [|by split; [left|]].
    intros _. split; [done|]. split; [done|]. split; [done|]. by exists data.
Qed.

Lemma handleInitialSubmit_outcome_witness :
  let s' := handleInitialSubmit (fixedRuntime [] JNull) (appWith "reen" JNull) in
  step s' = clarifying ∧ isLoading s' = false ∧ appError s' = None.
Proof.
  destruct (handleInitialSubmit_outcome (fixedRuntime [] JNull) (appWith "reen" JNull) "reen"
              eq_refl) as (_ & H & _).
  destruct H as (H1 & H2 & H3 & _); [by vm_compute|].
  cbv zeta. split; [exact H1|]. split; [exact H2|exact H3].
Defined.

Lemma objectLiteral_content (lyrics stylePrompt linguisticAnalysis : option Json) :
  let content := objectLiteral [("lyrics", lyrics); ("stylePrompt", stylePrompt);
                                ("linguisticAnalysis", linguisticAnalysis)] in
  getProperty "lyrics" content = lyrics ∧
  getProperty "stylePrompt" content = stylePrompt ∧
  getProperty "linguisticAnalysis" content = linguisticAnalysis.
Proof. by destruct lyrics, stylePrompt, linguisticAnalysis. Qed.

Lemma savedVibe_properties id timestamp s :
  let vibe := savedVibe id timestamp s in
  getProperty "idea" vibe = songIdea s ∧
  getProperty "lyrics" vibe = getProperty "lyrics" (generatedContent s) ∧
  getProperty "stylePrompt" vibe = getProperty "stylePrompt" (generatedContent s) ∧
  getProperty "linguisticAnalysis" vibe = getProperty "linguisticAnalysis" (generatedContent s).
Proof.
  unfold savedVibe.
  by destruct (songIdea s), (getProperty "lyrics" _), (getProperty "stylePrompt" _),
    (getProperty "linguisticAnalysis" _).
Qed.

(** X29. What is saved comes back.  After [handleSaveVibe] has stored a
    content (with a browser that reads back what it wrote), the first entry of
    the library, handed to [handleLoadVibe], shows the generator at its
    results with the same idea and with a content that has the same lyrics,
    style prompt and linguistic analysis, no other property, and that can be
    saved again: the entry made of it differs from the first one by
    identifier and time only. *)
Theorem saved_vibe_loads_back (rt : Runtime) (id : string) (timestamp : Z)
    (stored : option (list Z)) (s s0 : App) (items : list Json) :
  truthy (generatedContent s) = true →
  holds rt stored items →
  let text := JSON_stringify rt (JArray (savedVibe id timestamp s :: items)) in
  hasRoom rt text = true →
  holds rt (Some text) (savedVibe id timestamp s :: items) →
  ∃ vibe rest s',
    libraryMount rt (handleSaveVibe rt id timestamp stored s).2 = JArray (vibe :: rest) ∧
    handleLoadVibe vibe s0 = Some s' ∧
    view s' = generator ∧ step s' = results ∧
    songIdea s' = songIdea s ∧
    generatedContent s'
    = objectLiteral [("lyrics", getProperty "lyrics" (generatedContent s));
                     ("stylePrompt", getProperty "stylePrompt" (generatedContent s));
                     ("linguisticAnalysis",
                      getProperty "linguisticAnalysis" (generatedContent s))] ∧
    truthy (generatedContent s') = true ∧
    ∀ id' timestamp', savedVibe id' timestamp' s' = savedVibe id' timestamp' s.
Proof.
  intros Hcontent Hholds text Hroom Hback.
  assert ((handleSaveVibe rt id timestamp stored s).2 = Some text) as ->.
  { unfold handleSaveVibe. rewrite Hcontent. cbn [negb]. cbv zeta.
    fold (savedVibe id timestamp s).
    assert (match stored with
            | Some (c :: existingVibesStr) => attempt (JSON_parse rt (c :: existingVibesStr))
            | _ => Some (JArray [])
            end = Some (JArray items)) as ->.
    { unfold holds in Hholds. destruct stored as [[|c t]|]; by rewrite Hholds. }
    cbn [mbind option_bind spread]. fold text. by rewrite Hroom. }
  exists (savedVibe id timestamp s), items.
  destruct (savedVibe_properties id timestamp s) as (Hi & Hl & Hs & Ha).
  cbv zeta in Hi, Hl, Hs, Ha.
  eexists. split.
  { unfold holds in Hback. unfold libraryMount. destruct text as [|c t]; [done|].
    by rewrite Hback. }
  split; [reflexivity|].
  cbn [view step songIdea generatedContent].
  rewrite Hi, Hl, Hs, Ha.
  split; [done|]. split; [done|]. split; [done|]. split; [done|]. split; [done|].
  intros id' timestamp'. unfold savedVibe at 1. cbn [songIdea generatedContent].
  destruct (objectLiteral_content (getProperty "lyrics" (generatedContent s))
              (getProperty "stylePrompt" (generatedContent s))
              (getProperty "linguisticAnalysis" (generatedContent s))) as (-> & -> & ->).
  reflexivity.
Qed.

Lemma saved_vibe_loads_back_witness :
  let s := appWith "reen" (JObject [("lyrics", JString "la"); ("mood", JString "sag")]) in
  let vibe := savedVibe "a1" 7 s in
  ∃ s',
    handleLoadVibe vibe initialApp = Some s' ∧
    songIdea s' = Some (JString "reen") ∧
    generatedContent s' = JObject [("lyrics", JString "la")].
Proof.
  destruct (saved_vibe_loads_back
              (fixedRuntime [91; 93]
                 (JArray [savedVibe "a1" 7
                            (appWith "reen"
                               (JObject [("lyrics", JString "la"); ("mood", JString "sag")]))]))
              "a1" 7 (Some []) 
              (appWith "reen" (JObject [("lyrics", JString "la"); ("mood", JString "sag")]))
              initialApp [])
    as (vibe & rest & s' & Hm & Hl & _ & _ & Hi & Hc & _); [reflexivity..|].
  injection Hm as <- _. exists s'. split; [exact Hl|]. split; [exact Hi|exact Hc].
Defined.
(** * The waveshaping curve as a limiter *)








